(** * DermaGnosis federated aggregation and privacy engine

    A shallow embedding of [src/modules/core/fl_engine.py] (the registry
    [ModelRegistry] and the round driver [FedAvgEngine]) together with the
    properties of its specification.

    Modelling conventions.
    - A Python [float] is a real number of [R]: rounding, overflow and
      underflow are idealised away.  Where numpy would produce [nan] or
      [inf] out of a real input (square root of a negative number,
      division of a numpy float by zero, logarithm of a non-positive
      number) the model stops with the marker [NonFinite]; the one
      infinity the source writes down itself, [float('inf')], is the
      constructor [pinf] of [efloat].
    - A Python [int] is an integer of [Z]: it has no bound, and numpy
      refuses the ints it cannot hold in 64 bits where it is given one
      ([np_sqrt_int]).
    - A real that is zero stands for the float [+0.0].  The float [-0.0]
      is equal to it and differs in its sign bit, which numpy looks at when
      it checks the scale of a distribution; the sign bit of the one scale
      the source computes is modelled beside its value ([signbit_mul]).
    - A numpy array is the list of its elements in row-major order; every
      array the engine creates has the shape [(n_layers, 64)], so its list
      has [n_layers * 64] elements.  An element-wise operation on two
      lists of different length stops with [ValueError]: numpy's
      broadcasting between different shapes is not modelled.
    - A method is a function from the state of its object to an outcome and
      the state after it; a raised exception keeps the state reached when
      it was raised.
    - The process-wide random source of [np.random] and the wall clock of
      [time.time] are explicit: a [World] holds the sequences of values
      they are going to return and how many were consumed. *)

From Stdlib Require Import Reals Lra ZArith List String Ascii.
From stdpp Require Import base gmap strings list fin_maps.
Local Open Scope R_scope.

(** ** Outcomes and the state-and-exception monad *)

Inductive exn : Set :=
| IndexError
| KeyError
| ZeroDivisionError
| ValueError
| TypeError
| NonFinite.

Inductive result (A : Type) : Type :=
| Ok (a : A)
| Raise (e : exn).
Arguments Ok {A} a.
Arguments Raise {A} e.

Definition M (S A : Type) : Type := S -> result A * S.

Definition ret {S A : Type} (a : A) : M S A := fun s => (Ok a, s).

Definition raise {S A : Type} (e : exn) : M S A := fun s => (Raise e, s).

Definition bind {S A B : Type} (m : M S A) (k : A -> M S B) : M S B :=
  fun s => match m s with
           | (Ok a, s') => k a s'
           | (Raise e, s') => (Raise e, s')
           end.

Definition get {S : Type} : M S S := fun s => (Ok s, s).

Definition modify {S : Type} (f : S -> S) : M S unit := fun s => (Ok tt, f s).

(** A computation without state, run inside a stateful one. *)
Definition lift {S A : Type} (r : result A) : M S A := fun s => (r, s).

(** A computation on a component [T] of the state [S]. *)
Definition zoom {S T A : Type} (proj : S -> T) (upd : T -> S -> S)
  (m : M T A) : M S A :=
  fun s => let (r, t) := m (proj s) in (r, upd t s).

Declare Scope py_scope.
Delimit Scope py_scope with py.
Notation "x <- m ;; k" := (bind m (fun x => k))
  (at level 63, m at next level, right associativity) : py_scope.
Notation "m ;;; k" := (bind m (fun _ => k))
  (at level 63, right associativity) : py_scope.
Local Open Scope py_scope.

(** The same sequencing for computations without state. *)
Definition rbind {A B : Type} (r : result A) (k : A -> result B) : result B :=
  match r with
  | Ok a => k a
  | Raise e => Raise e
  end.

(** ** Numbers *)

(** A float that may be the [float('inf')] of the source. *)
Inductive efloat : Type :=
| fin (x : R)
| pinf.

(** [a / b] on two Python ints. *)
Definition int_truediv (a b : Z) : result R :=
  if (b =? 0)%Z then Raise ZeroDivisionError else Ok (IZR a / IZR b).

(** [a / b] on two Python floats (or a float and an int). *)
Definition float_truediv (a b : R) : result R :=
  if Req_dec_T b 0 then Raise ZeroDivisionError else Ok (a / b).

(** [x < y] on two floats, as a truth value. *)
Definition float_lt (x y : R) : bool := if Rlt_dec x y then true else false.

(** The sign bit of a float. *)
Definition signbit (x : R) : bool := float_lt x 0.

(** The sign bit of the float product [a * b], also when the product is a
    zero: zero times a negative number is the float [-0.0]. *)
Definition signbit_mul (a b : R) : bool := xorb (signbit a) (signbit b).

(** [np.sqrt], [np.log] on a scalar. *)
Definition np_sqrt (x : R) : result R :=
  if Rlt_dec x 0 then Raise NonFinite else Ok (sqrt x).

(** [np.sqrt] on a Python int.  numpy takes an int of the range of int64
    or of uint64 as such a number, and its square root as a float; any
    other int stays a Python object, which has no square root:
    [TypeError]. *)
Definition np_sqrt_int (n : Z) : result R :=
  if (n <? - 2 ^ 63)%Z || (2 ^ 64 <=? n)%Z then Raise TypeError
  else np_sqrt (IZR n).

Definition np_log (x : R) : result R :=
  if Rle_dec x 0 then Raise NonFinite else Ok (ln x).

(** [np.clip(x, lo, hi)] is [minimum(maximum(x, lo), hi)]. *)
Definition np_clip (x lo hi : R) : R := Rmin (Rmax x lo) hi.

(** [sum] of a list of ints, of a list of floats. *)
Definition sumZ (l : list Z) : Z := foldl Z.add 0%Z l.
Definition sumR (l : list R) : R := foldl Rplus 0 l.

(** [min] of a list of ints; [ValueError] on the empty list. *)
Definition py_min (l : list Z) : result Z :=
  match l with
  | [] => Raise ValueError
  | x :: xs => Ok (foldl Z.min x xs)
  end.

Definition py_max (l : list Z) : result Z :=
  match l with
  | [] => Raise ValueError
  | x :: xs => Ok (foldl Z.max x xs)
  end.

(** [np.mean] of a list of floats: [nan] on the empty list. *)
Definition np_mean (l : list R) : result R :=
  match l with
  | [] => Raise NonFinite
  | _ => Ok (sumR l / INR (length l))
  end.

(** ** Tensors: numpy arrays in row-major order *)

Definition tensor : Type := list R.

Definition zeros_like (w : tensor) : tensor := map (fun _ => 0) w.

(** [c * w] and [w * c] for a scalar [c]; [-w]. *)
Definition scale (c : R) (w : tensor) : tensor := map (Rmult c) w.
Definition scale_r (w : tensor) (c : R) : tensor := map (fun x => x * c) w.
Definition neg (w : tensor) : tensor := map Ropp w.

Fixpoint zip_with_shape (f : R -> R -> R) (a b : tensor) : result tensor :=
  match a, b with
  | [], [] => Ok []
  | x :: a', y :: b' => rbind (zip_with_shape f a' b') (fun t => Ok (f x y :: t))
  | _, _ => Raise ValueError
  end.

(** [a + b] (also the in-place [a += b]) and [a - b]. *)
Definition tadd (a b : tensor) : result tensor := zip_with_shape Rplus a b.
Definition tsub (a b : tensor) : result tensor := zip_with_shape Rminus a b.

(** [np.linalg.norm]: the Frobenius norm. *)
Definition linalg_norm (w : tensor) : R := sqrt (sumR (map (fun x => x * x) w)).

(** ** Strings *)

(** A Python [str] is the string of its UTF-8 bytes. *)
Definition byte_string (bs : list Z) : string :=
  string_of_list_ascii (map (fun b => ascii_of_N (Z.to_N b)) bs).

(** [chr(n)]: the one-character string of code point [n]. *)
Definition chr (n : Z) : result string :=
  if (n <? 0)%Z || (1114111 <? n)%Z then Raise ValueError
  else if (n <? 128)%Z then Ok (byte_string [n])
  else if (n <? 2048)%Z then
    Ok (byte_string [Z.lor 192 (Z.shiftr n 6); Z.lor 128 (Z.land n 63)])
  else if (n <? 65536)%Z then
    Ok (byte_string [Z.lor 224 (Z.shiftr n 12);
                     Z.lor 128 (Z.land (Z.shiftr n 6) 63);
                     Z.lor 128 (Z.land n 63)])
  else
    Ok (byte_string [Z.lor 240 (Z.shiftr n 18);
                     Z.lor 128 (Z.land (Z.shiftr n 12) 63);
                     Z.lor 128 (Z.land (Z.shiftr n 6) 63);
                     Z.lor 128 (Z.land n 63)]).

(** ** The world: random source and wall clock *)

Record World : Type := mkWorld {
  normals : nat -> R;        (* the standard normal draws to come *)
  uniforms : nat -> R;       (* the uniform draws on [0, 1) to come *)
  integers : nat -> Z;       (* the raw integer draws to come *)
  cursor : nat;              (* how many draws were consumed *)
  clock : nat -> R;          (* the readings of [time.time] to come *)
  ticks : nat;               (* how many readings were taken *)
  dp_noise_calls : nat       (* ghost: calls of [_add_dp_noise] so far *)
}.

Definition advance (n : nat) (w : World) : World :=
  mkWorld (normals w) (uniforms w) (integers w) (cursor w + n)
          (clock w) (ticks w) (dp_noise_calls w).

(** [np.random.randn] for a shape of [n] elements. *)
Definition randn (n : nat) : M World tensor :=
  fun w => (Ok (map (normals w) (seq (cursor w) n)), advance n w).

(** [np.random.normal(loc, scale)]: [ValueError] on a negative scale. *)
Definition random_normal (loc sc : R) : M World R :=
  fun w => if Rlt_dec sc 0 then (Raise ValueError, w)
           else (Ok (loc + sc * normals w (cursor w)), advance 1 w).

(** [np.random.normal(loc, scale, shape)] for a shape of [n] elements;
    [negative] is the sign bit of the scale.  numpy refuses a scale whose
    sign bit is set: a negative number, and the zero [-0.0]. *)
Definition random_normal_n (loc sc : R) (negative : bool) (n : nat) : M World tensor :=
  fun w => if negative || float_lt sc 0 then (Raise ValueError, w)
           else (Ok (map (fun i => loc + sc * normals w i) (seq (cursor w) n)),
                 advance n w).

(** [np.random.randint(low, high)]: an int of [[low, high)]. *)
Definition randint (low high : Z) : M World Z :=
  fun w => if (high <=? low)%Z then (Raise ValueError, w)
           else (Ok (low + integers w (cursor w) mod (high - low))%Z, advance 1 w).

(** [np.random.randint(low, high, size)]. *)
Definition randint_n (low high size : Z) : M World (list Z) :=
  fun w => if (high <=? low)%Z || (size <? 0)%Z then (Raise ValueError, w)
           else (Ok (map (fun i => (low + integers w i mod (high - low))%Z)
                         (seq (cursor w) (Z.to_nat size))),
                 advance (Z.to_nat size) w).

(** [np.random.uniform(low, high, size)]. *)
Definition random_uniform_n (low high : R) (size : Z) : M World (list R) :=
  fun w => if (size <? 0)%Z then (Raise ValueError, w)
           else (Ok (map (fun i => low + (high - low) * uniforms w i)
                         (seq (cursor w) (Z.to_nat size))),
                 advance (Z.to_nat size) w).

(** [time.time()]. *)
Definition time_time : M World R :=
  fun w => (Ok (clock w (ticks w)),
            mkWorld (normals w) (uniforms w) (integers w) (cursor w)
                    (clock w) (S (ticks w)) (dp_noise_calls w)).

(** Ghost step: one more call of [_add_dp_noise]. *)
Definition count_dp_noise_call : M World unit :=
  modify (fun w => mkWorld (normals w) (uniforms w) (integers w) (cursor w)
                           (clock w) (ticks w) (S (dp_noise_calls w))).

(** ** Containers *)

(** [l[i]] for [0 <= i < len(l)]. *)
Definition index {A : Type} (l : list A) (i : nat) : result A :=
  match l !! i with
  | Some x => Ok x
  | None => Raise IndexError
  end.

(** [d[k]] on a dict. *)
Definition subscript {K V : Type} `{Countable K} (d : gmap K V) (k : K) : result V :=
  match d !! k with
  | Some v => Ok v
  | None => Raise KeyError
  end.

(** [range(a, b)]. *)
Definition range (a b : Z) : list Z :=
  map (fun i => (a + Z.of_nat i)%Z) (seq 0 (Z.to_nat (b - a))).

Fixpoint mapM {S A B : Type} (f : A -> M S B) (l : list A) : M S (list B) :=
  match l with
  | [] => ret []
  | x :: xs => y <- f x ;; ys <- mapM f xs ;; ret (y :: ys)
  end.

Fixpoint rmap {A B : Type} (f : A -> result B) (l : list A) : result (list B) :=
  match l with
  | [] => Ok []
  | x :: xs => rbind (f x) (fun y => rbind (rmap f xs) (fun ys => Ok (y :: ys)))
  end.

(** ** Data model (lines 12-47) *)

Record HospitalNode : Type := mkHospitalNode {
  node_id : string;
  n_samples : Z;
  base_accuracy : R;
  noise_level : R;
  cloud_provider : string;
  region : string;
  encryption_active : bool;
  weights : option tensor;
  last_loss : R;
  rounds_participated : Z
}.

Record FLRound : Type := mkFLRound {
  round_num : Z;
  global_accuracy : R;
  global_loss : R;
  node_accuracies : gmap string R;
  weight_divergence : R;
  privacy_epsilon : efloat;
  secure_agg_status : string;
  converged : bool
}.

(** [timestamp] is the reading of [time.time] taken when the version is
    built. *)
Record ModelVersion : Type := mkModelVersion {
  version_id : Z;
  version_weights : tensor;
  accuracy : R;
  timestamp : R
}.

(** ** ModelRegistry (lines 50-67) *)

Record ModelRegistry : Type := mkModelRegistry {
  versions : gmap Z ModelVersion;
  best_version_id : Z
}.

Definition ModelRegistry_init : ModelRegistry :=
  mkModelRegistry ∅ (-1).

(** [save_version]; [now] is the clock reading that [ModelVersion] takes
    for its timestamp. *)
Definition save_version (vid : Z) (w : tensor) (acc : R) (now : R) :
  M ModelRegistry unit :=
  modify (fun self =>
    mkModelRegistry (<[vid := mkModelVersion vid w acc now]> (versions self))
                    (best_version_id self)) ;;;
  self <- get ;;
  if (best_version_id self =? -1)%Z then
    modify (fun self => mkModelRegistry (versions self) vid)
  else
    best <- lift (subscript (versions self) (best_version_id self)) ;;
    if Rgt_dec acc (accuracy best) then
      modify (fun self => mkModelRegistry (versions self) vid)
    else ret tt.

Definition get_latest : M ModelRegistry (option ModelVersion) :=
  self <- get ;;
  if decide (versions self = ∅) then ret None
  else
    k <- lift (py_max (map fst (map_to_list (versions self)))) ;;
    v <- lift (subscript (versions self) k) ;;
    ret (Some v).

Definition get_best : M ModelRegistry (option ModelVersion) :=
  self <- get ;;
  if (best_version_id self =? -1)%Z then ret None
  else
    v <- lift (subscript (versions self) (best_version_id self)) ;;
    ret (Some v).

(** ** FedAvgEngine (lines 70-219) *)

Record FedAvgEngine : Type := mkFedAvgEngine {
  n_hospitals : Z;
  dp_enabled : bool;
  dp_sigma : R;
  lr : R;
  n_layers : Z;
  hospitals : list HospitalNode;
  global_weights : tensor;
  round_history : list FLRound;
  registry : ModelRegistry
}.

(** [np.random.randn(n_layers, 64)]. *)
Definition randn_layers (n_layers : Z) : M World tensor :=
  if (n_layers <? 0)%Z then raise ValueError
  else randn (Z.to_nat n_layers * 64).

Definition clouds : list string := ["AWS"; "GCP"; "Azure"]%string.

Definition regions : gmap string (list string) :=
  <["AWS" := ["us-east-1"; "us-west-2"; "eu-central-1"]]>
  (<["GCP" := ["us-central1"; "europe-west1"; "asia-east1"]]>
  (<["Azure" := ["eastus"; "westeurope"; "southeastasia"]]> ∅))%string.

(** The body of the loop of [_init_hospitals] (lines 112-123). *)
Definition init_hospital (n_layers : Z) (sample_sizes : list Z)
  (base_accuracies : list R) (i : nat) : M World HospitalNode :=
  cloud <- lift (index clouds (i mod 3)) ;;
  rs <- lift (subscript regions cloud) ;;
  k <- randint 0 3 ;;
  region <- lift (index rs (Z.to_nat k)) ;;
  letter <- lift (chr (65 + Z.of_nat i)) ;;
  n <- lift (index sample_sizes i) ;;
  a <- lift (index base_accuracies i) ;;
  w <- randn_layers n_layers ;;
  ret (mkHospitalNode ("Hospital-" +:+ letter) n a 0 cloud region true
         (Some (scale_r w 0.1)) 1 0).

Definition _init_hospitals (n_hospitals n_layers : Z) : M World (list HospitalNode) :=
  sample_sizes <- randint_n 150 800 n_hospitals ;;
  base_accuracies <- random_uniform_n 0.60 0.75 n_hospitals ;;
  mapM (init_hospital n_layers sample_sizes base_accuracies)
       (seq 0 (Z.to_nat n_hospitals)).

(** [FedAvgEngine(n_hospitals, dp_enabled, dp_sigma, learning_rate, n_layers)]. *)
Definition FedAvgEngine_init (n_hospitals : Z) (dp_enabled : bool)
  (dp_sigma learning_rate : R) (n_layers : Z) : M World FedAvgEngine :=
  hospitals <- _init_hospitals n_hospitals n_layers ;;
  g <- randn_layers n_layers ;;
  ret (mkFedAvgEngine n_hospitals dp_enabled dp_sigma learning_rate n_layers
         hospitals (scale_r g 0.1) [] ModelRegistry_init).

(** The state a method of the engine runs in. *)
Record Sys : Type := mkSys {
  engine : FedAvgEngine;
  world : World
}.

Definition in_world {A : Type} (m : M World A) : M Sys A :=
  zoom world (fun w s => mkSys (engine s) w) m.

Definition set_registry (r : ModelRegistry) (e : FedAvgEngine) : FedAvgEngine :=
  mkFedAvgEngine (n_hospitals e) (dp_enabled e) (dp_sigma e) (lr e) (n_layers e)
    (hospitals e) (global_weights e) (round_history e) r.

Definition set_global_weights (g : tensor) (e : FedAvgEngine) : FedAvgEngine :=
  mkFedAvgEngine (n_hospitals e) (dp_enabled e) (dp_sigma e) (lr e) (n_layers e)
    (hospitals e) g (round_history e) (registry e).

Definition set_round_history (h : list FLRound) (e : FedAvgEngine) : FedAvgEngine :=
  mkFedAvgEngine (n_hospitals e) (dp_enabled e) (dp_sigma e) (lr e) (n_layers e)
    (hospitals e) (global_weights e) h (registry e).

Definition in_registry {A : Type} (m : M ModelRegistry A) : M Sys A :=
  zoom (fun s => registry (engine s))
       (fun r s => mkSys (set_registry r (engine s)) (world s)) m.

Definition self : M Sys FedAvgEngine := fun s => (Ok (engine s), s).

(** One pass of the loop of [_simulate_local_training] (lines 134-136). *)
Definition local_epoch (node : HospitalNode) (w : tensor) : M Sys tensor :=
  e <- self ;;
  z <- in_world (randn (length w)) ;;
  root <- lift (np_sqrt_int (n_samples node)) ;;
  if Req_dec_T root 0 then raise NonFinite
  else
    let noise := scale_r z (1.0 / root) in
    gradient <- lift (tadd (scale_r (neg w) 0.08) (scale_r noise 0.15)) ;;
    lift (tsub w (scale (lr e) gradient)).

Fixpoint local_epochs_loop (n : nat) (node : HospitalNode) (w : tensor) : M Sys tensor :=
  match n with
  | O => ret w
  | S n' => w' <- local_epoch node w ;; local_epochs_loop n' node w'
  end.

Definition _simulate_local_training (node : HospitalNode) (global_weights : tensor)
  (local_epochs : Z) : M Sys tensor :=
  local_epochs_loop (Z.to_nat local_epochs) node global_weights.

Definition _add_dp_noise (weights : tensor) (n_samples : Z) : M Sys tensor :=
  in_world count_dp_noise_call ;;;
  e <- self ;;
  sensitivity <- lift (float_truediv 2.0 (IZR n_samples)) ;;
  let effective_sigma := dp_sigma e * sensitivity in
  noise <- in_world (random_normal_n 0 effective_sigma
                      (signbit_mul (dp_sigma e) sensitivity) (length weights)) ;;
  lift (tadd weights noise).

Definition _compute_epsilon (sigma : R) (n_samples : Z) (delta : R) : result efloat :=
  if Req_dec_T sigma 0 then Ok pinf
  else
    rbind (float_truediv 1.25 delta) (fun q =>
    rbind (np_log q) (fun l =>
    rbind (np_sqrt (2 * l)) (fun root =>
    Ok (fin (root / sigma))))).

(** The loop of [_fedavg_aggregate] (lines 156-157) over the zipped pairs. *)
Fixpoint aggregate_loop (total_samples : Z) (pairs : list (tensor * Z))
  (aggregated : tensor) : result tensor :=
  match pairs with
  | [] => Ok aggregated
  | (w, n) :: rest =>
      rbind (int_truediv n total_samples) (fun c =>
      rbind (tadd aggregated (scale c w)) (fun aggregated' =>
      aggregate_loop total_samples rest aggregated'))
  end.

Definition _fedavg_aggregate (local_weights : list tensor) (sample_counts : list Z) :
  result tensor :=
  let total_samples := sumZ sample_counts in
  rbind (index local_weights 0) (fun w0 =>
  aggregate_loop total_samples (zip local_weights sample_counts) (zeros_like w0)).

Definition _compute_accuracy (w : tensor) (round_num : Z) (target : R) : M World R :=
  let progress := 1.0 / (1.0 + exp (- 0.4 * (IZR round_num - 8))) in
  let base := 0.60 + (target - 0.60) * progress in
  noise <- random_normal 0 0.008 ;;
  ret (np_clip (base + noise) 0.50 0.99).

(** What the loop over the nodes of [run_round] has built so far. *)
Record Updates : Type := mkUpdates {
  local_weights : list tensor;
  sample_counts : list Z;
  node_accs : gmap string R
}.

(** The body of the loop over the nodes (lines 175-181). *)
Definition train_node (round_num : Z) (u : Updates) (node : HospitalNode) : M Sys Updates :=
  e <- self ;;
  w_local <- _simulate_local_training node (global_weights e) 3 ;;
  w_local <- (if dp_enabled e then _add_dp_noise w_local (n_samples node)
              else ret w_local) ;;
  a <- in_world (_compute_accuracy w_local round_num 0.86) ;;
  z <- in_world (random_normal 0 0.01) ;;
  let node_acc := np_clip (a + z) 0.5 0.99 in
  ret (mkUpdates (local_weights u ++ [w_local])
                 (sample_counts u ++ [n_samples node])
                 (<[node_id node := node_acc]> (node_accs u))).

Fixpoint train_nodes (round_num : Z) (u : Updates) (nodes : list HospitalNode) :
  M Sys Updates :=
  match nodes with
  | [] => ret u
  | node :: rest => u' <- train_node round_num u node ;; train_nodes round_num u' rest
  end.

(** The candidate of a round: what lines 170-185 of [run_round] compute
    before the rollback check. *)
Record Candidate : Type := mkCandidate {
  cand_updates : Updates;
  cand_global : tensor;         (* [new_global] of line 183 *)
  cand_divergence : R;          (* [w_divergence] of line 184 *)
  cand_acc : R                  (* [global_acc] of line 185 *)
}.

Definition run_round_candidate (round_num : Z) : M Sys Candidate :=
  e <- self ;;
  u <- train_nodes round_num (mkUpdates [] [] ∅) (hospitals e) ;;
  new_global <- lift (_fedavg_aggregate (local_weights u) (sample_counts u)) ;;
  norms <- lift (rmap (fun w => rbind (tsub w new_global) (fun d => Ok (linalg_norm d)))
                      (local_weights u)) ;;
  w_divergence <- lift (np_mean norms) ;;
  global_acc <- in_world (_compute_accuracy new_global round_num 0.86) ;;
  ret (mkCandidate u new_global w_divergence global_acc).

(** The two values of [secure_agg_status] (line 205). *)
Definition status_normal : string := "Rollback Strategy Active".
Definition status_rollback_applied : string := "Safe Rollback Applied".

(** The rollback check (lines 188-193): the weights and the accuracy the
    round goes on with, and [rollback_active]. *)
Definition rollback_check (prev_best : option ModelVersion) (c : Candidate) :
  tensor * R * bool :=
  match prev_best with
  | Some best =>
      if Rlt_dec (cand_acc c) (accuracy best - 0.05)
      then (version_weights best, accuracy best, true)
      else (cand_global c, cand_acc c, false)
  | None => (cand_global c, cand_acc c, false)
  end.

(** Lines 187-211 of [run_round]. *)
Definition run_round_commit (round_num : Z) (c : Candidate) : M Sys FLRound :=
  prev_best <- in_registry get_best ;;
  let '(new_global, global_acc, rollback_active) := rollback_check prev_best c in
  now <- in_world time_time ;;
  in_registry (save_version round_num new_global global_acc now) ;;;
  e <- self ;;
  eps <- (if dp_enabled e
          then lift (rbind (py_min (sample_counts (cand_updates c))) (fun m =>
                     _compute_epsilon (dp_sigma e) m 1e-5))
          else ret (fin 0.0)) ;;
  let result :=
    mkFLRound round_num global_acc (1.0 - global_acc)
      (node_accs (cand_updates c)) (cand_divergence c) eps
      (if negb rollback_active then status_normal else status_rollback_applied)
      (float_lt (cand_divergence c) 0.01 && (10 <=? round_num)%Z) in
  modify (fun s => mkSys (set_global_weights new_global (engine s)) (world s)) ;;;
  modify (fun s => mkSys (set_round_history (round_history (engine s) ++ [result])
                                            (engine s)) (world s)) ;;;
  ret result.

Definition run_round (round_num : Z) : M Sys FLRound :=
  c <- run_round_candidate round_num ;;
  run_round_commit round_num c.

(** The loop of [run_simulation] (lines 216-218) over the rounds left. *)
Fixpoint simulation_loop (rounds : list Z) : M Sys unit :=
  match rounds with
  | [] => ret tt
  | r :: rest =>
      result <- run_round r ;;
      if converged result && (15 <? r)%Z then ret tt
      else simulation_loop rest
  end.

Definition run_simulation (n_rounds : Z) : M Sys (list FLRound) :=
  modify (fun s => mkSys (set_round_history [] (engine s)) (world s)) ;;;
  simulation_loop (range 1 (n_rounds + 1)) ;;;
  e <- self ;;
  ret (round_history e).

(** ** get_summary (lines 221-236) *)

(** A failure of Python code outside the exceptions of [exn]:
    [AttributeError] is what reading [accuracy] or [version_id] of an
    [FLRound] raises. *)
Inductive failure : Set :=
| Raised (e : exn)
| AttributeError.

Inductive outcome (A : Type) : Type :=
| Returns (a : A)
| Fails (f : failure).
Arguments Returns {A} a.
Arguments Fails {A} f.

(** The dict of [get_summary], one field for each key ([converged] and
    [n_hospitals] are the keys of [summary_converged] and
    [summary_n_hospitals]). *)
Record Summary : Type := mkSummary {
  final_accuracy : R;
  best_accuracy : R;
  best_round : Z;
  total_rounds : Z;
  summary_converged : bool;
  final_divergence : R;
  final_epsilon : efloat;
  summary_n_hospitals : Z;
  total_samples : Z
}.

(** [get_summary]: [None] is the empty dict.  The method changes nothing,
    so it is a function of the engine.  [best] is
    [self.registry.get_best() or final]: without a best version it is the
    last round, which has no [accuracy]. *)
Definition get_summary (e : FedAvgEngine) : outcome (option Summary) :=
  match last (round_history e) with
  | None => Returns None
  | Some final =>
      match fst (get_best (registry e)) with
      | Raise x => Fails (Raised x)
      | Ok None => Fails AttributeError
      | Ok (Some best) =>
          Returns (Some (mkSummary
            (global_accuracy final) (accuracy best) (version_id best)
            (Z.of_nat (length (round_history e))) (converged final)
            (weight_divergence final) (privacy_epsilon final)
            (n_hospitals e) (sumZ (map n_samples (hospitals e)))))
      end
  end.

(** ** The endpoint /simulation/fl (src/main.py, lines 312-335) *)

(** The body of the answer: [history] holds the round, accuracy and loss
    of each round, [nodes] the id, cloud, region, encryption flag and
    sample count of each node. *)
Record FLStatus : Type := mkFLStatus {
  success : bool;
  history : list (Z * R * R);
  nodes : list (string * string * string * bool * Z);
  metrics_final_epsilon : efloat;
  metrics_secure_aggregation : string
}.

(** What the handler does: it returns the body, or raises an
    [HTTPException] with a status code ([cause] is the exception caught,
    whose text the source puts in the detail). *)
Inductive handled (A : Type) : Type :=
| Body (a : A)
| HTTPException (status_code : Z) (cause : failure).
Arguments Body {A} a.
Arguments HTTPException {A} status_code cause.

Definition get_fl_status (rounds : Z) (w : World) : handled FLStatus * World :=
  match FedAvgEngine_init 5 true 0.15 0.01 8 w with
  | (Raise x, w1) => (HTTPException 500 (Raised x), w1)
  | (Ok e, w1) =>
      match run_simulation rounds (mkSys e w1) with
      | (Raise x, s2) => (HTTPException 500 (Raised x), world s2)
      | (Ok h, s2) =>
          match get_summary (engine s2) with
          | Fails f => (HTTPException 500 f, world s2)
          | Returns summary =>
              (Body (mkFLStatus true
                 (map (fun r => (round_num r, global_accuracy r, global_loss r)) h)
                 (map (fun n => (node_id n, cloud_provider n, region n,
                                 encryption_active n, n_samples n))
                      (hospitals (engine s2)))
                 (match summary with
                  | Some d => final_epsilon d
                  | None => fin 0.0
                  end)
                 "Active (Rollback Mechanism Engaged)"),
               world s2)
          end
      end
  end.

(** ** Definitions used by the statements *)

(** The registry never points at a version it does not hold. *)
Definition registry_ok (reg : ModelRegistry) : Prop :=
  best_version_id reg = (-1)%Z \/ is_Some (versions reg !! best_version_id reg).

(** A sequence of [save_version] calls, each with its arguments and the
    clock reading of its timestamp. *)
Fixpoint save_all (calls : list (Z * tensor * R * R)) : M ModelRegistry unit :=
  match calls with
  | [] => ret tt
  | (vid, w, acc, now) :: rest => save_version vid w acc now ;;; save_all rest
  end.

(** The sum of a list of tensors of [d] elements each, element by element. *)
Definition tensor_sum (d : nat) (ts : list tensor) : tensor :=
  foldr (zip_with Rplus) (replicate d 0) ts.

(** The aggregation rule as the specification words it:
    W' = sum over k of (n_k / N) W_k, with N the sum of the n_k. *)
Definition fedavg_rule (ws : list tensor) (ns : list Z) : tensor :=
  let N := foldr Z.add 0%Z ns in
  let d := match ws with w0 :: _ => length w0 | [] => O end in
  tensor_sum d (map (fun p => scale (IZR (snd p) / IZR N) (fst p)) (zip ws ns)).

(** The local weights that single out the node of index [k] among [m]
    nodes: the one-element tensor [1] for that node, [0] for the others.
    What the aggregation returns on them is the coefficient it applies to
    the tensor of node [k]. *)
Definition indicator (k m : nat) : list tensor :=
  map (fun j => [if Nat.eqb j k then 1 else 0]) (seq 0 m).

(** The coefficients the aggregation applies for the counts [ns], one per
    node: the number it returns on the indicator weights of that node. *)
Definition applied_coefficients (ns : list Z) (cs : list R) : Prop :=
  Forall2 (fun k c => _fedavg_aggregate (indicator k (length ns)) ns = Ok [c])
          (seq 0 (length ns)) cs.

(** A sample count that local training accepts: positive, and in the range
    of the 64-bit numbers of numpy. *)
Definition count_ok (n : Z) : Prop := (0 < n < 2 ^ 64)%Z.

(** What a round needs of the engine to return: a node, sample counts that
    local training accepts, no negative sigma under differential privacy,
    and a consistent registry. *)
Definition engine_ok (e : FedAvgEngine) : Prop :=
  hospitals e <> [] /\
  Forall (fun node => count_ok (n_samples node)) (hospitals e) /\
  (dp_enabled e = true -> 0 <= dp_sigma e) /\
  registry_ok (registry e).

(** The calls of [_add_dp_noise] that [k] nodes make. *)
Definition noise_calls (e : FedAvgEngine) (k : nat) : nat :=
  if dp_enabled e then k else O.

(** A small engine to run the statements on: one node, one layer, and a
    registry given from outside. *)
Definition example_world : World :=
  mkWorld (fun _ => 0) (fun _ => 0) (fun _ => 0%Z) 0 (fun _ => 0) 0 0.

Definition example_node : HospitalNode :=
  mkHospitalNode "Hospital-A" 200 0.70 0 "AWS" "us-east-1" true None 1 0.

Definition example_engine (dp : bool) (reg : ModelRegistry) : FedAvgEngine :=
  mkFedAvgEngine 1 dp 0.15 0.01 1 [example_node] (replicate 64 0) [] reg.

Definition example_version : ModelVersion :=
  mkModelVersion 1 (replicate 64 0) 0.70 0.

Definition example_registry : ModelRegistry :=
  mkModelRegistry (<[1%Z := example_version]> ∅) 1.

(** What construction promises of a node. *)
Definition node_built (L : Z) (node : HospitalNode) : Prop :=
  (150 <= n_samples node < 800)%Z /\
  exists t, weights node = Some t /\ length t = (Z.to_nat L * 64)%nat.

(** The best pointer is at a most accurate version: what a registry keeps
    as long as no id is saved twice. *)
Definition best_is_max (reg : ModelRegistry) : Prop :=
  registry_ok reg /\
  (best_version_id reg = (-1)%Z -> versions reg = ∅) /\
  versions reg !! (-1)%Z = None /\
  forall best, versions reg !! best_version_id reg = Some best ->
    forall k v, versions reg !! k = Some v -> accuracy v <= accuracy best.

(** The id of a [save_version] call of [save_all]. *)
Definition call_id (c : Z * tensor * R * R) : Z := fst (fst (fst c)).

(** A registry whose versions all have an accuracy of [0.50, 0.99] and
    weights of [d] elements. *)
Definition registry_sound (d : nat) (reg : ModelRegistry) : Prop :=
  registry_ok reg /\
  forall k v, versions reg !! k = Some v ->
    0.50 <= accuracy v <= 0.99 /\ length (version_weights v) = d.

(** The normal draws one node takes in a round: three epochs of local
    training, the noise when differential privacy is enabled, and the two
    draws of its accuracy. *)
Definition draws_per_node (e : FedAvgEngine) : nat :=
  3 * length (global_weights e) + noise_calls e (length (global_weights e)) + 2.

(** What construction makes of the node of index [i] besides its random
    parts: its cloud is [clouds[i % 3]], its region one of the regions of
    that cloud, its id [Hospital-] followed by the letter of code 65 + i;
    encryption is on, and the fields left at their defaults are at their
    defaults. *)
Definition node_labelled (i : nat) (node : HospitalNode) : Prop :=
  index clouds (i mod 3) = Ok (cloud_provider node) /\
  (exists rs, regions !! cloud_provider node = Some rs /\ region node ∈ rs) /\
  (exists letter, chr (65 + Z.of_nat i) = Ok letter /\
                  node_id node = ("Hospital-" +:+ letter)%string) /\
  encryption_active node = true /\
  noise_level node = 0 /\
  last_loss node = 1 /\
  rounds_participated node = 0%Z.

(** ** The monad: inversion of a successful sequence *)

Lemma bind_Ok {S A B : Type} (m : M S A) (k : A -> M S B) s b s' :
  bind m k s = (Ok b, s') ->
  exists a s1, m s = (Ok a, s1) /\ k a s1 = (Ok b, s').
Proof.
  unfold bind. destruct (m s) as [[a|e] s1]; intros H.
  - exists a, s1. split; [reflexivity | exact H].
  - discriminate H.
Qed.

Lemma bind_step {S A B : Type} (m : M S A) (k : A -> M S B) s a s1 :
  m s = (Ok a, s1) -> bind m k s = k a s1.
Proof. intros H. unfold bind. rewrite H. reflexivity. Qed.

Lemma bind_raise {S A B : Type} (m : M S A) (k : A -> M S B) s e s1 :
  m s = (Raise e, s1) -> bind m k s = (Raise e, s1).
Proof. intros H. unfold bind. rewrite H. reflexivity. Qed.

Lemma rbind_Ok {A B : Type} (r : result A) (k : A -> result B) b :
  rbind r k = Ok b -> exists a, r = Ok a /\ k a = Ok b.
Proof.
  destruct r as [a|e]; simpl; intros H; [eauto | discriminate H].
Qed.

Tactic Notation "inv_bind" hyp(H) "as" ident(a) ident(s) ident(H1) :=
  apply bind_Ok in H; destruct H as (a & s & H1 & H).

Tactic Notation "inv_rbind" hyp(H) "as" ident(a) ident(H1) :=
  apply rbind_Ok in H; destruct H as (a & H1 & H).

(** ** ModelRegistry *)

Lemma save_version_eq vid w acc now reg :
  save_version vid w acc now reg =
  let vs := <[vid := mkModelVersion vid w acc now]> (versions reg) in
  if (best_version_id reg =? -1)%Z then (Ok tt, mkModelRegistry vs vid)
  else match vs !! best_version_id reg with
       | Some best =>
           if Rgt_dec acc (accuracy best)
           then (Ok tt, mkModelRegistry vs vid)
           else (Ok tt, mkModelRegistry vs (best_version_id reg))
       | None => (Raise KeyError, mkModelRegistry vs (best_version_id reg))
       end.
Proof.
  unfold save_version, bind, modify, get, lift, subscript, ret; simpl.
  destruct (best_version_id reg =? -1)%Z; [reflexivity|].
  destruct (_ !! best_version_id reg) as [b|]; [|reflexivity].
  destruct (Rgt_dec acc (accuracy b)); reflexivity.
Qed.

Lemma get_best_eq reg :
  get_best reg =
  if (best_version_id reg =? -1)%Z then (Ok None, reg)
  else match versions reg !! best_version_id reg with
       | Some v => (Ok (Some v), reg)
       | None => (Raise KeyError, reg)
       end.
Proof.
  unfold get_best, bind, get, lift, subscript, ret; simpl.
  destruct (best_version_id reg =? -1)%Z; [reflexivity|].
  destruct (versions reg !! best_version_id reg); reflexivity.
Qed.

Lemma registry_ok_init : registry_ok ModelRegistry_init.
Proof. left. reflexivity. Qed.

(** On a consistent registry [get_best] returns, without changing it. *)
Lemma get_best_total reg :
  registry_ok reg -> exists prev, get_best reg = (Ok prev, reg).
Proof.
  intros Hok. rewrite get_best_eq.
  destruct (best_version_id reg =? -1)%Z eqn:E; [eauto|].
  destruct Hok as [Hm|[v Hv]].
  - apply Z.eqb_neq in E. contradiction.
  - rewrite Hv. eauto.
Qed.

(** On a consistent registry [save_version] returns; it stores the version,
    keeps the registry consistent and moves the best pointer by the rule. *)
Lemma save_version_total vid w acc now reg prev :
  registry_ok reg ->
  get_best reg = (Ok prev, reg) ->
  exists reg',
    save_version vid w acc now reg = (Ok tt, reg') /\
    registry_ok reg' /\
    versions reg' = <[vid := mkModelVersion vid w acc now]> (versions reg) /\
    best_version_id reg' =
      match prev with
      | None => vid
      | Some best =>
          if Rgt_dec acc (accuracy best) then vid else best_version_id reg
      end.
Proof.
  intros Hok Hbest. rewrite get_best_eq in Hbest. rewrite save_version_eq. simpl.
  assert (Hnew : registry_ok
            (mkModelRegistry (<[vid := mkModelVersion vid w acc now]> (versions reg)) vid)).
  { right. simpl. rewrite lookup_insert_eq. eauto. }
  destruct (best_version_id reg =? -1)%Z eqn:E.
  - inversion Hbest; subst prev.
    eexists. split; [reflexivity|]. split; [exact Hnew|]. split; reflexivity.
  - destruct (versions reg !! best_version_id reg) as [b|] eqn:Hb; [|discriminate].
    inversion Hbest; subst prev. clear Hbest.
    destruct (decide (vid = best_version_id reg)) as [->|Hne].
    + rewrite lookup_insert_eq. simpl.
      destruct (Rgt_dec acc acc) as [Habs|_]; [exfalso; lra|].
      eexists. split; [reflexivity|]. split; [exact Hnew|].
      split; [reflexivity|]. simpl.
      destruct (Rgt_dec acc (accuracy b)); reflexivity.
    + rewrite lookup_insert_ne by exact Hne. rewrite Hb.
      destruct (Rgt_dec acc (accuracy b)).
      * eexists. split; [reflexivity|]. split; [exact Hnew|]. split; reflexivity.
      * eexists. split; [reflexivity|]. split.
        { right. simpl. rewrite lookup_insert_ne by exact Hne. rewrite Hb. eauto. }
        split; reflexivity.
Qed.

Lemma save_all_total calls :
  forall reg, registry_ok reg ->
  exists reg', save_all calls reg = (Ok tt, reg') /\ registry_ok reg'.
Proof.
  induction calls as [|[[[vid w] acc] now] rest IH]; intros reg Hok.
  - exists reg. split; [reflexivity | exact Hok].
  - destruct (get_best_total reg Hok) as [prev Hprev].
    destruct (save_version_total vid w acc now reg prev Hok Hprev)
      as (reg1 & Hs & Hok1 & _).
    destruct (IH reg1 Hok1) as (reg' & Hr & Hok').
    exists reg'. split; [|exact Hok'].
    simpl. rewrite (bind_step _ _ _ _ _ Hs). exact Hr.
Qed.

(** Whenever [save_version] returns, the version is stored. *)
Lemma save_version_Ok vid w acc now reg u reg' :
  save_version vid w acc now reg = (Ok u, reg') ->
  versions reg' = <[vid := mkModelVersion vid w acc now]> (versions reg).
Proof.
  rewrite save_version_eq. cbv zeta.
  destruct (best_version_id reg =? -1)%Z.
  - intros H. inversion H. reflexivity.
  - destruct (_ !! best_version_id reg) as [b|]; [|discriminate].
    destruct (Rgt_dec acc (accuracy b)); intros H; inversion H; reflexivity.
Qed.

Lemma get_best_lookup reg b v :
  best_version_id reg = b -> b <> (-1)%Z -> versions reg !! b = Some v ->
  get_best reg = (Ok (Some v), reg).
Proof.
  intros Hb Hne Hv. rewrite get_best_eq, Hb, Hv.
  apply Z.eqb_neq in Hne. rewrite Hne. reflexivity.
Qed.

Lemma get_best_init : get_best ModelRegistry_init = (Ok None, ModelRegistry_init).
Proof. reflexivity. Qed.

Lemma get_latest_init : get_latest ModelRegistry_init = (Ok None, ModelRegistry_init).
Proof.
  unfold get_latest, bind, get, ret. simpl.
  destruct (decide (_ = _)) as [_|Hne]; [reflexivity | contradiction].
Qed.

(** C8. Registry best-pointer rule.  After any sequence of [save_version]
    calls on a new registry, one more call returns and leaves the best
    pointer at the new version when the registry reported no best version
    or the new accuracy is strictly greater than the accuracy of the best
    version, and where it was otherwise.  The first version saved is the
    best; after the accuracies 0.70 and 0.60 the best version is the first,
    a third version at 0.50 leaves the pointer there and a third version at
    0.80 takes it.  [get_best] and [get_latest] return [None] on an empty
    registry. *)
Theorem C8_best_pointer_rule :
  (forall calls vid w acc now,
     exists reg prev reg',
       save_all calls ModelRegistry_init = (Ok tt, reg) /\
       get_best reg = (Ok prev, reg) /\
       save_version vid w acc now reg = (Ok tt, reg') /\
       best_version_id reg' =
         match prev with
         | None => vid
         | Some best =>
             if Rgt_dec acc (accuracy best) then vid else best_version_id reg
         end) /\
  (forall vid w acc now,
     exists reg',
       save_version vid w acc now ModelRegistry_init = (Ok tt, reg') /\
       best_version_id reg' = vid) /\
  (forall w1 w2 w3 t1 t2 t3,
     exists reg2,
       save_all [(1%Z, w1, 0.70, t1); (2%Z, w2, 0.60, t2)] ModelRegistry_init
         = (Ok tt, reg2) /\
       get_best reg2 = (Ok (Some (mkModelVersion 1 w1 0.70 t1)), reg2) /\
       (exists reg3, save_version 3 w3 0.50 t3 reg2 = (Ok tt, reg3) /\
                     best_version_id reg3 = 1%Z) /\
       (exists reg3, save_version 3 w3 0.80 t3 reg2 = (Ok tt, reg3) /\
                     best_version_id reg3 = 3%Z)) /\
  get_best ModelRegistry_init = (Ok None, ModelRegistry_init) /\
  get_latest ModelRegistry_init = (Ok None, ModelRegistry_init).
Proof.
  split; [|split; [|split; [|split]]].
  - intros calls vid w acc now.
    destruct (save_all_total calls _ registry_ok_init) as (reg & Hall & Hok).
    destruct (get_best_total reg Hok) as [prev Hprev].
    destruct (save_version_total vid w acc now reg prev Hok Hprev)
      as (reg' & Hs & _ & _ & Hb).
    exists reg, prev, reg'. auto.
  - intros vid w acc now.
    destruct (save_version_total vid w acc now _ None registry_ok_init get_best_init)
      as (reg' & Hs & _ & _ & Hb).
    exists reg'. auto.
  - intros w1 w2 w3 t1 t2 t3.
    destruct (save_version_total 1 w1 0.70 t1 _ None registry_ok_init get_best_init)
      as (reg1 & Hs1 & Hok1 & Hv1 & Hb1).
    simpl in Hv1.
    assert (Hg1 : get_best reg1 = (Ok (Some (mkModelVersion 1 w1 0.70 t1)), reg1)).
    { apply (get_best_lookup reg1 1%Z); [exact Hb1 | lia |].
      rewrite Hv1. apply lookup_insert_eq. }
    destruct (save_version_total 2 w2 0.60 t2 reg1 _ Hok1 Hg1)
      as (reg2 & Hs2 & Hok2 & Hv2 & Hb2).
    simpl in Hb2. destruct (Rgt_dec 0.60 0.70) as [Habs|_]; [exfalso; lra|].
    rewrite Hb1 in Hb2.
    assert (Hg2 : get_best reg2 = (Ok (Some (mkModelVersion 1 w1 0.70 t1)), reg2)).
    { apply (get_best_lookup reg2 1%Z); [exact Hb2 | lia |].
      rewrite Hv2, Hv1. rewrite lookup_insert_ne by lia. apply lookup_insert_eq. }
    exists reg2. split; [|split; [exact Hg2|split]].
    + simpl. rewrite (bind_step _ _ _ _ _ Hs1). rewrite (bind_step _ _ _ _ _ Hs2).
      reflexivity.
    + destruct (save_version_total 3 w3 0.50 t3 reg2 _ Hok2 Hg2)
        as (reg3 & Hs3 & _ & _ & Hb3).
      simpl in Hb3. destruct (Rgt_dec 0.50 0.70) as [Habs|_]; [exfalso; lra|].
      exists reg3. split; [exact Hs3 | congruence].
    + destruct (save_version_total 3 w3 0.80 t3 reg2 _ Hok2 Hg2)
        as (reg3 & Hs3 & _ & _ & Hb3).
      simpl in Hb3. destruct (Rgt_dec 0.80 0.70) as [_|Habs]; [|exfalso; lra].
      exists reg3. split; [exact Hs3 | exact Hb3].
  - exact get_best_init.
  - exact get_latest_init.
Qed.

(** ** Tensors *)

Lemma zip_with_shape_total f a : forall b,
  length a = length b -> zip_with_shape f a b = Ok (zip_with f a b).
Proof.
  induction a as [|x a IH]; intros [|y b] Hlen; simpl in *; try discriminate.
  - reflexivity.
  - rewrite IH by lia. reflexivity.
Qed.

Lemma zip_with_shape_Ok f a : forall b t,
  zip_with_shape f a b = Ok t -> length a = length b /\ t = zip_with f a b.
Proof.
  induction a as [|x a IH]; intros [|y b] t H; simpl in *; try discriminate.
  - inversion H. auto.
  - apply rbind_Ok in H. destruct H as (t' & Ht' & H). inversion H; subst t.
    destruct (IH _ _ Ht') as [Hl ->]. auto.
Qed.

Lemma zip_with_Rplus_assoc (a : tensor) : forall b c : tensor,
  zip_with Rplus (zip_with Rplus a b) c = zip_with Rplus a (zip_with Rplus b c).
Proof.
  induction a as [|x a IH]; intros [|y b] [|z c]; simpl; try reflexivity.
  rewrite IH. f_equal. ring.
Qed.

Lemma zip_with_zeros (x : tensor) :
  zip_with Rplus (replicate (length x) 0) x = x.
Proof.
  induction x as [|y x IH]; simpl; [reflexivity|].
  rewrite IH. f_equal. ring.
Qed.

Lemma zeros_like_replicate (w : tensor) : zeros_like w = replicate (length w) 0.
Proof. induction w as [|x w IH]; simpl; [reflexivity | f_equal; exact IH]. Qed.

Lemma length_scale c (w : tensor) : length (scale c w) = length w.
Proof. unfold scale. apply length_map. Qed.

Lemma length_scale_r (w : tensor) c : length (scale_r w c) = length w.
Proof. unfold scale_r. apply length_map. Qed.

Lemma length_neg (w : tensor) : length (neg w) = length w.
Proof. unfold neg. apply length_map. Qed.

Lemma length_zip_with_same (f : R -> R -> R) (a b : tensor) :
  length a = length b -> length (zip_with f a b) = length a.
Proof. intros H. rewrite length_zip_with. lia. Qed.

Lemma length_tensor_sum d (ts : list tensor) :
  Forall (fun t => length t = d) ts -> length (tensor_sum d ts) = d.
Proof.
  induction 1 as [|t ts Ht _ IH]; simpl.
  - apply length_replicate.
  - rewrite length_zip_with. rewrite IH. lia.
Qed.

(** ** Sums *)

Lemma foldl_Zadd (l : list Z) : forall a, foldl Z.add a l = (a + foldr Z.add 0 l)%Z.
Proof.
  induction l as [|x l IH]; intros a; simpl; [lia|].
  rewrite IH. lia.
Qed.

Lemma sumZ_foldr (l : list Z) : sumZ l = foldr Z.add 0%Z l.
Proof. unfold sumZ. rewrite foldl_Zadd. lia. Qed.

Lemma foldl_Rplus_coefficients (D : R) (l : list Z) : forall a,
  foldl Rplus a (map (fun n => IZR n / D) l) = a + IZR (foldr Z.add 0%Z l) / D.
Proof.
  induction l as [|x l IH]; intros a; simpl.
  - unfold Rdiv. ring.
  - rewrite IH. rewrite plus_IZR. unfold Rdiv. ring.
Qed.

(** The quotients [n / N] of a list of counts whose sum [N] is not zero
    sum to one. *)
Lemma quotients_sum (ns : list Z) :
  sumZ ns <> 0%Z ->
  sumR (map (fun n => IZR n / IZR (sumZ ns)) ns) = 1.
Proof.
  intros HN. unfold sumR. rewrite foldl_Rplus_coefficients. rewrite <- sumZ_foldr.
  field. apply not_0_IZR. exact HN.
Qed.

(** ** Aggregation *)

Lemma aggregate_loop_total (N : Z) (d : nat) (pairs : list (tensor * Z)) :
  N <> 0%Z ->
  Forall (fun p => length (fst p) = d) pairs ->
  forall a, length a = d ->
  aggregate_loop N pairs a =
  Ok (zip_with Rplus a
        (tensor_sum d (map (fun p => scale (IZR (snd p) / IZR N) (fst p)) pairs))).
Proof.
  intros HN Hall. induction Hall as [|[w n] rest Hw _ IH]; intros a Ha; simpl in *.
  - f_equal. subst d. clear.
    induction a as [|x a IH]; simpl; [reflexivity|]. rewrite <- IH. f_equal. ring.
  - unfold int_truediv. pose proof HN as HN'. apply Z.eqb_neq in HN'. rewrite HN'. simpl.
    unfold tadd. rewrite zip_with_shape_total by (rewrite length_scale; lia). simpl.
    rewrite IH by (rewrite length_zip_with_same; rewrite ?length_scale; lia).
    rewrite zip_with_Rplus_assoc. reflexivity.
Qed.

Lemma Forall_zip_fst {A B : Type} (P : A -> Prop) (l : list A) :
  Forall P l -> forall k : list B, Forall (fun p => P (fst p)) (zip l k).
Proof.
  induction 1 as [|x l Hx _ IH]; intros [|y k]; simpl; constructor.
  - exact Hx.
  - apply IH.
Qed.

(** Non-empty weights of one shape and counts whose sum is not zero: the
    aggregation returns the sum over the zipped pairs. *)
Lemma fedavg_aggregate_total (w0 : tensor) (ws : list tensor) (ns : list Z) :
  Forall (fun w => length w = length w0) ws ->
  sumZ ns <> 0%Z ->
  _fedavg_aggregate (w0 :: ws) ns = Ok (fedavg_rule (w0 :: ws) ns).
Proof.
  intros Hshape HN.
  assert (Hall : Forall (fun w => length w = length w0) (w0 :: ws))
    by (constructor; [reflexivity | exact Hshape]).
  pose proof (Forall_zip_fst _ _ Hall ns) as Hz.
  unfold _fedavg_aggregate, fedavg_rule, index.
  change ((w0 :: ws) !! 0%nat) with (Some w0). cbv beta iota. unfold rbind at 1.
  rewrite (aggregate_loop_total (sumZ ns) (length w0) _ HN Hz)
    by (unfold zeros_like; apply length_map).
  rewrite zeros_like_replicate. rewrite <- sumZ_foldr. f_equal.
  set (t := tensor_sum _ _).
  assert (Ht : length t = length w0).
  { apply length_tensor_sum. apply Forall_map.
    eapply Forall_impl; [exact Hz|]. intros [w n] Hw. simpl in *.
    rewrite length_scale. exact Hw. }
  rewrite <- Ht. apply zip_with_zeros.
Qed.

Lemma fedavg_aggregate_empty (ns : list Z) : _fedavg_aggregate [] ns = Raise IndexError.
Proof. reflexivity. Qed.

Lemma fedavg_aggregate_no_counts (w0 : tensor) (ws : list tensor) :
  _fedavg_aggregate (w0 :: ws) [] = Ok (zeros_like w0).
Proof. reflexivity. Qed.

(** C3, as stated, fails: two weight tensors against one sample count are
    lists of mismatched length, and the aggregation returns a result (the
    first tensor, the only zipped pair having the coefficient 2/2). *)
Lemma C3_counterexample :
  length [[1]; [3]] <> length [2%Z] /\
  _fedavg_aggregate [[1]; [3]] [2%Z] = Ok [1].
Proof.
  split; [simpl; lia|].
  unfold _fedavg_aggregate, index, sumZ. simpl.
  unfold int_truediv. simpl. change (0 + 2)%Z with 2%Z. do 2 f_equal. field.
Qed.

(** C3 (amended).  An empty list of local weights makes the aggregation
    fail, with [IndexError].  Lists of mismatched length are not refused:
    the loop runs over the zipped pairs, so over the shorter list, with N
    the sum of all the sample counts given.  For tensors of one shape it
    returns the sum over the zipped pairs of (n_k / N) W_k when N is not
    zero, and fails with [ZeroDivisionError] when N is zero and there is a
    count; with no counts at all it returns the zero tensor.  For non-empty
    lists of equal length, of tensors of one shape and of counts whose sum
    is not zero, the result is the sample-count-weighted average of the
    rule W' = sum of (n_k / N) W_k. *)
Theorem C3_aggregate_empty_mismatched_equal :
  (forall ns, _fedavg_aggregate [] ns = Raise IndexError) /\
  (forall w0 ws ns,
     Forall (fun w => length w = length w0) ws ->
     length (w0 :: ws) <> length ns ->
     (sumZ ns <> 0%Z ->
      _fedavg_aggregate (w0 :: ws) ns
      = Ok (tensor_sum (length w0)
              (map (fun p => scale (IZR (snd p) / IZR (sumZ ns)) (fst p))
                   (zip (w0 :: ws) ns)))) /\
     (sumZ ns = 0%Z -> ns <> [] ->
      _fedavg_aggregate (w0 :: ws) ns = Raise ZeroDivisionError)) /\
  (forall w0 ws, _fedavg_aggregate (w0 :: ws) [] = Ok (zeros_like w0)) /\
  (forall w0 ws ns,
     Forall (fun w => length w = length w0) ws ->
     length (w0 :: ws) = length ns ->
     sumZ ns <> 0%Z ->
     _fedavg_aggregate (w0 :: ws) ns = Ok (fedavg_rule (w0 :: ws) ns)).
Proof.
  split; [exact fedavg_aggregate_empty|].
  split; [|split; [exact fedavg_aggregate_no_counts|]].
  - intros w0 ws ns Hshape _. split.
    + intros HN. rewrite fedavg_aggregate_total by assumption.
      unfold fedavg_rule. rewrite <- sumZ_foldr. reflexivity.
    + intros HN Hne. destruct ns as [|n0 ns]; [contradiction|].
      unfold _fedavg_aggregate, index. rewrite HN. reflexivity.
  - intros w0 ws ns Hshape _ HN. apply fedavg_aggregate_total; assumption.
Qed.

Lemma C3_aggregate_witness :
  _fedavg_aggregate [[1; 2]; [3; 4]] [1%Z; 3%Z]
  = Ok (fedavg_rule [[1; 2]; [3; 4]] [1%Z; 3%Z]).
Proof.
  apply (proj2 (proj2 (proj2 C3_aggregate_empty_mismatched_equal))).
  - repeat constructor.
  - reflexivity.
  - unfold sumZ. simpl. lia.
Defined.

(** ** The engine: how each step leaves the state *)

Lemma ret_Ok {S A : Type} (a b : A) (s s' : S) :
  ret a s = (Ok b, s') -> b = a /\ s' = s.
Proof. unfold ret. intros H. inversion H. auto. Qed.

Lemma lift_Ok {S A : Type} (r : result A) (a : A) (s s' : S) :
  lift r s = (Ok a, s') -> r = Ok a /\ s' = s.
Proof. unfold lift. intros H. inversion H. auto. Qed.

Lemma self_Ok e s s' : self s = (Ok e, s') -> e = engine s /\ s' = s.
Proof. unfold self. intros H. inversion H. auto. Qed.

Lemma in_world_Ok {A : Type} (m : M World A) a s s' :
  in_world m s = (Ok a, s') ->
  exists w', m (world s) = (Ok a, w') /\ s' = mkSys (engine s) w'.
Proof.
  unfold in_world, zoom. destruct (m (world s)) as [r w'] eqn:E.
  intros H. inversion H; subst. eauto.
Qed.

Lemma in_world_step {A : Type} (m : M World A) r s w' :
  m (world s) = (r, w') -> in_world m s = (r, mkSys (engine s) w').
Proof. intros H. unfold in_world, zoom. rewrite H. reflexivity. Qed.

Lemma in_registry_Ok {A : Type} (m : M ModelRegistry A) a s s' :
  in_registry m s = (Ok a, s') ->
  exists reg', m (registry (engine s)) = (Ok a, reg') /\
               s' = mkSys (set_registry reg' (engine s)) (world s).
Proof.
  unfold in_registry, zoom. destruct (m (registry (engine s))) as [r reg'] eqn:E.
  intros H. inversion H; subst. eauto.
Qed.

Lemma in_registry_step {A : Type} (m : M ModelRegistry A) r s reg' :
  m (registry (engine s)) = (r, reg') ->
  in_registry m s = (r, mkSys (set_registry reg' (engine s)) (world s)).
Proof. intros H. unfold in_registry, zoom. rewrite H. reflexivity. Qed.

Lemma randn_Ok n w t w' :
  randn n w = (Ok t, w') ->
  length t = n /\ w' = advance n w.
Proof.
  unfold randn. intros H. inversion H; subst.
  rewrite length_map, length_seq. auto.
Qed.

Lemma random_normal_Ok loc sc w x w' :
  random_normal loc sc w = (Ok x, w') -> w' = advance 1 w.
Proof.
  unfold random_normal. destruct (Rlt_dec sc 0); intros H; inversion H. reflexivity.
Qed.

Lemma random_normal_total loc sc w :
  0 <= sc -> exists x, random_normal loc sc w = (Ok x, advance 1 w).
Proof.
  intros Hsc. unfold random_normal. destruct (Rlt_dec sc 0); [exfalso; lra | eauto].
Qed.

Lemma random_normal_n_Ok loc sc negative n w t w' :
  random_normal_n loc sc negative n w = (Ok t, w') ->
  length t = n /\ w' = advance n w.
Proof.
  unfold random_normal_n. destruct (negative || float_lt sc 0);
    intros H; inversion H; subst.
  rewrite length_map, length_seq. auto.
Qed.

Lemma float_lt_true x y : x < y -> float_lt x y = true.
Proof. intros H. unfold float_lt. destruct (Rlt_dec x y); [reflexivity | contradiction]. Qed.

Lemma float_lt_false x y : y <= x -> float_lt x y = false.
Proof. intros H. unfold float_lt. destruct (Rlt_dec x y); [exfalso; lra | reflexivity]. Qed.

(** The scale [sigma * (2.0 / n)] of the noise has its sign bit clear when
    sigma is not negative and the count is positive. *)
Lemma scale_accepted (sigma : R) (n : Z) :
  (0 < n)%Z -> 0 <= sigma ->
  signbit_mul sigma (2.0 / IZR n) || float_lt (sigma * (2.0 / IZR n)) 0 = false.
Proof.
  intros Hn Hsigma. apply IZR_lt in Hn.
  assert (0 < 2.0 / IZR n) by (apply Rdiv_lt_0_compat; lra).
  unfold signbit_mul, signbit.
  rewrite !float_lt_false by nra. reflexivity.
Qed.

(** It has its sign bit set when sigma and the count have opposite signs,
    and when sigma is zero and the count negative. *)
Lemma scale_refused (sigma : R) (n : Z) :
  sigma * IZR n < 0 \/ (sigma = 0 /\ (n < 0)%Z) ->
  signbit_mul sigma (2.0 / IZR n) || float_lt (sigma * (2.0 / IZR n)) 0 = true.
Proof.
  intros H. unfold signbit_mul, signbit.
  assert (Hcases : (sigma < 0 /\ 0 < IZR n) \/ (0 <= sigma /\ IZR n < 0)).
  { destruct H as [H | [-> H]].
    - destruct (Rlt_dec sigma 0); [left | right]; split; nra.
    - apply IZR_lt in H. right. lra. }
  destruct Hcases as [[Hs Hn] | [Hs Hn]].
  - assert (0 < 2.0 / IZR n) by (apply Rdiv_lt_0_compat; lra).
    rewrite (float_lt_true sigma) by exact Hs.
    rewrite (float_lt_false (2.0 / IZR n)) by lra. reflexivity.
  - assert (2.0 / IZR n < 0).
    { unfold Rdiv. assert (/ IZR n < 0) by (apply Rinv_lt_0_compat; exact Hn). nra. }
    rewrite (float_lt_false sigma) by exact Hs.
    rewrite (float_lt_true (2.0 / IZR n)) by assumption. reflexivity.
Qed.

Lemma dp_noise_calls_advance n w : dp_noise_calls (advance n w) = dp_noise_calls w.
Proof. reflexivity. Qed.

(** *** Local training *)

Lemma local_epoch_Ok node w s w' s' :
  local_epoch node w s = (Ok w', s') ->
  engine s' = engine s /\
  dp_noise_calls (world s') = dp_noise_calls (world s) /\
  length w' = length w.
Proof.
  unfold local_epoch. intros H.
  inv_bind H as e s1 He. apply self_Ok in He as [-> ->].
  inv_bind H as z s1 Hz. apply in_world_Ok in Hz as (w1 & Hz & ->).
  apply randn_Ok in Hz as [Hz ->].
  inv_bind H as root s1 Hroot. apply lift_Ok in Hroot as [Hroot ->].
  destruct (Req_dec_T root 0); [discriminate H|].
  inv_bind H as g s1 Hg. apply lift_Ok in Hg as [Hg ->]. apply lift_Ok in H as [Hs ->].
  apply zip_with_shape_Ok in Hg as [Hgl ->]. apply zip_with_shape_Ok in Hs as [Hsl ->].
  simpl. repeat split. rewrite length_zip_with. rewrite <- Hsl. lia.
Qed.

Lemma sqrt_IZR_pos (n : Z) : (0 < n)%Z -> ~ IZR n < 0 /\ sqrt (IZR n) <> 0.
Proof.
  intros Hn. apply IZR_lt in Hn. split; [lra|].
  intros H0. pose proof (sqrt_lt_R0 _ Hn). lra.
Qed.

(** The square root of a count that local training accepts. *)
Lemma np_sqrt_int_count (n : Z) :
  count_ok n -> np_sqrt_int n = Ok (sqrt (IZR n)) /\ sqrt (IZR n) <> 0.
Proof.
  intros [Hlo Hhi]. destruct (sqrt_IZR_pos _ Hlo) as [Hneg Hroot].
  unfold np_sqrt_int.
  replace (n <? - 2 ^ 63)%Z with false by (symmetry; apply Z.ltb_ge; lia).
  replace (2 ^ 64 <=? n)%Z with false by (symmetry; apply Z.leb_gt; exact Hhi).
  unfold np_sqrt. cbn [orb].
  destruct (Rlt_dec (IZR n) 0); [contradiction|]. auto.
Qed.

(** A count of 2^64 or more is refused. *)
Lemma np_sqrt_int_large (n : Z) : (2 ^ 64 <= n)%Z -> np_sqrt_int n = Raise TypeError.
Proof.
  intros Hn. unfold np_sqrt_int.
  replace (2 ^ 64 <=? n)%Z with true by (symmetry; apply Z.leb_le; exact Hn).
  rewrite orb_true_r. reflexivity.
Qed.

Lemma local_epoch_total node w s :
  count_ok (n_samples node) ->
  exists w' s', local_epoch node w s = (Ok w', s').
Proof.
  intros Hn. destruct (np_sqrt_int_count _ Hn) as [Hsqrt Hroot].
  unfold local_epoch, bind, self, in_world, zoom, randn, lift. rewrite Hsqrt. simpl.
  destruct (Req_dec_T (sqrt (IZR (n_samples node))) 0); [contradiction|].
  unfold tadd, tsub.
  rewrite zip_with_shape_total
    by (rewrite !length_scale_r, length_neg, length_map, length_seq; reflexivity).
  rewrite zip_with_shape_total
    by (rewrite length_scale, length_zip_with, !length_scale_r, length_neg,
          length_map, length_seq; lia).
  eauto.
Qed.

Lemma local_epochs_loop_Ok n node : forall w s w' s',
  local_epochs_loop n node w s = (Ok w', s') ->
  engine s' = engine s /\
  dp_noise_calls (world s') = dp_noise_calls (world s) /\
  length w' = length w.
Proof.
  induction n as [|n IH]; intros w s w' s' H; simpl in H.
  - apply ret_Ok in H as [-> ->]. auto.
  - inv_bind H as w1 s1 H1. apply local_epoch_Ok in H1 as (He & Hc & Hl).
    apply IH in H as (He' & Hc' & Hl'). repeat split; congruence.
Qed.

Lemma local_epochs_loop_total n node :
  count_ok (n_samples node) ->
  forall w s, exists w' s', local_epochs_loop n node w s = (Ok w', s').
Proof.
  intros Hn. induction n as [|n IH]; intros w s; simpl.
  - unfold ret. eauto.
  - destruct (local_epoch_total node w s Hn) as (w1 & s1 & H1).
    rewrite (bind_step _ _ _ _ _ H1). apply IH.
Qed.

Lemma _simulate_local_training_Ok node g n s w' s' :
  _simulate_local_training node g n s = (Ok w', s') ->
  engine s' = engine s /\
  dp_noise_calls (world s') = dp_noise_calls (world s) /\
  length w' = length g.
Proof. apply local_epochs_loop_Ok. Qed.

Lemma _simulate_local_training_total node g n s :
  count_ok (n_samples node) ->
  exists w' s', _simulate_local_training node g n s = (Ok w', s').
Proof. intros Hn. apply local_epochs_loop_total. exact Hn. Qed.

(** *** Noise *)

Lemma _add_dp_noise_Ok w n s w' s' :
  _add_dp_noise w n s = (Ok w', s') ->
  engine s' = engine s /\
  dp_noise_calls (world s') = S (dp_noise_calls (world s)) /\
  length w' = length w.
Proof.
  unfold _add_dp_noise. intros H.
  inv_bind H as u s1 Hu. apply in_world_Ok in Hu as (w1 & Hu & ->).
  unfold count_dp_noise_call, modify in Hu. inversion Hu; subst w1; clear Hu.
  inv_bind H as e s1 He. apply self_Ok in He as [-> ->].
  inv_bind H as sens s1 Hsens. apply lift_Ok in Hsens as [Hsens ->].
  inv_bind H as noise s1 Hnoise. apply in_world_Ok in Hnoise as (w1 & Hnoise & ->).
  apply random_normal_n_Ok in Hnoise as [Hlen ->].
  apply lift_Ok in H as [Hadd ->].
  apply zip_with_shape_Ok in Hadd as [Hl ->].
  simpl. repeat split. rewrite length_zip_with. lia.
Qed.

Lemma _add_dp_noise_total w n s :
  (0 < n)%Z -> 0 <= dp_sigma (engine s) ->
  exists w' s', _add_dp_noise w n s = (Ok w', s').
Proof.
  intros Hn Hsigma. pose proof (scale_accepted _ _ Hn Hsigma) as Hscale.
  apply IZR_lt in Hn.
  unfold _add_dp_noise, bind, in_world, zoom, count_dp_noise_call, modify, self,
    lift, float_truediv, random_normal_n. simpl.
  destruct (Req_dec_T (IZR n) 0); [exfalso; lra|].
  rewrite Hscale.
  unfold tadd. rewrite zip_with_shape_total by (rewrite length_map, length_seq; reflexivity).
  eauto.
Qed.

(** Under differential privacy a negative sigma stops the noise step. *)
Lemma _add_dp_noise_negative_sigma w n s :
  (0 < n)%Z -> dp_sigma (engine s) < 0 ->
  exists s', _add_dp_noise w n s = (Raise ValueError, s') /\ engine s' = engine s.
Proof.
  intros Hn Hsigma. apply IZR_lt in Hn.
  assert (Hscale : signbit_mul (dp_sigma (engine s)) (2.0 / IZR n)
                   || float_lt (dp_sigma (engine s) * (2.0 / IZR n)) 0 = true)
    by (apply scale_refused; left; nra).
  unfold _add_dp_noise, bind, in_world, zoom, count_dp_noise_call, modify, self,
    lift, float_truediv, random_normal_n. simpl.
  destruct (Req_dec_T (IZR n) 0); [exfalso; lra|].
  rewrite Hscale. eauto.
Qed.

(** *** Accuracy *)

Lemma np_clip_bounds x lo hi : lo <= hi -> lo <= np_clip x lo hi <= hi.
Proof.
  intros H. unfold np_clip, Rmin, Rmax.
  destruct (Rle_dec x lo); destruct (Rle_dec _ hi); lra.
Qed.

Lemma _compute_accuracy_run w r target wd :
  exists a, _compute_accuracy w r target wd = (Ok a, advance 1 wd) /\
            0.50 <= a <= 0.99.
Proof.
  unfold _compute_accuracy, bind, random_normal, ret.
  destruct (Rlt_dec 0.008 0); [exfalso; lra|].
  eexists. split; [reflexivity|]. apply np_clip_bounds. lra.
Qed.

(** *** The loop over the nodes *)

Lemma train_node_Ok r u node s u' s' :
  train_node r u node s = (Ok u', s') ->
  engine s' = engine s /\
  dp_noise_calls (world s') = (noise_calls (engine s) 1 + dp_noise_calls (world s))%nat /\
  sample_counts u' = sample_counts u ++ [n_samples node] /\
  exists w, local_weights u' = local_weights u ++ [w] /\
            length w = length (global_weights (engine s)).
Proof.
  unfold train_node. intros H.
  inv_bind H as e s1 He. apply self_Ok in He as [-> ->].
  inv_bind H as w1 s1 Hw1.
  apply _simulate_local_training_Ok in Hw1 as (He1 & Hc1 & Hl1).
  inv_bind H as w2 s2 Hw2.
  assert (Hstep : engine s2 = engine s /\
                  dp_noise_calls (world s2)
                  = (noise_calls (engine s) 1 + dp_noise_calls (world s))%nat /\
                  length w2 = length (global_weights (engine s))).
  { unfold noise_calls. destruct (dp_enabled (engine s)).
    - apply _add_dp_noise_Ok in Hw2 as (He2 & Hc2 & Hl2).
      repeat split; [congruence | simpl; congruence | congruence].
    - apply ret_Ok in Hw2 as [-> ->]. repeat split; [congruence | simpl; congruence | congruence]. }
  destruct Hstep as (He2 & Hc2 & Hl2).
  inv_bind H as a s3 Ha. apply in_world_Ok in Ha as (wd3 & Ha & ->).
  destruct (_compute_accuracy_run w2 r 0.86 (world s2)) as (a' & Ha' & _).
  rewrite Ha' in Ha. inversion Ha; subst a' wd3; clear Ha.
  inv_bind H as z s4 Hz. apply in_world_Ok in Hz as (wd4 & Hz & ->).
  apply random_normal_Ok in Hz as ->.
  apply ret_Ok in H as [-> ->]. simpl.
  repeat split; [exact He2 | exact Hc2 | eauto].
Qed.

Lemma train_node_total r u node s :
  count_ok (n_samples node) ->
  (dp_enabled (engine s) = true -> 0 <= dp_sigma (engine s)) ->
  exists u' s', train_node r u node s = (Ok u', s').
Proof.
  intros Hn Hsigma. unfold train_node.
  rewrite (bind_step self _ s (engine s) s) by reflexivity.
  destruct (_simulate_local_training_total node (global_weights (engine s)) 3 s Hn)
    as (w1 & s1 & H1).
  rewrite (bind_step _ _ _ _ _ H1).
  apply _simulate_local_training_Ok in H1 as (He1 & _ & _).
  assert (H2 : exists w2 s2,
             (if dp_enabled (engine s) then _add_dp_noise w1 (n_samples node)
              else ret w1) s1 = (Ok w2, s2)).
  { destruct (dp_enabled (engine s)) eqn:Hdp.
    - apply _add_dp_noise_total; [apply Hn|]. rewrite He1. apply Hsigma. reflexivity.
    - unfold ret. eauto. }
  destruct H2 as (w2 & s2 & H2). rewrite (bind_step _ _ _ _ _ H2).
  destruct (_compute_accuracy_run w2 r 0.86 (world s2)) as (a & Ha & _).
  rewrite (bind_step _ _ _ _ _ (in_world_step _ _ _ _ Ha)).
  destruct (random_normal_total 0 0.01 (world (mkSys (engine s2) (advance 1 (world s2)))))
    as (z & Hz); [lra|].
  rewrite (bind_step _ _ _ _ _ (in_world_step _ _ _ _ Hz)).
  unfold ret. eauto.
Qed.

Lemma train_nodes_Ok r nodes : forall u s u' s',
  train_nodes r u nodes s = (Ok u', s') ->
  engine s' = engine s /\
  dp_noise_calls (world s')
  = (noise_calls (engine s) (length nodes) + dp_noise_calls (world s))%nat /\
  sample_counts u' = sample_counts u ++ map n_samples nodes /\
  exists ws, local_weights u' = local_weights u ++ ws /\
             length ws = length nodes /\
             Forall (fun w => length w = length (global_weights (engine s))) ws.
Proof.
  induction nodes as [|node rest IH]; intros u s u' s' H; simpl in H.
  - apply ret_Ok in H as [-> ->]. unfold noise_calls.
    repeat split; [destruct (dp_enabled _); reflexivity | symmetry; apply app_nil_r |].
    exists []. rewrite app_nil_r. auto.
  - inv_bind H as u1 s1 H1.
    apply train_node_Ok in H1 as (He1 & Hc1 & Hs1 & w & Hw & Hlw).
    apply IH in H as (He & Hc & Hs & ws & Hws & Hlen & Hall).
    rewrite He1 in *. repeat split.
    + exact He.
    + rewrite Hc, Hc1. unfold noise_calls. destruct (dp_enabled (engine s)); simpl; lia.
    + rewrite Hs, Hs1. rewrite <- app_assoc. reflexivity.
    + exists (w :: ws). rewrite Hws, Hw. rewrite <- app_assoc. simpl.
      repeat split; [lia | constructor; assumption].
Qed.

Lemma train_nodes_total r nodes :
  Forall (fun node => count_ok (n_samples node)) nodes ->
  forall u s,
  (dp_enabled (engine s) = true -> 0 <= dp_sigma (engine s)) ->
  exists u' s', train_nodes r u nodes s = (Ok u', s').
Proof.
  induction 1 as [|node rest Hn _ IH]; intros u s Hsigma; simpl.
  - unfold ret. eauto.
  - destruct (train_node_total r u node s Hn Hsigma) as (u1 & s1 & H1).
    rewrite (bind_step _ _ _ _ _ H1).
    apply train_node_Ok in H1 as (He1 & _). apply IH. rewrite He1. exact Hsigma.
Qed.

(** *** The candidate of a round *)

Lemma fedavg_aggregate_Ok_nonzero ws ns t :
  _fedavg_aggregate ws ns = Ok t -> length ws = length ns ->
  ws <> [] /\ sumZ ns <> 0%Z.
Proof.
  intros H Hlen. destruct ws as [|w0 ws]; [discriminate H|].
  destruct ns as [|n0 ns]; [discriminate Hlen|].
  split; [discriminate|].
  unfold _fedavg_aggregate, index in H. simpl in H.
  inv_rbind H as c Hc. unfold int_truediv in Hc.
  destruct (sumZ (n0 :: ns) =? 0)%Z eqn:E; [discriminate Hc|].
  apply Z.eqb_neq in E. exact E.
Qed.

Lemma length_fedavg_rule w0 ws ns :
  Forall (fun w => length w = length w0) ws ->
  length (fedavg_rule (w0 :: ws) ns) = length w0.
Proof.
  intros Hshape. unfold fedavg_rule. apply length_tensor_sum. apply Forall_map.
  assert (Hall : Forall (fun w => length w = length w0) (w0 :: ws))
    by (constructor; [reflexivity | exact Hshape]).
  eapply Forall_impl; [exact (Forall_zip_fst _ _ Hall ns)|].
  intros [w n] Hw. simpl in *. rewrite length_scale. exact Hw.
Qed.

Lemma rmap_total {A B : Type} (f : A -> result B) (l : list A) :
  Forall (fun x => exists y, f x = Ok y) l ->
  exists ys, rmap f l = Ok ys /\ length ys = length l.
Proof.
  induction 1 as [|x l [y Hy] _ (ys & Hys & Hlen)]; simpl.
  - exists []. auto.
  - rewrite Hy, Hys. simpl. exists (y :: ys). simpl. auto.
Qed.

Lemma sumZ_positive (l : list Z) :
  l <> [] -> Forall (fun n => (0 < n)%Z) l -> (0 < sumZ l)%Z.
Proof.
  intros Hne Hall. rewrite sumZ_foldr.
  destruct Hall as [|x l Hx Hl]; [contradiction|]. simpl.
  assert (0 <= foldr Z.add 0 l)%Z; [|lia].
  clear -Hl. induction Hl as [|y l Hy _ IH]; simpl; lia.
Qed.

Lemma run_round_candidate_Ok r s c s' :
  run_round_candidate r s = (Ok c, s') ->
  engine s' = engine s /\
  dp_noise_calls (world s')
  = (noise_calls (engine s) (length (hospitals (engine s)))
     + dp_noise_calls (world s))%nat /\
  sample_counts (cand_updates c) = map n_samples (hospitals (engine s)) /\
  length (local_weights (cand_updates c)) = length (hospitals (engine s)) /\
  _fedavg_aggregate (local_weights (cand_updates c)) (sample_counts (cand_updates c))
  = Ok (cand_global c) /\
  0.50 <= cand_acc c <= 0.99.
Proof.
  unfold run_round_candidate. intros H.
  inv_bind H as e s1 He. apply self_Ok in He as [-> ->].
  inv_bind H as u s1 Hu.
  apply train_nodes_Ok in Hu as (He & Hc & Hs & ws & Hws & Hlen & _).
  simpl in Hs, Hws.
  inv_bind H as g s2 Hg. apply lift_Ok in Hg as [Hg ->].
  inv_bind H as norms s2 Hn. apply lift_Ok in Hn as [_ ->].
  inv_bind H as d s2 Hd. apply lift_Ok in Hd as [_ ->].
  inv_bind H as a s2 Ha. apply in_world_Ok in Ha as (wd & Ha & ->).
  destruct (_compute_accuracy_run g r 0.86 (world s1)) as (a' & Ha' & Hb).
  rewrite Ha' in Ha. inversion Ha; subst a' wd; clear Ha.
  apply ret_Ok in H as [-> ->]. simpl.
  repeat split; try assumption; try tauto.
  rewrite Hws. exact Hlen.
Qed.

Lemma run_round_candidate_total r s :
  engine_ok (engine s) ->
  exists c s', run_round_candidate r s = (Ok c, s').
Proof.
  intros (Hne & Hpos & Hsigma & _). unfold run_round_candidate.
  rewrite (bind_step self _ s (engine s) s) by reflexivity.
  destruct (train_nodes_total r _ Hpos (mkUpdates [] [] ∅) s Hsigma) as (u & s1 & Hu).
  rewrite (bind_step _ _ _ _ _ Hu).
  apply train_nodes_Ok in Hu as (He & _ & Hs & ws & Hws & Hlen & Hall).
  simpl in Hs, Hws.
  destruct ws as [|w0 ws].
  { destruct (hospitals (engine s)); [contradiction | discriminate Hlen]. }
  apply Forall_cons in Hall as [Hw0 Hall].
  assert (Hshape : Forall (fun w => length w = length w0) ws).
  { eapply Forall_impl; [exact Hall|]. intros w Hw. simpl in Hw. congruence. }
  assert (HN : sumZ (sample_counts u) <> 0%Z).
  { rewrite Hs. assert (0 < sumZ (map n_samples (hospitals (engine s))))%Z; [|lia].
    apply sumZ_positive.
    - destruct (hospitals (engine s)); [contradiction | discriminate].
    - apply Forall_map. eapply Forall_impl; [exact Hpos|]. intros node Hc. apply Hc. }
  pose proof (fedavg_aggregate_total w0 ws (sample_counts u) Hshape HN) as Hagg.
  rewrite Hws. rewrite (bind_step (lift _) _ s1 _ s1) by (unfold lift; rewrite Hagg; reflexivity).
  set (g := fedavg_rule (w0 :: ws) (sample_counts u)).
  assert (Hg : length g = length w0) by (apply length_fedavg_rule; exact Hshape).
  destruct (rmap_total (fun w => rbind (tsub w g) (fun d => Ok (linalg_norm d))) (w0 :: ws))
    as (norms & Hnorms & Hnlen).
  { constructor.
    - unfold tsub. rewrite zip_with_shape_total by lia. simpl. eauto.
    - eapply Forall_impl; [exact Hshape|]. intros w Hw. simpl in Hw.
      unfold tsub. rewrite zip_with_shape_total by lia. simpl. eauto. }
  rewrite (bind_step (lift _) _ s1 _ s1) by (unfold lift; rewrite Hnorms; reflexivity).
  destruct norms as [|x norms]; [discriminate Hnlen|].
  rewrite (bind_step (lift _) _ s1 _ s1) by reflexivity.
  destruct (_compute_accuracy_run g r 0.86 (world s1)) as (a & Ha & _).
  rewrite (bind_step _ _ _ _ _ (in_world_step _ _ _ _ Ha)).
  unfold ret. eauto.
Qed.

(** *** Epsilon *)

Lemma ln_ratio_default : 0 < 1.25 / 1e-5 /\ 0 < ln (1.25 / 1e-5).
Proof.
  assert (H : 1 < 1.25 / 1e-5) by lra.
  split; [lra|]. rewrite <- ln_1. apply ln_increasing; lra.
Qed.

(** With the default delta [_compute_epsilon] returns, whatever sigma is. *)
Lemma _compute_epsilon_default sigma n :
  _compute_epsilon sigma n 1e-5 =
  Ok (if Req_dec_T sigma 0 then pinf
      else fin (sqrt (2 * ln (1.25 / 1e-5)) / sigma)).
Proof.
  destruct ln_ratio_default as [Hq Hln].
  unfold _compute_epsilon, float_truediv, np_log, np_sqrt.
  destruct (Req_dec_T sigma 0); [reflexivity|].
  destruct (Req_dec_T 1e-5 0); [exfalso; lra|]. simpl.
  destruct (Rle_dec (1.25 / 1e-5) 0); [exfalso; lra|]. simpl.
  destruct (Rlt_dec (2 * ln (1.25 / 1e-5)) 0); [exfalso; lra|]. reflexivity.
Qed.

(** *** Rollback check, registration and record *)

Lemma get_best_Ok reg prev reg' : get_best reg = (Ok prev, reg') -> reg' = reg.
Proof.
  rewrite get_best_eq. destruct (best_version_id reg =? -1)%Z.
  - intros H. inversion H. reflexivity.
  - destruct (versions reg !! best_version_id reg); intros H; inversion H. reflexivity.
Qed.

Lemma set_registry_same e : set_registry (registry e) e = e.
Proof. destruct e. reflexivity. Qed.

Lemma run_round_commit_Ok r c s res s' :
  run_round_commit r c s = (Ok res, s') ->
  exists prev g a rb now reg' eps,
    get_best (registry (engine s)) = (Ok prev, registry (engine s)) /\
    rollback_check prev c = (g, a, rb) /\
    save_version r g a now (registry (engine s)) = (Ok tt, reg') /\
    (if dp_enabled (engine s)
     then rbind (py_min (sample_counts (cand_updates c)))
                (fun m => _compute_epsilon (dp_sigma (engine s)) m 1e-5) = Ok eps
     else eps = fin 0.0) /\
    res = mkFLRound r a (1.0 - a) (node_accs (cand_updates c)) (cand_divergence c) eps
            (if negb rb then status_normal else status_rollback_applied)
            (float_lt (cand_divergence c) 0.01 && (10 <=? r)%Z) /\
    engine s' = set_round_history (round_history (engine s) ++ [res])
                  (set_global_weights g (set_registry reg' (engine s))) /\
    dp_noise_calls (world s') = dp_noise_calls (world s).
Proof.
  unfold run_round_commit. intros H.
  inv_bind H as prev s1 Hprev. apply in_registry_Ok in Hprev as (reg1 & Hprev & ->).
  pose proof (get_best_Ok _ _ _ Hprev) as ->. rewrite set_registry_same in H.
  destruct (rollback_check prev c) as [[g a] rb] eqn:Hrb.
  inv_bind H as now s1 Hnow. apply in_world_Ok in Hnow as (wd1 & Hnow & ->).
  unfold time_time in Hnow. inversion Hnow; subst now wd1; clear Hnow.
  inv_bind H as u s1 Hsave. apply in_registry_Ok in Hsave as (reg' & Hsave & ->).
  simpl in Hsave. destruct u.
  inv_bind H as e s1 He. apply self_Ok in He as [-> ->]. simpl in H.
  inv_bind H as eps s1 Heps.
  assert (Heps' : (if dp_enabled (engine s)
                   then rbind (py_min (sample_counts (cand_updates c)))
                          (fun m => _compute_epsilon (dp_sigma (engine s)) m 1e-5) = Ok eps
                   else eps = fin 0.0) /\
                  s1 = mkSys (set_registry reg' (engine s))
                         (mkWorld (normals (world s)) (uniforms (world s))
                            (integers (world s)) (cursor (world s)) (clock (world s))
                            (S (ticks (world s))) (dp_noise_calls (world s)))).
  { destruct (dp_enabled (engine s)).
    - apply lift_Ok in Heps as [Heps ->]. split; [exact Heps | reflexivity].
    - apply ret_Ok in Heps as [-> ->]. split; reflexivity. }
  destruct Heps' as [Heps' ->]. clear Heps.
  unfold bind, modify, ret in H. simpl in H. inversion H; subst; clear H.
  exists prev, g, a, rb, (clock (world s) (ticks (world s))), reg', eps.
  repeat split; try assumption.
Qed.

Lemma run_round_commit_total r c s :
  registry_ok (registry (engine s)) ->
  sample_counts (cand_updates c) <> [] ->
  exists res s', run_round_commit r c s = (Ok res, s').
Proof.
  intros Hok Hcounts. unfold run_round_commit.
  destruct (get_best_total _ Hok) as [prev Hprev].
  rewrite (bind_step _ _ _ _ _ (in_registry_step _ _ _ _ Hprev)).
  rewrite set_registry_same.
  destruct (rollback_check prev c) as [[g a] rb]. cbv beta iota.
  erewrite bind_step by (apply in_world_step; reflexivity).
  destruct (save_version_total r g a (clock (world s) (ticks (world s))) _ prev Hok Hprev)
    as (reg' & Hsave & _).
  erewrite bind_step by (apply in_registry_step; simpl; exact Hsave).
  erewrite bind_step by reflexivity. simpl.
  destruct (dp_enabled (engine s)).
  - destruct (sample_counts (cand_updates c)) as [|n ns]; [contradiction|].
    unfold py_min. simpl. rewrite _compute_epsilon_default.
    erewrite bind_step by reflexivity.
    unfold bind, modify, ret. simpl. eauto.
  - erewrite bind_step by reflexivity.
    unfold bind, modify, ret. simpl. eauto.
Qed.

(** *** A whole round *)

Lemma run_round_Ok r s res s' :
  run_round r s = (Ok res, s') ->
  exists c s1,
    run_round_candidate r s = (Ok c, s1) /\ run_round_commit r c s1 = (Ok res, s').
Proof. unfold run_round. apply bind_Ok. Qed.

Lemma engine_ok_set_round_history h e : engine_ok e -> engine_ok (set_round_history h e).
Proof. intros H. exact H. Qed.

(** A round on a well-formed engine returns, and leaves it well-formed. *)
Lemma run_round_total r s :
  engine_ok (engine s) ->
  exists res s', run_round r s = (Ok res, s') /\ engine_ok (engine s').
Proof.
  intros Hok.
  destruct (run_round_candidate_total r s Hok) as (c & s1 & Hc).
  pose proof (run_round_candidate_Ok _ _ _ _ Hc) as (He1 & _ & Hcounts & _).
  destruct Hok as (Hne & Hpos & Hsigma & Hreg).
  destruct (run_round_commit_total r c s1) as (res & s' & Hcommit).
  { rewrite He1. exact Hreg. }
  { rewrite Hcounts. destruct (hospitals (engine s)); [contradiction | discriminate]. }
  exists res, s'. split.
  - unfold run_round. rewrite (bind_step _ _ _ _ _ Hc). exact Hcommit.
  - apply run_round_commit_Ok in Hcommit
      as (prev & g & a & rb & now & reg' & eps & Hprev & _ & Hsave & _ & _ & He' & _).
    rewrite He1 in *.
    destruct (save_version_total r g a now _ prev Hreg Hprev) as (reg2 & Hsave2 & Hok2 & _).
    rewrite Hsave in Hsave2. inversion Hsave2; subst reg2.
    rewrite He'. repeat split; assumption.
Qed.

(** What a round that returned has recorded. *)
Lemma run_round_record r s res s' :
  run_round r s = (Ok res, s') ->
  round_num res = r /\
  round_history (engine s') = round_history (engine s) ++ [res] /\
  hospitals (engine s') = hospitals (engine s) /\
  dp_enabled (engine s') = dp_enabled (engine s) /\
  dp_sigma (engine s') = dp_sigma (engine s) /\
  global_loss res = 1.0 - global_accuracy res /\
  (converged res = true <-> weight_divergence res < 0.01 /\ (10 <= round_num res)%Z).
Proof.
  intros H. apply run_round_Ok in H as (c & s1 & Hc & Hcommit).
  apply run_round_candidate_Ok in Hc as (He1 & _).
  apply run_round_commit_Ok in Hcommit
    as (prev & g & a & rb & now & reg' & eps & _ & _ & _ & _ & Hres & He' & _).
  rewrite He1 in *. rewrite He'. subst res. simpl.
  repeat split; try reflexivity.
  - unfold float_lt in H. destruct (Rlt_dec (cand_divergence c) 0.01); [assumption|].
    discriminate H.
  - apply andb_true_iff in H as [_ H]. apply Z.leb_le in H. exact H.
  - intros [Hd Hr]. unfold float_lt.
    destruct (Rlt_dec (cand_divergence c) 0.01); [|contradiction].
    apply Z.leb_le in Hr. rewrite Hr. reflexivity.
Qed.

(** ** The example engine *)

Lemma example_registry_ok : registry_ok example_registry.
Proof. right. simpl. rewrite lookup_insert_eq. eauto. Qed.

Lemma example_registry_best :
  get_best example_registry = (Ok (Some example_version), example_registry).
Proof.
  apply (get_best_lookup _ 1%Z); [reflexivity | lia | apply lookup_insert_eq].
Qed.

Lemma example_engine_ok dp reg : registry_ok reg -> engine_ok (example_engine dp reg).
Proof.
  intros Hreg. repeat split.
  - discriminate.
  - constructor; [unfold count_ok; simpl; lia | constructor].
  - intros _. simpl. lra.
  - exact Hreg.
Qed.

(** ** Rollback *)

(** C1. Rollback bound.  In every round run while the registry holds a best
    version, the recorded [global_accuracy] is at least the accuracy of
    that version minus 0.05.  When the accuracy estimated for the
    candidate is more than 0.05 below it, the candidate is discarded: the
    round's accuracy and the global weights are those of the best version,
    the version saved for the round holds them too, and the status of the
    round is the rollback tag ([Safe Rollback Applied] in the source);
    otherwise the candidate is kept and the status is the normal one. *)
Theorem C1_rollback_bound r s res s' best :
  run_round r s = (Ok res, s') ->
  get_best (registry (engine s)) = (Ok (Some best), registry (engine s)) ->
  global_accuracy res >= accuracy best - 0.05 /\
  exists c s1,
    run_round_candidate r s = (Ok c, s1) /\
    (cand_acc c < accuracy best - 0.05 ->
       global_accuracy res = accuracy best /\
       global_weights (engine s') = version_weights best /\
       (exists now, versions (registry (engine s')) !! r
                    = Some (mkModelVersion r (version_weights best) (accuracy best) now)) /\
       secure_agg_status res = status_rollback_applied) /\
    (~ cand_acc c < accuracy best - 0.05 ->
       global_accuracy res = cand_acc c /\
       global_weights (engine s') = cand_global c /\
       secure_agg_status res = status_normal).
Proof.
  intros H Hbest. apply run_round_Ok in H as (c & s1 & Hc & Hcommit).
  pose proof (run_round_candidate_Ok _ _ _ _ Hc) as (He1 & _).
  apply run_round_commit_Ok in Hcommit
    as (prev & g & a & rb & now & reg' & eps & Hprev & Hrb & Hsave & _ & Hres & He' & _).
  rewrite He1 in *. rewrite Hbest in Hprev. inversion Hprev; subst prev; clear Hprev.
  pose proof (save_version_Ok _ _ _ _ _ _ _ Hsave) as Hv2.
  assert (Hsaved : versions (registry (engine s')) !! r = Some (mkModelVersion r g a now)).
  { rewrite He'. simpl. rewrite Hv2. apply lookup_insert_eq. }
  assert (Hg : global_weights (engine s') = g) by (rewrite He'; reflexivity).
  assert (Ha : global_accuracy res = a) by (rewrite Hres; reflexivity).
  assert (Hst : secure_agg_status res
                = if negb rb then status_normal else status_rollback_applied)
    by (rewrite Hres; reflexivity).
  clear Hres He' Hv2 Hsave.
  unfold rollback_check in Hrb.
  destruct (Rlt_dec (cand_acc c) (accuracy best - 0.05)) as [Hlt|Hge];
    injection Hrb as <- <- <-.
  - split; [lra|]. exists c, s1. split; [exact Hc|]. split.
    + intros _. split; [exact Ha|]. split; [exact Hg|].
      split; [exists now; exact Hsaved | exact Hst].
    + intros Hn. contradiction.
  - split; [lra|]. exists c, s1. split; [exact Hc|]. split.
    + intros Hn. contradiction.
    + intros _. split; [exact Ha|]. split; [exact Hg | exact Hst].
Qed.

Lemma C1_rollback_bound_witness :
  exists res s',
    run_round 2 (mkSys (example_engine true example_registry) example_world) = (Ok res, s') /\
    global_accuracy res >= accuracy example_version - 0.05.
Proof.
  destruct (run_round_total 2 (mkSys (example_engine true example_registry) example_world)
              (example_engine_ok true _ example_registry_ok)) as (res & s' & H & _).
  exists res, s'. split; [exact H|].
  exact (proj1 (C1_rollback_bound _ _ _ _ _ H example_registry_best)).
Defined.

(** ** Epsilon reporting *)

Lemma run_round_epsilon r s res s' :
  run_round r s = (Ok res, s') ->
  (dp_enabled (engine s) = true ->
   forall n, _compute_epsilon (dp_sigma (engine s)) n 1e-5 = Ok (privacy_epsilon res)) /\
  (dp_enabled (engine s) = false -> privacy_epsilon res = fin 0.0) /\
  dp_noise_calls (world s')
  = (noise_calls (engine s) (length (hospitals (engine s)))
     + dp_noise_calls (world s))%nat.
Proof.
  intros H. apply run_round_Ok in H as (c & s1 & Hc & Hcommit).
  apply run_round_candidate_Ok in Hc as (He1 & Hcalls & _).
  apply run_round_commit_Ok in Hcommit
    as (prev & g & a & rb & now & reg' & eps & _ & _ & _ & Heps & Hres & _ & Hcalls').
  rewrite He1 in Heps.
  assert (Hpe : privacy_epsilon res = eps) by (rewrite Hres; reflexivity).
  rewrite Hpe. clear Hres Hpe.
  split; [|split].
  - intros Hdp n. rewrite Hdp in Heps.
    inv_rbind Heps as m Hm. rewrite _compute_epsilon_default in Heps.
    rewrite _compute_epsilon_default. exact Heps.
  - intros Hdp. rewrite Hdp in Heps. exact Heps.
  - rewrite Hcalls'. exact Hcalls.
Qed.

(** C2. Epsilon reporting.  The [privacy_epsilon] recorded by a round is
    sqrt(2 ln(1.25/delta))/sigma with delta = 1e-5 when differential privacy
    is enabled and sigma is positive, the infinity when it is enabled and
    sigma is zero, and 0.0 when it is disabled; in that last case the round
    makes no call of [_add_dp_noise] (when enabled, it makes one for each
    node). *)
Theorem C2_epsilon_reporting r s res s' :
  run_round r s = (Ok res, s') ->
  (dp_enabled (engine s) = true -> dp_sigma (engine s) > 0 ->
   privacy_epsilon res = fin (sqrt (2 * ln (1.25 / 1e-5)) / dp_sigma (engine s))) /\
  (dp_enabled (engine s) = true -> dp_sigma (engine s) = 0 ->
   privacy_epsilon res = pinf) /\
  (dp_enabled (engine s) = false ->
   privacy_epsilon res = fin 0.0 /\
   dp_noise_calls (world s') = dp_noise_calls (world s)) /\
  (dp_enabled (engine s) = true ->
   dp_noise_calls (world s')
   = (length (hospitals (engine s)) + dp_noise_calls (world s))%nat).
Proof.
  intros H. apply run_round_epsilon in H as (Hon & Hoff & Hcalls).
  unfold noise_calls in Hcalls.
  split; [|split; [|split]].
  - intros Hdp Hpos. specialize (Hon Hdp 0%Z). rewrite _compute_epsilon_default in Hon.
    destruct (Req_dec_T (dp_sigma (engine s)) 0); [exfalso; lra|].
    inversion Hon. reflexivity.
  - intros Hdp Hzero. specialize (Hon Hdp 0%Z). rewrite _compute_epsilon_default in Hon.
    destruct (Req_dec_T (dp_sigma (engine s)) 0); [|contradiction].
    inversion Hon. reflexivity.
  - intros Hdp. rewrite Hdp in Hcalls. split; [apply Hoff; exact Hdp | exact Hcalls].
  - intros Hdp. rewrite Hdp in Hcalls. exact Hcalls.
Qed.

Lemma C2_epsilon_reporting_witness :
  exists res s',
    run_round 1 (mkSys (example_engine true ModelRegistry_init) example_world)
    = (Ok res, s') /\
    privacy_epsilon res = fin (sqrt (2 * ln (1.25 / 1e-5)) / 0.15).
Proof.
  destruct (run_round_total 1 (mkSys (example_engine true ModelRegistry_init) example_world)
              (example_engine_ok true _ registry_ok_init)) as (res & s' & H & _).
  exists res, s'. split; [exact H|].
  apply (proj1 (C2_epsilon_reporting _ _ _ _ H)); [reflexivity | simpl; lra].
Defined.

(** C9. The epsilon does not depend on the sample count: for every sigma
    and delta, [_compute_epsilon] gives the same outcome on any two sample
    counts; so the epsilon a round records under differential privacy,
    computed against the smallest sample count, is the one computed against
    any count. *)
Theorem C9_epsilon_ignores_sample_count :
  (forall sigma delta n1 n2,
     _compute_epsilon sigma n1 delta = _compute_epsilon sigma n2 delta) /\
  (forall r s res s' n,
     run_round r s = (Ok res, s') ->
     dp_enabled (engine s) = true ->
     _compute_epsilon (dp_sigma (engine s)) n 1e-5 = Ok (privacy_epsilon res)).
Proof.
  split.
  - intros sigma delta n1 n2. reflexivity.
  - intros r s res s' n H Hdp. apply run_round_epsilon in H as (Hon & _).
    apply Hon. exact Hdp.
Qed.

Lemma C9_epsilon_ignores_sample_count_witness :
  exists res s',
    run_round 1 (mkSys (example_engine true ModelRegistry_init) example_world)
    = (Ok res, s') /\
    _compute_epsilon 0.15 7 1e-5 = Ok (privacy_epsilon res).
Proof.
  destruct (run_round_total 1 (mkSys (example_engine true ModelRegistry_init) example_world)
              (example_engine_ok true _ registry_ok_init)) as (res & s' & H & _).
  exists res, s'. split; [exact H|].
  apply (proj2 C9_epsilon_ignores_sample_count _ _ _ _ 7%Z H). reflexivity.
Defined.

(** ** Convergence *)

(** C6. Convergence decision.  The [converged] flag a round records is true
    exactly when its [weight_divergence] is below 0.01 and its [round_num]
    is at least 10; a round numbered below 10 is never recorded as
    converged. *)
Theorem C6_convergence_decision r s res s' :
  run_round r s = (Ok res, s') ->
  round_num res = r /\
  (converged res = true <-> weight_divergence res < 0.01 /\ (10 <= round_num res)%Z) /\
  ((round_num res < 10)%Z -> converged res = false).
Proof.
  intros H. apply run_round_record in H as (Hr & _ & _ & _ & _ & _ & Hconv).
  split; [exact Hr|]. split; [exact Hconv|].
  intros Hlt. destruct (converged res); [|reflexivity].
  destruct (proj1 Hconv eq_refl) as [_ Hge]. lia.
Qed.

Lemma C6_convergence_decision_witness :
  exists res s',
    run_round 3 (mkSys (example_engine false ModelRegistry_init) example_world)
    = (Ok res, s') /\
    round_num res = 3%Z /\ converged res = false.
Proof.
  destruct (run_round_total 3 (mkSys (example_engine false ModelRegistry_init) example_world)
              (example_engine_ok false _ registry_ok_init)) as (res & s' & H & _).
  exists res, s'. split; [exact H|].
  destruct (C6_convergence_decision _ _ _ _ H) as (Hr & _ & Hfloor).
  split; [exact Hr|]. apply Hfloor. rewrite Hr. lia.
Defined.

(** ** Aggregation of equal counts; the weights of the average *)

Lemma mean_of_two (c : R) (wa : tensor) : forall wb : tensor,
  c = / 2 -> length wa = length wb ->
  zip_with Rplus (scale c wa) (zip_with Rplus (scale c wb) (replicate (length wa) 0))
  = zip_with (fun a b => (a + b) / 2) wa wb.
Proof.
  intros wb Hc. revert wb.
  induction wa as [|a wa IH]; intros [|b wb] Hlen; simpl in *; try discriminate.
  - reflexivity.
  - rewrite IH by lia. f_equal. subst c. field.
Qed.

(** The aggregation on the indicator weights of a node returns the
    quotient of its count by the sum of the counts. *)
Lemma tensor_sum_indicator (D : R) (k : nat) (ns : list Z) : forall start,
  tensor_sum 1 (map (fun p => scale (IZR (snd p) / D) (fst p))
                  (zip (map (fun j => [if Nat.eqb j k then 1 else 0])
                          (seq start (length ns))) ns))
  = [if (start <=? k)%nat
     then match ns !! (k - start)%nat with Some n => IZR n / D | None => 0 end
     else 0].
Proof.
  unfold tensor_sum.
  induction ns as [|n ns IH]; intros start.
  - simpl. destruct (start <=? k)%nat; reflexivity.
  - cbn [length seq map zip_with foldr fst snd]. rewrite IH.
    cbn [scale map zip_with]. f_equal.
    destruct (Nat.eqb_spec start k) as [->|Hne].
    + rewrite Nat.leb_refl, Nat.sub_diag.
      replace (S k <=? k)%nat with false by (symmetry; apply Nat.leb_gt; lia).
      simpl. unfold Rdiv. ring.
    + destruct (Nat.leb_spec start k) as [Hle|Hgt].
      * replace (S start <=? k)%nat with true by (symmetry; apply Nat.leb_le; lia).
        replace (k - start)%nat with (S (k - S start)) by lia.
        simpl. unfold Rdiv. ring.
      * replace (S start <=? k)%nat with false by (symmetry; apply Nat.leb_gt; lia).
        unfold Rdiv. ring.
Qed.

Lemma fedavg_aggregate_indicator (ns : list Z) (k : nat) (n : Z) :
  sumZ ns <> 0%Z -> ns !! k = Some n ->
  _fedavg_aggregate (indicator k (length ns)) ns = Ok [IZR n / IZR (sumZ ns)].
Proof.
  intros HN Hk. destruct ns as [|n0 ns]; [discriminate Hk|].
  unfold indicator. cbn [length seq map].
  rewrite fedavg_aggregate_total; [| |exact HN].
  - f_equal. unfold fedavg_rule. rewrite <- sumZ_foldr.
    pose proof (tensor_sum_indicator (IZR (sumZ (n0 :: ns))) k (n0 :: ns) 0) as H.
    etransitivity; [exact H|].
    rewrite Nat.sub_0_r, Hk. reflexivity.
  - apply Forall_map. apply Forall_forall. intros j _. reflexivity.
Qed.

Lemma applied_coefficients_quotients (ns : list Z) :
  sumZ ns <> 0%Z ->
  applied_coefficients ns (map (fun n => IZR n / IZR (sumZ ns)) ns).
Proof.
  intros HN. unfold applied_coefficients.
  apply Forall2_same_length_lookup_2.
  - rewrite length_seq, length_map. reflexivity.
  - intros i k c Hi Hc. apply lookup_seq in Hi as [-> _]. simpl.
    rewrite list_lookup_fmap in Hc.
    destruct (ns !! i) as [n|] eqn:E; [|discriminate Hc].
    simpl in Hc. inversion Hc; subst c.
    apply fedavg_aggregate_indicator; assumption.
Qed.

Lemma scaled_pairs (D : R) (ws : list tensor) : forall ns : list Z,
  map (fun p => scale (IZR (snd p) / D) (fst p)) (zip ws ns)
  = zip_with scale (map (fun n => IZR n / D) ns) ws.
Proof.
  induction ws as [|w ws IH]; intros [|n ns]; simpl; try reflexivity.
  rewrite IH. reflexivity.
Qed.

(** C5. Aggregating two nodes of equal sample count gives (W_a + W_b)/2,
    element by element.  The weighting coefficients of the aggregation,
    which are the numbers it returns on the indicator weights of the nodes
    and with which it combines tensors of one shape, are the quotients
    n_k/N and sum to one (within 1e-9), for every list of counts whose sum
    is not zero; the aggregation of every round that returns is made with
    such coefficients, those of the sample counts of the nodes. *)
Theorem C5_equal_counts_mean_and_unit_weights :
  (forall n wa wb,
     n <> 0%Z -> length wa = length wb ->
     _fedavg_aggregate [wa; wb] [n; n]
     = Ok (zip_with (fun a b => (a + b) / 2) wa wb)) /\
  (forall ns,
     sumZ ns <> 0%Z ->
     exists cs,
       applied_coefficients ns cs /\
       (forall w0 ws,
          Forall (fun w => length w = length w0) ws ->
          _fedavg_aggregate (w0 :: ws) ns
          = Ok (tensor_sum (length w0) (zip_with scale cs (w0 :: ws)))) /\
       cs = map (fun n => IZR n / IZR (sumZ ns)) ns /\
       Rabs (sumR cs - 1) <= 1e-9) /\
  (forall r s res s',
     run_round r s = (Ok res, s') ->
     exists c s1 cs,
       run_round_candidate r s = (Ok c, s1) /\
       sample_counts (cand_updates c) = map n_samples (hospitals (engine s)) /\
       _fedavg_aggregate (local_weights (cand_updates c)) (sample_counts (cand_updates c))
       = Ok (cand_global c) /\
       applied_coefficients (sample_counts (cand_updates c)) cs /\
       Rabs (sumR cs - 1) <= 1e-9).
Proof.
  assert (Hunit : forall ns, sumZ ns <> 0%Z ->
            Rabs (sumR (map (fun n => IZR n / IZR (sumZ ns)) ns) - 1) <= 1e-9).
  { intros ns HN. rewrite quotients_sum by exact HN.
    replace (1 - 1) with 0 by ring. rewrite Rabs_R0. lra. }
  split; [|split].
  - intros n wa wb Hn Hlen.
    assert (HN : sumZ [n; n] <> 0%Z) by (unfold sumZ; simpl; lia).
    rewrite fedavg_aggregate_total; [|constructor; [symmetry; exact Hlen | constructor] | exact HN].
    f_equal. unfold fedavg_rule. simpl.
    apply mean_of_two; [|exact Hlen].
    replace (n + (n + 0))%Z with (2 * n)%Z by lia. rewrite mult_IZR.
    field. apply not_0_IZR. exact Hn.
  - intros ns HN. eexists. split; [apply applied_coefficients_quotients; exact HN|].
    split; [|split; [reflexivity | apply Hunit; exact HN]].
    intros w0 ws Hshape. rewrite fedavg_aggregate_total by assumption.
    unfold fedavg_rule. rewrite <- sumZ_foldr. rewrite scaled_pairs. reflexivity.
  - intros r s res s' H. apply run_round_Ok in H as (c & s1 & Hc & _).
    pose proof Hc as Hc'.
    apply run_round_candidate_Ok in Hc' as (_ & _ & Hcounts & Hlen & Hagg & _).
    pose proof Hagg as Hagg'.
    apply fedavg_aggregate_Ok_nonzero in Hagg' as [_ HN];
      [|rewrite Hlen, Hcounts, length_map; reflexivity].
    exists c, s1, (map (fun n => IZR n / IZR (sumZ (sample_counts (cand_updates c))))
                       (sample_counts (cand_updates c))).
    split; [exact Hc|]. split; [exact Hcounts|]. split; [exact Hagg|].
    split; [apply applied_coefficients_quotients; exact HN | apply Hunit; exact HN].
Qed.

Lemma C5_equal_counts_mean_witness :
  _fedavg_aggregate [[1; 5]; [3; 7]] [4%Z; 4%Z]
  = Ok (zip_with (fun a b => (a + b) / 2) [1; 5] [3; 7]).
Proof.
  apply (proj1 C5_equal_counts_mean_and_unit_weights); [lia | reflexivity].
Defined.

(** ** The simulation loop *)

Lemma length_range a b : length (range a b) = Z.to_nat (b - a).
Proof. unfold range. rewrite length_map, length_seq. reflexivity. Qed.

Lemma lookup_range a b i x : range a b !! i = Some x -> x = (a + Z.of_nat i)%Z.
Proof.
  unfold range. rewrite list_lookup_fmap. intros H.
  destruct (seq 0 (Z.to_nat (b - a)) !! i) as [j|] eqn:E; [|discriminate H].
  apply lookup_seq in E as [-> _]. simpl in H. inversion H. reflexivity.
Qed.

(** The rounds a loop that returned has appended: one for each round
    number in turn, the last of them alone being allowed to be a round
    converged after round 15, and all the rounds unless the last is such a
    round. *)
Lemma simulation_loop_Ok rounds : forall s u s',
  simulation_loop rounds s = (Ok u, s') ->
  exists rs,
    round_history (engine s') = round_history (engine s) ++ rs /\
    map round_num rs = take (length rs) rounds /\
    (length rs = length rounds \/
     exists res, last rs = Some res /\ converged res = true /\ (15 < round_num res)%Z) /\
    (forall i res, rs !! i = Some res -> converged res = true ->
                   (15 < round_num res)%Z -> S i = length rs).
Proof.
  induction rounds as [|r rest IH]; intros s u s' H; simpl in H.
  - apply ret_Ok in H as [_ ->]. exists []. rewrite app_nil_r.
    repeat split; [left; reflexivity|]. intros i res Hi. discriminate Hi.
  - inv_bind H as res s1 Hround.
    apply run_round_record in Hround as (Hr & Hh & _).
    destruct (converged res && (15 <? r)%Z) eqn:Estop.
    + apply ret_Ok in H as [_ ->]. exists [res].
      apply andb_true_iff in Estop as [Hconv Hlate]. apply Z.ltb_lt in Hlate.
      split; [exact Hh|]. split; [simpl; rewrite Hr; reflexivity|]. split.
      * right. exists res. repeat split; [exact Hconv | lia].
      * intros [|i] res' Hi; [reflexivity | discriminate Hi].
    + apply IH in H as (rs & Hh' & Hnum & Hend & Hstop).
      exists (res :: rs). split; [|split; [|split]].
      * rewrite Hh', Hh. rewrite <- app_assoc. reflexivity.
      * simpl. rewrite Hr, Hnum. reflexivity.
      * destruct Hend as [Hlen | (res' & Hlast & Hc & Hl)].
        -- left. simpl. rewrite Hlen. reflexivity.
        -- right. exists res'. repeat split; [|exact Hc|exact Hl].
           rewrite last_cons, Hlast. reflexivity.
      * intros [|i] res' Hi Hc Hl; simpl in Hi.
        -- inversion Hi; subst res'. rewrite Hc in Estop. simpl in Estop.
           apply Z.ltb_ge in Estop. lia.
        -- simpl. f_equal. apply (Hstop i res'); assumption.
Qed.

Lemma simulation_loop_total rounds : forall s,
  engine_ok (engine s) ->
  exists s', simulation_loop rounds s = (Ok tt, s') /\ engine_ok (engine s').
Proof.
  induction rounds as [|r rest IH]; intros s Hok; simpl.
  - exists s. split; [reflexivity | exact Hok].
  - destruct (run_round_total r s Hok) as (res & s1 & Hround & Hok1).
    rewrite (bind_step _ _ _ _ _ Hround).
    destruct (converged res && (15 <? r)%Z).
    + exists s1. split; [reflexivity | exact Hok1].
    + apply IH. exact Hok1.
Qed.

Lemma run_simulation_Ok n s h s' :
  run_simulation n s = (Ok h, s') ->
  round_history (engine s') = h /\
  (forall i res, h !! i = Some res -> round_num res = (1 + Z.of_nat i)%Z) /\
  (length h = Z.to_nat n \/
   exists res, last h = Some res /\ converged res = true /\ (15 < round_num res)%Z) /\
  (length h <= Z.to_nat n)%nat /\
  (forall i res, h !! i = Some res -> converged res = true ->
                 (15 < round_num res)%Z -> S i = length h).
Proof.
  unfold run_simulation. intros H.
  inv_bind H as u s1 Hreset. unfold modify in Hreset. inversion Hreset; subst u s1; clear Hreset.
  inv_bind H as u s2 Hloop.
  inv_bind H as e s3 He. apply self_Ok in He as [-> ->].
  apply ret_Ok in H as [-> ->].
  apply simulation_loop_Ok in Hloop as (rs & Hh & Hnum & Hend & Hstop).
  simpl in Hh. rewrite Hh.
  assert (Hlen : length (range 1 (n + 1)) = Z.to_nat n)
    by (rewrite length_range; f_equal; lia).
  assert (Hle : (length rs <= Z.to_nat n)%nat).
  { rewrite <- Hlen. apply (f_equal length) in Hnum.
    rewrite length_map, length_take in Hnum. lia. }
  split; [reflexivity|]. split; [|split; [|split]].
  - intros i res Hi.
    assert (Hm : map round_num rs !! i = Some (round_num res))
      by (rewrite list_lookup_fmap, Hi; reflexivity).
    rewrite Hnum in Hm. apply lookup_take_Some in Hm as [Hm _].
    apply lookup_range in Hm. exact Hm.
  - rewrite <- Hlen. exact Hend.
  - exact Hle.
  - exact Hstop.
Qed.

Lemma run_simulation_total n s :
  engine_ok (engine s) ->
  exists h s', run_simulation n s = (Ok h, s') /\ engine_ok (engine s').
Proof.
  intros Hok. unfold run_simulation.
  erewrite bind_step by reflexivity.
  destruct (simulation_loop_total (range 1 (n + 1))
              (mkSys (set_round_history [] (engine s)) (world s)) Hok)
    as (s2 & Hloop & Hok2).
  rewrite (bind_step _ _ _ _ _ Hloop).
  erewrite bind_step by reflexivity.
  unfold ret. eauto.
Qed.

(** The history a call starts from does not matter: it is dropped first. *)
Lemma run_simulation_forgets n s h0 :
  run_simulation n (mkSys (set_round_history h0 (engine s)) (world s))
  = run_simulation n s.
Proof. reflexivity. Qed.

(** C7. Early stop.  In the history a run of [run_simulation] returns, a
    round converged after round 15 is the last one: the loop stopped before
    the next round.  A round at or before round 15, converged or not, is
    followed by the next round as long as the budget allows.  The loop runs
    through the whole budget unless its last round is one converged after
    round 15. *)
Theorem C7_early_stop n s h s' :
  run_simulation n s = (Ok h, s') ->
  (forall i res, h !! i = Some res -> converged res = true ->
                 (15 < round_num res)%Z -> h !! S i = None) /\
  (forall i res, h !! i = Some res -> (round_num res <= 15)%Z ->
                 (S i < Z.to_nat n)%nat -> is_Some (h !! S i)) /\
  (length h = Z.to_nat n \/
   exists res, last h = Some res /\ converged res = true /\ (15 < round_num res)%Z).
Proof.
  intros H. apply run_simulation_Ok in H as (_ & Hnum & Hend & _ & Hstop).
  split; [|split; [|exact Hend]].
  - intros i res Hi Hc Hl. apply lookup_ge_None. rewrite (Hstop i res Hi Hc Hl). lia.
  - intros i res Hi Hearly Hbudget. apply lookup_lt_is_Some.
    destruct Hend as [Hlen | (res' & Hlast & _ & Hlate)]; [lia|].
    rewrite last_lookup in Hlast. apply Hnum in Hlast.
    apply Hnum in Hi. lia.
Qed.

Lemma C7_early_stop_witness :
  exists h s',
    run_simulation 20 (mkSys (example_engine true ModelRegistry_init) example_world)
    = (Ok h, s') /\
    (length h = Z.to_nat 20 \/
     exists res, last h = Some res /\ converged res = true /\ (15 < round_num res)%Z).
Proof.
  destruct (run_simulation_total 20
              (mkSys (example_engine true ModelRegistry_init) example_world)
              (example_engine_ok true _ registry_ok_init)) as (h & s' & H & _).
  exists h, s'. split; [exact H|].
  exact (proj2 (proj2 (C7_early_stop _ _ _ _ H))).
Defined.

(** C10. History reset.  A call of [run_simulation] first drops the round
    history: the history it leaves in the engine is the list it returns,
    its rounds are numbered 1, 2, ... in order, there are at most
    [n_rounds] of them, and the call does the same whatever history the
    engine held before. *)
Theorem C10_history_reset n s h s' :
  run_simulation n s = (Ok h, s') ->
  round_history (engine s') = h /\
  (forall i res, h !! i = Some res -> round_num res = (1 + Z.of_nat i)%Z) /\
  (length h <= Z.to_nat n)%nat /\
  (forall h0,
     run_simulation n (mkSys (set_round_history h0 (engine s)) (world s)) = (Ok h, s')).
Proof.
  intros H. pose proof (run_simulation_Ok _ _ _ _ H) as (Hh & Hnum & _ & Hle & _).
  split; [exact Hh|]. split; [exact Hnum|]. split; [exact Hle|].
  intros h0. rewrite run_simulation_forgets. exact H.
Qed.

Lemma C10_history_reset_witness :
  exists h s',
    run_simulation 5 (mkSys (example_engine false ModelRegistry_init) example_world)
    = (Ok h, s') /\
    round_history (engine s') = h /\ (length h <= 5)%nat.
Proof.
  destruct (run_simulation_total 5
              (mkSys (example_engine false ModelRegistry_init) example_world)
              (example_engine_ok false _ registry_ok_init)) as (h & s' & H & _).
  exists h, s'. split; [exact H|].
  destruct (C10_history_reset _ _ _ _ H) as (Hh & _ & Hle & _).
  split; [exact Hh | exact Hle].
Defined.

(** ** Construction *)

Lemma mapM_total {S A B : Type} (f : A -> M S B) (P : B -> Prop) (l : list A) :
  Forall (fun x => forall s, exists y s', f x s = (Ok y, s') /\ P y) l ->
  forall s, exists ys s', mapM f l s = (Ok ys, s') /\ length ys = length l /\ Forall P ys.
Proof.
  induction 1 as [|x l Hx _ IH]; intros s; simpl.
  - exists [], s. repeat split. constructor.
  - destruct (Hx s) as (y & s1 & Hy & HP). rewrite (bind_step _ _ _ _ _ Hy).
    destruct (IH s1) as (ys & s2 & Hys & Hlen & Hall). rewrite (bind_step _ _ _ _ _ Hys).
    exists (y :: ys), s2. repeat split; [simpl; lia | constructor; assumption].
Qed.

Lemma clouds_regions i :
  exists cloud rs,
    index clouds (i mod 3) = Ok cloud /\ subscript regions cloud = Ok rs /\
    forall k, (0 <= k < 3)%Z -> exists region, index rs (Z.to_nat k) = Ok region.
Proof.
  assert (Hk : forall rs : list string, length rs = 3%nat ->
            forall k, (0 <= k < 3)%Z -> exists region, index rs (Z.to_nat k) = Ok region).
  { intros rs Hlen k Hk. unfold index.
    destruct (rs !! Z.to_nat k) eqn:E; [eauto|].
    apply lookup_ge_None in E. lia. }
  assert (Hi : (i mod 3 = 0 \/ i mod 3 = 1 \/ i mod 3 = 2)%nat).
  { pose proof (Nat.mod_upper_bound i 3). lia. }
  destruct Hi as [-> | [-> | ->]].
  - exists "AWS"%string. eexists. split; [reflexivity|]. split; [reflexivity|].
    apply Hk. reflexivity.
  - exists "GCP"%string. eexists. split; [reflexivity|]. split; [reflexivity|].
    apply Hk. reflexivity.
  - exists "Azure"%string. eexists. split; [reflexivity|]. split; [reflexivity|].
    apply Hk. reflexivity.
Qed.

Lemma chr_total n : (0 <= n <= 1114111)%Z -> exists c, chr n = Ok c.
Proof.
  intros Hn. unfold chr.
  destruct (n <? 0)%Z eqn:E1; [apply Z.ltb_lt in E1; lia|].
  destruct (1114111 <? n)%Z eqn:E2; [apply Z.ltb_lt in E2; lia|]. simpl.
  destruct (n <? 128)%Z; [eauto|].
  destruct (n <? 2048)%Z; [eauto|].
  destruct (n <? 65536)%Z; eauto.
Qed.

Lemma randn_layers_total L w :
  (0 <= L)%Z ->
  exists t, randn_layers L w = (Ok t, advance (Z.to_nat L * 64) w) /\
            length t = (Z.to_nat L * 64)%nat.
Proof.
  intros HL. unfold randn_layers.
  destruct (L <? 0)%Z eqn:E; [apply Z.ltb_lt in E; lia|].
  unfold randn. eexists. split; [reflexivity|].
  rewrite length_map, length_seq. reflexivity.
Qed.

Lemma index_map_seq {A : Type} (f : nat -> A) (c n i : nat) :
  (i < n)%nat -> index (map f (seq c n)) i = Ok (f (c + i)%nat).
Proof.
  intros Hi. unfold index. rewrite list_lookup_fmap.
  rewrite (lookup_seq_lt c n i Hi). reflexivity.
Qed.

Lemma init_hospital_total L (ss : list Z) (ba : list R) (i : nat) :
  (0 <= L)%Z -> (Z.of_nat i <= 1114046)%Z ->
  (exists n, index ss i = Ok n /\ (150 <= n < 800)%Z) ->
  (exists a, index ba i = Ok a) ->
  forall w, exists node w', init_hospital L ss ba i w = (Ok node, w') /\ node_built L node.
Proof.
  intros HL Hi (n & Hn & Hrange) (a & Ha) w. unfold init_hospital.
  destruct (clouds_regions i) as (cloud & rs & Hcloud & Hrs & Hregion).
  erewrite bind_step by (unfold lift; rewrite Hcloud; reflexivity).
  erewrite bind_step by (unfold lift; rewrite Hrs; reflexivity).
  assert (Hk : exists k, randint 0 3 w = (Ok k, advance 1 w) /\ (0 <= k < 3)%Z).
  { unfold randint. simpl. eexists. split; [reflexivity|].
    pose proof (Z.mod_pos_bound (integers w (cursor w)) (3 - 0)). lia. }
  destruct Hk as (k & Hk & Hkr). rewrite (bind_step _ _ _ _ _ Hk).
  destruct (Hregion k Hkr) as (region & Hreg).
  erewrite bind_step by (unfold lift; rewrite Hreg; reflexivity).
  destruct (chr_total (65 + Z.of_nat i)) as (letter & Hletter); [lia|].
  erewrite bind_step by (unfold lift; rewrite Hletter; reflexivity).
  erewrite bind_step by (unfold lift; rewrite Hn; reflexivity).
  erewrite bind_step by (unfold lift; rewrite Ha; reflexivity).
  destruct (randn_layers_total L (advance 1 w) HL) as (t & Ht & Hlen).
  rewrite (bind_step _ _ _ _ _ Ht).
  eexists. eexists. split; [reflexivity|].
  split; [exact Hrange|]. simpl. eexists. split; [reflexivity|].
  rewrite length_scale_r. exact Hlen.
Qed.

Lemma _init_hospitals_total n L w :
  (0 <= n <= 1114047)%Z -> (0 <= L)%Z ->
  exists nodes w',
    _init_hospitals n L w = (Ok nodes, w') /\
    length nodes = Z.to_nat n /\ Forall (node_built L) nodes.
Proof.
  intros Hn HL. unfold _init_hospitals.
  assert (E : (n <? 0)%Z = false) by (apply Z.ltb_ge; lia).
  erewrite bind_step by (unfold randint_n; rewrite E; reflexivity).
  erewrite bind_step by (unfold random_uniform_n; rewrite E; reflexivity).
  match goal with
  | |- context [mapM ?f ?l ?w1] =>
      assert (Hbuilt : Forall (fun i => forall s, exists y s',
                                f i s = (Ok y, s') /\ node_built L y) l);
      [| destruct (mapM_total f (node_built L) l Hbuilt w1)
           as (nodes & w' & Hnodes & Hlen & Hall) ]
  end.
  - apply Forall_forall. intros i Hi. apply elem_of_seq in Hi.
    apply init_hospital_total; [exact HL | lia | |].
    + rewrite index_map_seq by lia. eexists. split; [reflexivity|].
      match goal with |- context [(?x mod ?m)%Z] =>
        pose proof (Z.mod_pos_bound x m) end. lia.
    + rewrite index_map_seq by lia. eauto.
  - rewrite Hnodes. exists nodes, w'. rewrite length_seq in Hlen. auto.
Qed.

(** Construction returns for every number of nodes from 0 to 1114047 (the
    last letter [chr] can build), every number of layers from 0 and every
    sigma. *)
Lemma FedAvgEngine_init_total n dp sigma rate L w :
  (0 <= n <= 1114047)%Z -> (0 <= L)%Z ->
  exists e w',
    FedAvgEngine_init n dp sigma rate L w = (Ok e, w') /\
    n_hospitals e = n /\ dp_enabled e = dp /\ dp_sigma e = sigma /\ lr e = rate /\
    n_layers e = L /\
    length (hospitals e) = Z.to_nat n /\
    Forall (node_built L) (hospitals e) /\
    length (global_weights e) = (Z.to_nat L * 64)%nat /\
    round_history e = [] /\
    registry e = ModelRegistry_init.
Proof.
  intros Hn HL. unfold FedAvgEngine_init.
  destruct (_init_hospitals_total n L w Hn HL) as (nodes & w1 & Hnodes & Hlen & Hall).
  rewrite (bind_step _ _ _ _ _ Hnodes).
  destruct (randn_layers_total L w1 HL) as (g & Hg & Hglen).
  rewrite (bind_step _ _ _ _ _ Hg).
  eexists. eexists. split; [reflexivity|]. simpl.
  repeat split; try assumption. rewrite length_scale_r. exact Hglen.
Qed.

(** ** Rounds on an engine that a configuration check would refuse *)

Lemma run_round_no_nodes r s :
  hospitals (engine s) = [] -> run_round r s = (Raise IndexError, s).
Proof.
  intros H. unfold run_round, run_round_candidate.
  unfold bind at 1. unfold bind at 1. unfold self at 1. rewrite H. reflexivity.
Qed.

Lemma run_simulation_no_nodes n s :
  hospitals (engine s) = [] -> (0 < n)%Z ->
  run_simulation n s
  = (Raise IndexError, mkSys (set_round_history [] (engine s)) (world s)).
Proof.
  intros H Hn. unfold run_simulation.
  erewrite bind_step by reflexivity.
  apply bind_raise.
  unfold range. replace (n + 1 - 1)%Z with n by lia.
  destruct (Z.to_nat n) as [|k] eqn:E; [lia|]. simpl.
  apply bind_raise. apply run_round_no_nodes. exact H.
Qed.

Lemma run_round_negative_sigma r s node rest :
  hospitals (engine s) = node :: rest ->
  count_ok (n_samples node) ->
  dp_enabled (engine s) = true ->
  dp_sigma (engine s) < 0 ->
  exists s', run_round r s = (Raise ValueError, s') /\ engine s' = engine s.
Proof.
  intros Hnodes Hn Hdp Hsigma.
  destruct (_simulate_local_training_total node (global_weights (engine s)) 3 s Hn)
    as (w1 & s1 & H1).
  pose proof (_simulate_local_training_Ok _ _ _ _ _ _ H1) as (He1 & _).
  destruct (_add_dp_noise_negative_sigma w1 (n_samples node) s1 (proj1 Hn))
    as (s2 & H2 & He2).
  { rewrite He1. exact Hsigma. }
  exists s2. split; [|congruence].
  unfold run_round. apply bind_raise. unfold run_round_candidate.
  erewrite bind_step by reflexivity. apply bind_raise.
  rewrite Hnodes. simpl. apply bind_raise. unfold train_node.
  erewrite bind_step by reflexivity.
  rewrite (bind_step _ _ _ _ _ H1). apply bind_raise.
  rewrite Hdp. exact H2.
Qed.

(** C4, as stated, fails: construction with no node and a negative sigma
    returns an engine; nothing is raised. *)
Lemma C4_counterexample :
  exists e w',
    FedAvgEngine_init 0 true (-0.15) 0.01 8 example_world = (Ok e, w') /\
    hospitals e = [] /\ dp_sigma e < 0.
Proof.
  destruct (FedAvgEngine_init_total 0 true (-0.15) 0.01 8 example_world)
    as (e & w' & H & _ & _ & Hsigma & _ & _ & Hlen & _); [lia | lia |].
  exists e, w'. split; [exact H|]. split.
  - destruct (hospitals e); [reflexivity | discriminate Hlen].
  - rewrite Hsigma. lra.
Qed.

(** C4 (amended).  Construction checks nothing and raises no configuration
    error: for every number of nodes from 0 to 1114047, every number of
    layers from 0 and every sigma, negative ones included, it returns an
    engine with that many nodes and an empty round history.  The sample
    counts it draws are in [150, 800) and every weight tensor has
    [n_layers * 64] elements, so a non-positive count or a mismatched
    shape does not arise.  On an engine without nodes every round fails
    with [IndexError], and [run_simulation] with it, leaving an empty
    history.  On nodes whose sample counts are positive and below 2^64, as
    the counts that construction draws are: under differential privacy a
    negative sigma makes the round fail with [ValueError] before anything
    is recorded; with differential privacy disabled the sigma is never
    looked at and the round returns. *)
Theorem C4_construction_checks_nothing :
  (forall n dp sigma rate L w,
     (0 <= n <= 1114047)%Z -> (0 <= L)%Z ->
     exists e w',
       FedAvgEngine_init n dp sigma rate L w = (Ok e, w') /\
       dp_sigma e = sigma /\
       length (hospitals e) = Z.to_nat n /\
       Forall (node_built L) (hospitals e) /\
       length (global_weights e) = (Z.to_nat L * 64)%nat /\
       round_history e = []) /\
  (forall r s, hospitals (engine s) = [] -> run_round r s = (Raise IndexError, s)) /\
  (forall n s,
     hospitals (engine s) = [] -> (0 < n)%Z ->
     exists s', run_simulation n s = (Raise IndexError, s') /\
                round_history (engine s') = []) /\
  (forall r s node rest,
     hospitals (engine s) = node :: rest -> (0 < n_samples node < 2 ^ 64)%Z ->
     dp_enabled (engine s) = true -> dp_sigma (engine s) < 0 ->
     exists s', run_round r s = (Raise ValueError, s') /\ engine s' = engine s) /\
  (forall r s,
     dp_enabled (engine s) = false ->
     hospitals (engine s) <> [] ->
     Forall (fun node => (0 < n_samples node < 2 ^ 64)%Z) (hospitals (engine s)) ->
     registry_ok (registry (engine s)) ->
     exists res s', run_round r s = (Ok res, s')).
Proof.
  split; [|split; [|split; [|split]]].
  - intros n dp sigma rate L w Hn HL.
    destruct (FedAvgEngine_init_total n dp sigma rate L w Hn HL)
      as (e & w' & H & _ & _ & Hsigma & _ & _ & Hlen & Hall & Hg & Hh & _).
    exists e, w'. auto 10.
  - exact run_round_no_nodes.
  - intros n s H Hn. eexists. split; [apply run_simulation_no_nodes; assumption|].
    reflexivity.
  - exact run_round_negative_sigma.
  - intros r s Hdp Hne Hpos Hreg.
    destruct (run_round_total r s) as (res & s' & H & _).
    + repeat split; try assumption. intros Hon. congruence.
    + eauto.
Qed.

Lemma C4_construction_witness :
  exists e w',
    FedAvgEngine_init 2 false (-1) 0.01 1 example_world = (Ok e, w') /\
    dp_sigma e = -1 /\ length (hospitals e) = 2%nat.
Proof.
  destruct (proj1 C4_construction_checks_nothing 2%Z false (-1) 0.01 1%Z example_world)
    as (e & w' & H & Hsigma & Hlen & _); [lia | lia |].
  exists e, w'. split; [exact H|]. split; [exact Hsigma | exact Hlen].
Defined.

(** * Further properties of the engine *)

(** ** ModelRegistry: the latest version *)

Lemma foldl_Zmax_spec (l : list Z) : forall x,
  (foldl Z.max x l = x \/ foldl Z.max x l ∈ l) /\
  (x <= foldl Z.max x l)%Z /\
  Forall (fun y => (y <= foldl Z.max x l)%Z) l.
Proof.
  induction l as [|y l IH]; intros x; simpl.
  - repeat split; [left; reflexivity | lia | constructor].
  - destruct (IH (Z.max x y)) as (Hin & Hge & Hall).
    repeat split.
    + destruct Hin as [Heq | Hin].
      * rewrite Heq. destruct (Z.max_spec x y) as [[_ ->] | [_ ->]].
        -- right. left.
        -- left. reflexivity.
      * right. right. exact Hin.
    + lia.
    + constructor; [lia | exact Hall].
Qed.

Lemma py_max_spec (l : list Z) :
  l <> [] ->
  exists m, py_max l = Ok m /\ m ∈ l /\ Forall (fun y => (y <= m)%Z) l.
Proof.
  destruct l as [|x l]; [contradiction|]. intros _. simpl.
  destruct (foldl_Zmax_spec l x) as (Hin & Hge & Hall).
  eexists. split; [reflexivity|]. split.
  - destruct Hin as [-> | Hin]; [left | right; exact Hin].
  - constructor; assumption.
Qed.

Lemma get_latest_eq reg :
  get_latest reg =
  if decide (versions reg = ∅) then (Ok None, reg)
  else match py_max (map fst (map_to_list (versions reg))) with
       | Ok k => match versions reg !! k with
                 | Some v => (Ok (Some v), reg)
                 | None => (Raise KeyError, reg)
                 end
       | Raise e => (Raise e, reg)
       end.
Proof.
  unfold get_latest, bind, get, lift, subscript, ret. simpl.
  destruct (decide (versions reg = ∅)); [reflexivity|].
  destruct (py_max _) as [k|e]; [|reflexivity].
  destruct (versions reg !! k); reflexivity.
Qed.

Lemma get_latest_cases (reg : ModelRegistry) :
  (versions reg = ∅ /\ get_latest reg = (Ok None, reg)) \/
  (exists k v,
     get_latest reg = (Ok (Some v), reg) /\
     versions reg !! k = Some v /\
     forall k' v', versions reg !! k' = Some v' -> (k' <= k)%Z).
Proof.
  rewrite get_latest_eq.
  destruct (decide (versions reg = ∅)) as [Hempty|Hne]; [left; auto|]. right.
  assert (Hkeys : map fst (map_to_list (versions reg)) <> []).
  { intros Hnil. apply Hne. apply map_to_list_empty_iff.
    destruct (map_to_list (versions reg)); [reflexivity | discriminate Hnil]. }
  destruct (py_max_spec _ Hkeys) as (k & Hmax & Hin & Hall). rewrite Hmax.
  apply list_elem_of_fmap in Hin as ([k0 v] & Hk & Hin). simpl in Hk. subst k0.
  apply elem_of_map_to_list in Hin. rewrite Hin.
  exists k, v. repeat split; [exact Hin|].
  intros k' v' Hk'. rewrite Forall_forall in Hall. apply Hall.
  apply list_elem_of_fmap. exists (k', v'). split; [reflexivity|].
  apply elem_of_map_to_list. exact Hk'.
Qed.

(** [get_latest] never raises and never changes the registry.  It returns
    [None] exactly when no version is stored, and otherwise the version
    stored under the greatest id. *)
Theorem get_latest_greatest_id (reg : ModelRegistry) :
  (versions reg = ∅ /\ get_latest reg = (Ok None, reg)) \/
  (exists k v,
     get_latest reg = (Ok (Some v), reg) /\
     versions reg !! k = Some v /\
     forall k' v', versions reg !! k' = Some v' -> (k' <= k)%Z).
Proof. exact (get_latest_cases reg). Qed.

Lemma save_version_returns vid w acc now reg :
  registry_ok reg ->
  exists reg',
    save_version vid w acc now reg = (Ok tt, reg') /\
    registry_ok reg' /\
    versions reg' = <[vid := mkModelVersion vid w acc now]> (versions reg).
Proof.
  intros Hok. destruct (get_best_total reg Hok) as [prev Hprev].
  destruct (save_version_total vid w acc now reg prev Hok Hprev)
    as (reg' & Hs & Hok' & Hv & _).
  eauto.
Qed.

(** The latest version follows the ids, not the order of the calls: a
    version saved under an id above all the stored ones is the latest one
    afterwards, and a version saved under an id below a stored one leaves
    the latest version as it was. *)
Theorem save_version_then_get_latest vid w acc now reg :
  registry_ok reg ->
  exists reg',
    save_version vid w acc now reg = (Ok tt, reg') /\
    ((forall k v, versions reg !! k = Some v -> (k < vid)%Z) ->
     get_latest reg' = (Ok (Some (mkModelVersion vid w acc now)), reg')) /\
    (forall k v latest,
       versions reg !! k = Some v -> (vid < k)%Z ->
       get_latest reg = (Ok (Some latest), reg) ->
       get_latest reg' = (Ok (Some latest), reg')).
Proof.
  intros Hok. destruct (save_version_returns vid w acc now reg Hok) as (reg' & Hs & _ & Hv).
  exists reg'. split; [exact Hs|].
  assert (Hstored : versions reg' !! vid = Some (mkModelVersion vid w acc now))
    by (rewrite Hv; apply lookup_insert_eq).
  destruct (get_latest_cases reg') as [[Hempty _] | (k' & v' & Hl' & Hk' & Hmax')].
  { rewrite Hempty in Hstored. rewrite lookup_empty in Hstored. discriminate. }
  split.
  - intros Hbelow. rewrite Hl'. do 3 f_equal.
    destruct (decide (k' = vid)) as [->|Hne].
    + rewrite Hstored in Hk'. inversion Hk'. reflexivity.
    + rewrite Hv, lookup_insert_ne in Hk' by congruence.
      specialize (Hbelow _ _ Hk'). specialize (Hmax' _ _ Hstored). lia.
  - intros k v latest Hk Hlt Hlatest. rewrite Hl'. do 3 f_equal.
    destruct (get_latest_cases reg) as [[_ Hnone] | (k0 & v0 & Hl0 & Hk0 & Hmax0)].
    { rewrite Hnone in Hlatest. discriminate. }
    rewrite Hl0 in Hlatest. inversion Hlatest; subst v0; clear Hlatest.
    assert (Hk0' : versions reg' !! k0 = Some latest).
    { rewrite Hv, lookup_insert_ne; [exact Hk0|]. specialize (Hmax0 _ _ Hk). lia. }
    assert (Hne : k' <> vid).
    { intros ->. specialize (Hmax' _ _ Hk0'). specialize (Hmax0 _ _ Hk). lia. }
    rewrite Hv, lookup_insert_ne in Hk' by congruence.
    specialize (Hmax0 _ _ Hk'). specialize (Hmax' _ _ Hk0').
    assert (k' = k0) by lia. subst k'. congruence.
Qed.

Lemma save_version_then_get_latest_witness :
  exists reg',
    save_version 2 [] 0.60 0 example_registry = (Ok tt, reg') /\
    get_latest reg' = (Ok (Some (mkModelVersion 2 [] 0.60 0)), reg').
Proof.
  destruct (save_version_then_get_latest 2 [] 0.60 0 example_registry example_registry_ok)
    as (reg' & Hs & Hnew & _).
  exists reg'. split; [exact Hs|]. apply Hnew.
  intros k v Hk. unfold example_registry in Hk. simpl in Hk.
  destruct (decide (k = 1%Z)) as [->|Hne]; [lia|].
  rewrite lookup_insert_ne in Hk by congruence. rewrite lookup_empty in Hk. discriminate.
Defined.

(** ** ModelRegistry: the best version *)

Lemma best_is_max_init : best_is_max ModelRegistry_init.
Proof.
  split; [left; reflexivity|]. split; [reflexivity|]. split; [apply lookup_empty|].
  intros best Hb. simpl in Hb. rewrite lookup_empty in Hb. discriminate.
Qed.

Lemma save_version_keeps_max vid w acc now reg :
  best_is_max reg -> vid <> (-1)%Z -> versions reg !! vid = None ->
  exists reg',
    save_version vid w acc now reg = (Ok tt, reg') /\
    best_is_max reg' /\
    best_version_id reg' <> (-1)%Z /\
    versions reg' = <[vid := mkModelVersion vid w acc now]> (versions reg).
Proof.
  intros (Hok & Hempty & Hsent & Hmax) Hvid Hfresh.
  destruct (get_best_total reg Hok) as [prev Hprev].
  destruct (save_version_total vid w acc now reg prev Hok Hprev)
    as (reg' & Hs & Hok' & Hv & Hb).
  exists reg'. split; [exact Hs|].
  assert (Hsent' : versions reg' !! (-1)%Z = None)
    by (rewrite Hv, lookup_insert_ne by congruence; exact Hsent).
  rewrite get_best_eq in Hprev.
  destruct (best_version_id reg =? -1)%Z eqn:E.
  - apply Z.eqb_eq in E. inversion Hprev; subst prev; clear Hprev.
    split; [|split; [congruence | exact Hv]].
    split; [exact Hok'|]. split; [intros Hm; congruence|]. split; [exact Hsent'|].
    intros best Hbest k v Hk. rewrite Hb, Hv, lookup_insert_eq in Hbest.
    inversion Hbest; subst best; clear Hbest.
    rewrite Hv, (Hempty E) in Hk.
    destruct (decide (k = vid)) as [->|Hne].
    + rewrite lookup_insert_eq in Hk. inversion Hk. simpl. lra.
    + rewrite lookup_insert_ne, lookup_empty in Hk by congruence. discriminate.
  - apply Z.eqb_neq in E.
    destruct (versions reg !! best_version_id reg) as [b|] eqn:Hbest; [|discriminate].
    inversion Hprev; subst prev; clear Hprev.
    assert (Hne : best_version_id reg <> vid) by congruence.
    destruct (Rgt_dec acc (accuracy b)) as [Hgt|Hle].
    + split; [|split; [congruence | exact Hv]].
      split; [exact Hok'|]. split; [intros Hm; congruence|]. split; [exact Hsent'|].
      intros best Hbest' k v Hk. rewrite Hb, Hv, lookup_insert_eq in Hbest'.
      inversion Hbest'; subst best; clear Hbest'. simpl.
      rewrite Hv in Hk. destruct (decide (k = vid)) as [->|Hk'].
      * rewrite lookup_insert_eq in Hk. inversion Hk. simpl. lra.
      * rewrite lookup_insert_ne in Hk by congruence.
        specialize (Hmax b eq_refl k v Hk). lra.
    + split; [|split; [congruence | exact Hv]].
      split; [exact Hok'|]. split; [intros Hm; congruence|]. split; [exact Hsent'|].
      intros best Hbest' k v Hk. rewrite Hb, Hv in Hbest'.
      rewrite lookup_insert_ne, Hbest in Hbest' by congruence.
      inversion Hbest'; subst best; clear Hbest'.
      rewrite Hv in Hk. destruct (decide (k = vid)) as [->|Hk'].
      * rewrite lookup_insert_eq in Hk. inversion Hk. simpl. lra.
      * rewrite lookup_insert_ne in Hk by congruence. exact (Hmax b eq_refl k v Hk).
Qed.

Lemma save_all_keeps_max calls : forall reg,
  best_is_max reg ->
  NoDup (map call_id calls) ->
  Forall (fun c => call_id c <> (-1)%Z /\ versions reg !! call_id c = None) calls ->
  exists reg',
    save_all calls reg = (Ok tt, reg') /\ best_is_max reg' /\
    (calls <> [] -> best_version_id reg' <> (-1)%Z) /\
    (forall k, is_Some (versions reg' !! k) <->
               is_Some (versions reg !! k) \/ k ∈ map call_id calls).
Proof.
  induction calls as [|[[[vid w] acc] now] rest IH]; intros reg Hmax Hnodup Hall.
  - exists reg. split; [reflexivity|]. split; [exact Hmax|]. split; [contradiction|].
    intros k. split.
    + intros Hk. left. exact Hk.
    + intros [Hk | Hin]; [exact Hk | inversion Hin].
  - simpl in Hnodup. apply NoDup_cons in Hnodup as [Hnotin Hnodup].
    apply Forall_cons in Hall as [[Hvid Hfresh] Hall]. unfold call_id in Hvid, Hfresh.
    simpl in Hvid, Hfresh, Hnotin.
    destruct (save_version_keeps_max vid w acc now reg Hmax Hvid Hfresh)
      as (reg1 & Hs & Hmax1 & Hb1 & Hv1).
    destruct (IH reg1 Hmax1 Hnodup) as (reg' & Hr & Hmax' & Hb' & Hdom).
    { rewrite Forall_forall in Hall. apply Forall_forall. intros c Hc.
      destruct (Hall c Hc) as [Hc1 Hc2]. split; [exact Hc1|].
      rewrite Hv1, lookup_insert_ne; [exact Hc2|].
      intros Heq. apply Hnotin. rewrite Heq. apply list_elem_of_fmap.
      exists c. split; [reflexivity | exact Hc]. }
    exists reg'. split; [|split; [exact Hmax'|split]].
    + simpl. rewrite (bind_step _ _ _ _ _ Hs). exact Hr.
    + intros _. destruct rest as [|c rest'].
      * simpl in Hr. inversion Hr; subst reg'. exact Hb1.
      * apply Hb'. discriminate.
    + intros k. rewrite Hdom. rewrite Hv1. simpl. unfold call_id at 2. simpl.
      destruct (decide (k = vid)) as [->|Hne].
      * rewrite lookup_insert_eq. split; intros _; [|left; eauto].
        right. left.
      * rewrite lookup_insert_ne by congruence. split.
        -- intros [Hk | Hin]; [left; exact Hk | right; right; exact Hin].
        -- intros [Hk | Hin]; [left; exact Hk |].
           apply elem_of_cons in Hin as [Heq | Hin]; [congruence | right; exact Hin].
Qed.

(** After [save_version] calls on a new registry under ids that are all
    different and none the sentinel -1, [get_best] returns a stored version
    that no stored version beats in accuracy, and the stored ids are the
    ids of the calls. *)
Theorem get_best_is_most_accurate (calls : list (Z * tensor * R * R)) :
  calls <> [] ->
  NoDup (map call_id calls) ->
  Forall (fun c => call_id c <> (-1)%Z) calls ->
  exists reg best,
    save_all calls ModelRegistry_init = (Ok tt, reg) /\
    get_best reg = (Ok (Some best), reg) /\
    versions reg !! best_version_id reg = Some best /\
    (forall k v, versions reg !! k = Some v -> accuracy v <= accuracy best) /\
    (forall k, is_Some (versions reg !! k) <-> k ∈ map call_id calls).
Proof.
  intros Hne Hnodup Hids.
  destruct (save_all_keeps_max calls ModelRegistry_init best_is_max_init Hnodup)
    as (reg & Hall & (Hok & _ & _ & Hmax) & Hb & Hdom).
  { eapply Forall_impl; [exact Hids|]. intros c Hc. split; [exact Hc | apply lookup_empty]. }
  specialize (Hb Hne).
  destruct Hok as [Hm | [best Hbest]]; [contradiction|].
  exists reg, best. split; [exact Hall|].
  split; [apply (get_best_lookup reg _ best eq_refl Hb Hbest)|].
  split; [exact Hbest|split].
  - exact (Hmax best Hbest).
  - intros k. rewrite Hdom. simpl. rewrite lookup_empty. split.
    + intros [[x Hx] | Hin]; [discriminate | exact Hin].
    + intros Hin. right. exact Hin.
Qed.

Lemma get_best_is_most_accurate_witness :
  exists reg best,
    save_all [(1%Z, [], 0.70, 0); (2%Z, [], 0.90, 0); (3%Z, [], 0.80, 0)]
      ModelRegistry_init = (Ok tt, reg) /\
    get_best reg = (Ok (Some best), reg) /\
    (forall k v, versions reg !! k = Some v -> accuracy v <= accuracy best).
Proof.
  destruct (get_best_is_most_accurate
              [(1%Z, [], 0.70, 0); (2%Z, [], 0.90, 0); (3%Z, [], 0.80, 0)])
    as (reg & best & Hall & Hbest & _ & Hmax & _).
  - discriminate.
  - unfold call_id. simpl.
    repeat (apply NoDup_cons_2; [rewrite ?elem_of_cons, elem_of_nil; lia|]).
    apply NoDup_nil_2.
  - repeat constructor; unfold call_id; simpl; lia.
  - exists reg, best. auto.
Defined.

(** Saving again under the id of the best version never moves the pointer,
    whatever the accuracy: the new version is compared with itself.  So
    [get_best] then returns the new version, also when its accuracy is
    below the accuracy of the version it replaces or of other stored
    versions, which are left as they were. *)
Theorem save_version_under_best_id reg best w acc now :
  get_best reg = (Ok (Some best), reg) ->
  exists reg',
    save_version (best_version_id reg) w acc now reg = (Ok tt, reg') /\
    best_version_id reg' = best_version_id reg /\
    get_best reg'
    = (Ok (Some (mkModelVersion (best_version_id reg) w acc now)), reg') /\
    (forall k, k <> best_version_id reg -> versions reg' !! k = versions reg !! k).
Proof.
  intros Hbest. pose proof Hbest as Hbest0. rewrite get_best_eq in Hbest0.
  destruct (best_version_id reg =? -1)%Z eqn:E; [discriminate|].
  apply Z.eqb_neq in E.
  destruct (versions reg !! best_version_id reg) as [b|] eqn:Hb; [|discriminate].
  assert (Hok : registry_ok reg) by (right; rewrite Hb; eauto).
  destruct (save_version_total (best_version_id reg) w acc now reg _ Hok Hbest)
    as (reg' & Hs & _ & Hv & Hp).
  assert (Hp' : best_version_id reg' = best_version_id reg)
    by (rewrite Hp; destruct (Rgt_dec acc (accuracy best)); reflexivity).
  exists reg'. split; [exact Hs|]. split; [exact Hp'|]. split.
  - apply (get_best_lookup reg' (best_version_id reg)); [exact Hp' | exact E |].
    rewrite Hv. apply lookup_insert_eq.
  - intros k Hk. rewrite Hv. apply lookup_insert_ne. congruence.
Qed.

Lemma save_version_under_best_id_witness :
  exists reg',
    save_version 1 [] 0.10 0 example_registry = (Ok tt, reg') /\
    get_best reg' = (Ok (Some (mkModelVersion 1 [] 0.10 0)), reg').
Proof.
  destruct (save_version_under_best_id example_registry example_version [] 0.10 0
              example_registry_best) as (reg' & Hs & _ & Hbest & _).
  exists reg'. split; [exact Hs | exact Hbest].
Defined.

(** The id -1 is the sentinel of the best pointer: a version saved under
    it on a new registry is stored, and [get_latest] returns it, but
    [get_best] still returns [None]; and the next version saved takes the
    pointer whatever its accuracy. *)
Theorem save_version_under_sentinel_id w acc now :
  exists reg',
    save_version (-1) w acc now ModelRegistry_init = (Ok tt, reg') /\
    versions reg' !! (-1)%Z = Some (mkModelVersion (-1) w acc now) /\
    get_best reg' = (Ok None, reg') /\
    get_latest reg' = (Ok (Some (mkModelVersion (-1) w acc now)), reg') /\
    forall vid w2 acc2 now2,
      exists reg'',
        save_version vid w2 acc2 now2 reg' = (Ok tt, reg'') /\
        best_version_id reg'' = vid.
Proof.
  destruct (save_version_total (-1) w acc now _ None registry_ok_init get_best_init)
    as (reg' & Hs & Hok & Hv & Hp).
  simpl in Hv.
  assert (Hstored : versions reg' !! (-1)%Z = Some (mkModelVersion (-1) w acc now))
    by (rewrite Hv; apply lookup_insert_eq).
  assert (Hbest : get_best reg' = (Ok None, reg'))
    by (rewrite get_best_eq, Hp; reflexivity).
  exists reg'. split; [exact Hs|]. split; [exact Hstored|]. split; [exact Hbest|]. split.
  - destruct (get_latest_cases reg') as [[Hempty _] | (k & v & Hl & Hk & _)].
    + rewrite Hempty, lookup_empty in Hstored. discriminate.
    + rewrite Hl. do 3 f_equal. rewrite Hv in Hk.
      destruct (decide (k = (-1)%Z)) as [->|Hne].
      * rewrite lookup_insert_eq in Hk. inversion Hk. reflexivity.
      * rewrite lookup_insert_ne, lookup_empty in Hk by congruence. discriminate.
  - intros vid w2 acc2 now2.
    destruct (save_version_total vid w2 acc2 now2 reg' None Hok Hbest)
      as (reg'' & Hs2 & _ & _ & Hp2).
    exists reg''. split; [exact Hs2 | exact Hp2].
Qed.

(** ** Epsilon *)

Lemma _compute_epsilon_finite sigma n delta :
  sigma <> 0 -> 0 < delta < 1.25 ->
  _compute_epsilon sigma n delta = Ok (fin (sqrt (2 * ln (1.25 / delta)) / sigma)) /\
  0 < sqrt (2 * ln (1.25 / delta)).
Proof.
  intros Hsigma [Hd0 Hd1].
  assert (Hq : 1 < 1.25 / delta).
  { apply (Rmult_lt_reg_r delta); [exact Hd0|]. unfold Rdiv.
    rewrite Rmult_assoc, Rinv_l by lra. lra. }
  assert (Hln : 0 < ln (1.25 / delta)) by (rewrite <- ln_1; apply ln_increasing; lra).
  split.
  - unfold _compute_epsilon, float_truediv, np_log, np_sqrt.
    destruct (Req_dec_T sigma 0); [contradiction|].
    destruct (Req_dec_T delta 0); [exfalso; lra|]. simpl.
    destruct (Rle_dec (1.25 / delta) 0); [exfalso; lra|]. simpl.
    destruct (Rlt_dec (2 * ln (1.25 / delta)) 0); [exfalso; lra|]. reflexivity.
  - apply sqrt_lt_R0. lra.
Qed.

(** Epsilon monotonicity: for a delta between 0 and 1.25 and any sample
    count, a larger positive sigma gives a strictly smaller epsilon, and
    the epsilon of a positive sigma is positive. *)
Theorem _compute_epsilon_decreasing sigma1 sigma2 n delta :
  0 < delta < 1.25 -> 0 < sigma1 < sigma2 ->
  exists e1 e2,
    _compute_epsilon sigma1 n delta = Ok (fin e1) /\
    _compute_epsilon sigma2 n delta = Ok (fin e2) /\
    0 < e2 < e1.
Proof.
  intros Hdelta [H1 H12].
  destruct (_compute_epsilon_finite sigma1 n delta) as [He1 Hroot]; [lra | exact Hdelta |].
  destruct (_compute_epsilon_finite sigma2 n delta) as [He2 _]; [lra | exact Hdelta |].
  eexists. eexists. split; [exact He1|]. split; [exact He2|].
  set (root := sqrt (2 * ln (1.25 / delta))) in *.
  assert (Hinv : / sigma2 < / sigma1) by (apply Rinv_lt_contravar; nra).
  assert (Hpos : 0 < / sigma2) by (apply Rinv_0_lt_compat; lra).
  unfold Rdiv. split; nra.
Qed.

Lemma _compute_epsilon_decreasing_witness :
  exists e1 e2,
    _compute_epsilon 0.15 10 1e-5 = Ok (fin e1) /\
    _compute_epsilon 0.5 10 1e-5 = Ok (fin e2) /\
    0 < e2 < e1.
Proof. apply _compute_epsilon_decreasing; lra. Defined.

(** The checks of [_compute_epsilon] in their order: a zero sigma gives the
    infinity whatever delta is, also a zero delta; with another sigma a
    zero delta raises [ZeroDivisionError]; and a negative sigma is not
    refused but gives a negative epsilon. *)
Theorem _compute_epsilon_edge_cases :
  (forall n delta, _compute_epsilon 0 n delta = Ok pinf) /\
  (forall sigma n, sigma <> 0 -> _compute_epsilon sigma n 0 = Raise ZeroDivisionError) /\
  (forall sigma n delta,
     sigma < 0 -> 0 < delta < 1.25 ->
     exists e, _compute_epsilon sigma n delta = Ok (fin e) /\ e < 0).
Proof.
  split; [|split].
  - intros n delta. unfold _compute_epsilon.
    destruct (Req_dec_T 0 0); [reflexivity | contradiction].
  - intros sigma n Hsigma. unfold _compute_epsilon, float_truediv.
    destruct (Req_dec_T sigma 0); [contradiction|].
    destruct (Req_dec_T 0 0); [reflexivity | contradiction].
  - intros sigma n delta Hsigma Hdelta.
    destruct (_compute_epsilon_finite sigma n delta) as [He Hroot]; [lra | exact Hdelta |].
    eexists. split; [exact He|].
    assert (Hinv : / sigma < 0) by (apply Rinv_lt_0_compat; exact Hsigma).
    unfold Rdiv. nra.
Qed.

Lemma _compute_epsilon_edge_cases_witness :
  exists e, _compute_epsilon (-0.15) 10 1e-5 = Ok (fin e) /\ e < 0.
Proof. apply (proj2 (proj2 _compute_epsilon_edge_cases)); lra. Defined.

(** ** Aggregation *)

Lemma aggregate_loop_Ok_length N pairs : forall a t,
  aggregate_loop N pairs a = Ok t -> length t = length a.
Proof.
  induction pairs as [|[w n] rest IH]; intros a t H; simpl in H.
  - inversion H. reflexivity.
  - inv_rbind H as c Hc. inv_rbind H as a' Ha'.
    apply zip_with_shape_Ok in Ha' as [Hlen ->].
    apply IH in H. rewrite H, length_zip_with. lia.
Qed.

Lemma fedavg_aggregate_shapes :
  (forall ws ns t,
     _fedavg_aggregate ws ns = Ok t ->
     exists w0 rest, ws = w0 :: rest /\ length t = length w0) /\
  (forall w0 ws ns,
     Forall (fun w => length w = length w0) ws -> sumZ ns <> 0%Z ->
     exists t, _fedavg_aggregate (w0 :: ws) ns = Ok t /\ length t = length w0).
Proof.
  split.
  - intros [|w0 rest] ns t H; [discriminate H|].
    exists w0, rest. split; [reflexivity|].
    unfold _fedavg_aggregate, index in H. simpl in H.
    apply aggregate_loop_Ok_length in H. rewrite H. unfold zeros_like. apply length_map.
  - intros w0 ws ns Hshape HN. eexists. split.
    + apply fedavg_aggregate_total; assumption.
    + apply length_fedavg_rule. exact Hshape.
Qed.

(** Shape invariance: whenever the aggregation returns, there is a first
    weight tensor and the result has its number of elements; and it does
    return on tensors of one shape when the counts do not sum to zero. *)
Theorem _fedavg_aggregate_shape :
  (forall ws ns t,
     _fedavg_aggregate ws ns = Ok t ->
     exists w0 rest, ws = w0 :: rest /\ length t = length w0) /\
  (forall w0 ws ns,
     Forall (fun w => length w = length w0) ws -> sumZ ns <> 0%Z ->
     exists t, _fedavg_aggregate (w0 :: ws) ns = Ok t /\ length t = length w0).
Proof. exact fedavg_aggregate_shapes. Qed.

Lemma _fedavg_aggregate_shape_witness :
  exists t, _fedavg_aggregate [[1; 2]; [3; 4]] [1%Z; 3%Z] = Ok t /\ length t = 2%nat.
Proof.
  apply (proj2 _fedavg_aggregate_shape [1; 2] [[3; 4]] [1%Z; 3%Z]).
  - repeat constructor.
  - unfold sumZ. simpl. lia.
Defined.

(** Sample counts that sum to zero make the aggregation of a non-empty list
    of weights against a non-empty list of counts fail with
    [ZeroDivisionError]. *)
Theorem _fedavg_aggregate_zero_total w0 ws n0 ns :
  sumZ (n0 :: ns) = 0%Z ->
  _fedavg_aggregate (w0 :: ws) (n0 :: ns) = Raise ZeroDivisionError.
Proof.
  intros HN. unfold _fedavg_aggregate, index. simpl.
  unfold int_truediv. rewrite HN. reflexivity.
Qed.

Lemma _fedavg_aggregate_zero_total_witness :
  _fedavg_aggregate [[1]; [2]] [3%Z; (-3)%Z] = Raise ZeroDivisionError.
Proof. apply _fedavg_aggregate_zero_total. reflexivity. Defined.

Lemma tensor_sum_scaled (w : tensor) (cs : list R) :
  tensor_sum (length w) (map (fun c => scale c w) cs) = scale (foldr Rplus 0 cs) w.
Proof.
  induction cs as [|c cs IH].
  - unfold tensor_sum, scale. simpl. induction w as [|x w IHw]; simpl; [reflexivity|].
    rewrite IHw. f_equal. ring.
  - change (tensor_sum (length w) (map (fun c => scale c w) (c :: cs)))
      with (zip_with Rplus (scale c w) (tensor_sum (length w) (map (fun c => scale c w) cs))).
    rewrite IH. unfold scale. simpl. generalize (foldr Rplus 0 cs). intros r. clear.
    induction w as [|x w IHw]; simpl; [reflexivity|]. rewrite IHw. f_equal. ring.
Qed.

Lemma foldr_Rplus_coefficients (D : R) (ns : list Z) :
  foldr Rplus 0 (map (fun n => IZR n / D) ns) = IZR (foldr Z.add 0%Z ns) / D.
Proof.
  induction ns as [|n ns IH]; simpl.
  - unfold Rdiv. ring.
  - rewrite IH, plus_IZR. unfold Rdiv. ring.
Qed.

(** The average of equal tensors is that tensor (the coefficients sum to
    one): when every node sends the same weights, the aggregation returns
    them, for all counts whose sum is not zero. *)
Theorem _fedavg_aggregate_equal_weights (w : tensor) (ns : list Z) :
  sumZ ns <> 0%Z ->
  _fedavg_aggregate (replicate (length ns) w) ns = Ok w.
Proof.
  intros HN. destruct ns as [|n0 ns]; [exfalso; apply HN; reflexivity|].
  simpl replicate. rewrite fedavg_aggregate_total; [| |exact HN].
  - f_equal. unfold fedavg_rule.
    change (w :: replicate (length ns) w) with (replicate (length (n0 :: ns)) w).
    set (N := foldr Z.add 0%Z (n0 :: ns)).
    assert (Hzip : map (fun p : tensor * Z => scale (IZR (snd p) / IZR N) (fst p))
                     (zip (replicate (length (n0 :: ns)) w) (n0 :: ns))
                   = map (fun c => scale c w) (map (fun n => IZR n / IZR N) (n0 :: ns))).
    { generalize (n0 :: ns). intros l. induction l as [|x l IH]; simpl; [reflexivity|].
      rewrite IH. reflexivity. }
    rewrite Hzip. simpl length at 1. rewrite tensor_sum_scaled.
    rewrite foldr_Rplus_coefficients. fold N.
    assert (HN' : IZR N <> 0) by (apply not_0_IZR; unfold N; rewrite <- sumZ_foldr; exact HN).
    replace (IZR N / IZR N) with 1 by (field; exact HN').
    unfold scale. clear. induction w as [|x w IH]; simpl; [reflexivity|].
    rewrite IH. f_equal. ring.
  - apply Forall_forall. intros x Hx. apply elem_of_replicate in Hx as [-> _]. reflexivity.
Qed.

Lemma _fedavg_aggregate_equal_weights_witness :
  _fedavg_aggregate (replicate 3 [1; 2]) [150%Z; 200%Z; 799%Z] = Ok [1; 2].
Proof.
  apply (_fedavg_aggregate_equal_weights [1; 2] [150%Z; 200%Z; 799%Z]).
  unfold sumZ. simpl. lia.
Defined.

(** ** Noise *)

(** The failures of [_add_dp_noise], which leave the engine as it was: a
    sample count of zero raises [ZeroDivisionError], and a sigma and a
    sample count of opposite signs make the scale of the noise negative,
    which raises [ValueError]. *)
Theorem _add_dp_noise_failures w n s :
  (n = 0%Z ->
   exists s', _add_dp_noise w n s = (Raise ZeroDivisionError, s') /\
              engine s' = engine s) /\
  (dp_sigma (engine s) * IZR n < 0 ->
   exists s', _add_dp_noise w n s = (Raise ValueError, s') /\ engine s' = engine s).
Proof.
  split.
  - intros ->. unfold _add_dp_noise, bind, in_world, zoom, count_dp_noise_call, modify,
      self, lift, float_truediv. simpl.
    destruct (Req_dec_T 0 0); [eauto | contradiction].
  - intros Hsign.
    assert (Hn : IZR n <> 0) by (intros H0; rewrite H0 in Hsign; lra).
    pose proof (scale_refused _ _ (or_introl Hsign)) as Hscale.
    unfold _add_dp_noise, bind, in_world, zoom, count_dp_noise_call, modify,
      self, lift, float_truediv, random_normal_n. simpl.
    destruct (Req_dec_T (IZR n) 0); [contradiction|].
    rewrite Hscale. eauto.
Qed.

Lemma _add_dp_noise_failures_witness :
  exists s',
    _add_dp_noise [1; 2] 0 (mkSys (example_engine true ModelRegistry_init) example_world)
    = (Raise ZeroDivisionError, s').
Proof.
  destruct (proj1 (_add_dp_noise_failures [1; 2] 0
              (mkSys (example_engine true ModelRegistry_init) example_world)) eq_refl)
    as (s' & H & _).
  exists s'. exact H.
Defined.



(** ** Local training *)

Lemma epoch_update (rate root : R) (w : tensor) : forall z : tensor,
  length z = length w ->
  zip_with Rminus w
    (scale rate (zip_with Rplus (scale_r (neg w) 0.08)
                                (scale_r (scale_r z (1.0 / root)) 0.15)))
  = zip_with (fun x d => x * (1 + 0.08 * rate) - rate * 0.15 * d / root) w z.
Proof.
  induction w as [|x w IH]; intros [|d z] Hlen; simpl in *; try discriminate.
  - reflexivity.
  - rewrite IH by lia. f_equal. unfold Rdiv. lra.
Qed.

Lemma local_epoch_run node w s :
  count_ok (n_samples node) ->
  local_epoch node w s =
  (Ok (zip_with (fun x d => x * (1 + 0.08 * lr (engine s))
                            - lr (engine s) * 0.15 * d / sqrt (IZR (n_samples node)))
         w (map (normals (world s)) (seq (cursor (world s)) (length w)))),
   mkSys (engine s) (advance (length w) (world s))).
Proof.
  intros Hn. destruct (np_sqrt_int_count _ Hn) as [Hsqrt Hroot].
  unfold local_epoch, bind, self, in_world, zoom, randn, lift. rewrite Hsqrt. simpl.
  destruct (Req_dec_T (sqrt (IZR (n_samples node))) 0); [contradiction|].
  unfold tadd, tsub.
  rewrite zip_with_shape_total
    by (rewrite !length_scale_r, length_neg, length_map, length_seq; reflexivity).
  rewrite zip_with_shape_total
    by (rewrite length_scale, length_zip_with, !length_scale_r, length_neg,
          length_map, length_seq; lia).
  rewrite epoch_update by (rewrite length_map, length_seq; reflexivity).
  reflexivity.
Qed.

(** One local epoch in closed form: on a node whose sample count is
    positive and below 2^64 every weight x becomes
    x (1 + 0.08 lr) - lr 0.15 z / sqrt(n_samples) for its own standard
    normal draw z.  With a positive learning rate the step without the
    noise makes the weights larger in absolute value, not smaller. *)
Theorem _simulate_local_training_one_epoch node g s :
  (0 < n_samples node < 2 ^ 64)%Z ->
  _simulate_local_training node g 1 s =
  (Ok (zip_with (fun x d => x * (1 + 0.08 * lr (engine s))
                            - lr (engine s) * 0.15 * d / sqrt (IZR (n_samples node)))
         g (map (normals (world s)) (seq (cursor (world s)) (length g)))),
   mkSys (engine s) (advance (length g) (world s))).
Proof.
  intros Hn. unfold _simulate_local_training. simpl.
  rewrite (bind_step _ _ _ _ _ (local_epoch_run node g s Hn)). reflexivity.
Qed.

Lemma _simulate_local_training_one_epoch_witness :
  exists w' s',
    _simulate_local_training example_node [1; 2] 1
      (mkSys (example_engine true ModelRegistry_init) example_world) = (Ok w', s').
Proof.
  eexists. eexists. apply _simulate_local_training_one_epoch. simpl. lia.
Defined.

Lemma advance_advance a b w : advance a (advance b w) = advance (b + a) w.
Proof. unfold advance. simpl. f_equal. lia. Qed.

Lemma local_epochs_loop_run k node :
  count_ok (n_samples node) ->
  forall w s, exists w',
    local_epochs_loop k node w s
    = (Ok w', mkSys (engine s) (advance (k * length w) (world s))) /\
    length w' = length w.
Proof.
  intros Hn. induction k as [|k IH]; intros w s; simpl.
  - exists w. split; [|reflexivity]. unfold ret, advance. destruct s as [e [a b c d f g h]].
    simpl. rewrite Nat.add_0_r. reflexivity.
  - rewrite (bind_step _ _ _ _ _ (local_epoch_run node w s Hn)).
    match goal with |- context [local_epochs_loop k node ?w1 ?s1] =>
      destruct (IH w1 s1) as (w' & Hrun & Hlen) end.
    assert (Hl : length (zip_with (fun x d => x * (1 + 0.08 * lr (engine s))
                              - lr (engine s) * 0.15 * d / sqrt (IZR (n_samples node)))
                    w (map (normals (world s)) (seq (cursor (world s)) (length w))))
                 = length w)
      by (rewrite length_zip_with, length_map, length_seq; lia).
    exists w'. rewrite Hrun. simpl. rewrite Hl in *. rewrite advance_advance.
    split; [reflexivity | exact Hlen].
Qed.

(** Local training on a node whose sample count is positive and below 2^64
    returns weights of the shape of the global weights, leaves the engine
    as it was and consumes one normal draw for each weight and epoch.  With
    no epoch to run (a number of epochs of zero or below) it returns the
    global weights and consumes nothing, on every node.  On a node whose
    sample count is 2^64 or more the first epoch draws its normals and
    then fails with [TypeError], the count having no square root. *)
Theorem _simulate_local_training_frame node g epochs s :
  ((0 < n_samples node < 2 ^ 64)%Z ->
   exists w',
     _simulate_local_training node g epochs s
     = (Ok w', mkSys (engine s) (advance (Z.to_nat epochs * length g) (world s))) /\
     length w' = length g) /\
  ((epochs <= 0)%Z -> _simulate_local_training node g epochs s = (Ok g, s)) /\
  ((2 ^ 64 <= n_samples node)%Z -> (0 < epochs)%Z ->
   _simulate_local_training node g epochs s
   = (Raise TypeError, mkSys (engine s) (advance (length g) (world s)))).
Proof.
  split; [|split].
  - intros Hn. apply local_epochs_loop_run. exact Hn.
  - intros He. unfold _simulate_local_training.
    replace (Z.to_nat epochs) with 0%nat by lia. reflexivity.
  - intros Hn He. unfold _simulate_local_training.
    destruct (Z.to_nat epochs) as [|k] eqn:E; [lia|]. simpl.
    apply bind_raise.
    unfold local_epoch, bind, self, in_world, zoom, randn, lift.
    rewrite (np_sqrt_int_large _ Hn). reflexivity.
Qed.

Lemma _simulate_local_training_frame_witness :
  exists w',
    _simulate_local_training example_node [1; 2] 3
      (mkSys (example_engine true ModelRegistry_init) example_world)
    = (Ok w', mkSys (example_engine true ModelRegistry_init) (advance 6 example_world)) /\
    length w' = 2%nat.
Proof.
  apply (proj1 (_simulate_local_training_frame example_node [1; 2] 3
                  (mkSys (example_engine true ModelRegistry_init) example_world))).
  simpl. lia.
Defined.

(** With a learning rate of zero local training on a node whose sample
    count is positive and below 2^64 returns the global weights as they
    are, whatever the number of epochs. *)
Theorem _simulate_local_training_zero_rate node g epochs s :
  (0 < n_samples node < 2 ^ 64)%Z -> lr (engine s) = 0 ->
  exists s', _simulate_local_training node g epochs s = (Ok g, s') /\
             engine s' = engine s.
Proof.
  intros Hn Hrate. unfold _simulate_local_training.
  generalize (Z.to_nat epochs). intros k. revert s Hrate.
  induction k as [|k IH]; intros s Hrate; simpl.
  - exists s. split; reflexivity.
  - rewrite (bind_step _ _ _ _ _ (local_epoch_run node g s Hn)). rewrite Hrate.
    assert (Hsame : forall z : tensor, length z = length g ->
              zip_with (fun x d => x * (1 + 0.08 * 0)
                                   - 0 * 0.15 * d / sqrt (IZR (n_samples node))) g z = g).
    { clear. induction g as [|x g IHg]; intros [|d z] Hlen; simpl in *; try discriminate.
      - reflexivity.
      - rewrite IHg by lia. f_equal. unfold Rdiv. lra. }
    rewrite Hsame by (rewrite length_map, length_seq; reflexivity).
    destruct (IH (mkSys (engine s) (advance (length g) (world s))) Hrate) as (s' & Hrun & He).
    exists s'. split; [exact Hrun | exact He].
Qed.

Lemma _simulate_local_training_zero_rate_witness :
  exists s',
    _simulate_local_training example_node [1; 2] 3
      (mkSys (mkFedAvgEngine 1 true 0.15 0 1 [example_node] [1; 2] [] ModelRegistry_init)
             example_world)
    = (Ok [1; 2], s').
Proof.
  destruct (_simulate_local_training_zero_rate example_node [1; 2] 3
              (mkSys (mkFedAvgEngine 1 true 0.15 0 1 [example_node] [1; 2] []
                        ModelRegistry_init) example_world))
    as (s' & H & _); [simpl; lia | reflexivity |].
  exists s'. exact H.
Defined.

(** ** Accuracy estimate *)

Lemma np_clip_monotone x y lo hi : x <= y -> np_clip x lo hi <= np_clip y lo hi.
Proof.
  intros H. unfold np_clip, Rmin, Rmax.
  destruct (Rle_dec x lo), (Rle_dec y lo);
    repeat match goal with |- context [Rle_dec ?a ?b] => destruct (Rle_dec a b) end; lra.
Qed.

(** The accuracy estimate always returns, lies in [0.50, 0.99], consumes
    one normal draw, and does not depend on the weights it is given; for
    one draw and a target of 0.60 or more it does not decrease from a round
    to a later one. *)
Theorem _compute_accuracy_estimate :
  (forall w r target wd,
     exists a, _compute_accuracy w r target wd = (Ok a, advance 1 wd) /\
               0.50 <= a <= 0.99) /\
  (forall w1 w2 r target wd,
     _compute_accuracy w1 r target wd = _compute_accuracy w2 r target wd) /\
  (forall w r1 r2 target wd a1 a2 wd1 wd2,
     0.60 <= target -> (r1 <= r2)%Z ->
     _compute_accuracy w r1 target wd = (Ok a1, wd1) ->
     _compute_accuracy w r2 target wd = (Ok a2, wd2) ->
     a1 <= a2).
Proof.
  split; [exact _compute_accuracy_run | split; [reflexivity|]].
  intros w r1 r2 target wd a1 a2 wd1 wd2 Htarget Hr H1 H2.
  unfold _compute_accuracy, bind, random_normal, ret in H1, H2.
  destruct (Rlt_dec 0.008 0); [exfalso; lra|].
  inversion H1; subst a1 wd1; clear H1. inversion H2; subst a2 wd2; clear H2.
  apply np_clip_monotone.
  assert (He : exp (- 0.4 * (IZR r2 - 8)) <= exp (- 0.4 * (IZR r1 - 8))).
  { apply IZR_le in Hr.
    destruct (Req_dec_T (IZR r1) (IZR r2)) as [->|Hne]; [lra|].
    left. apply exp_increasing. lra. }
  pose proof (exp_pos (- 0.4 * (IZR r1 - 8))) as Hp1.
  pose proof (exp_pos (- 0.4 * (IZR r2 - 8))) as Hp2.
  assert (Hprog : 1.0 / (1.0 + exp (- 0.4 * (IZR r1 - 8)))
                  <= 1.0 / (1.0 + exp (- 0.4 * (IZR r2 - 8)))).
  { unfold Rdiv. apply Rmult_le_compat_l; [lra|]. apply Rinv_le_contravar; lra. }
  nra.
Qed.

Lemma _compute_accuracy_estimate_witness :
  exists a1 a2,
    _compute_accuracy [] 3 0.86 example_world = (Ok a1, advance 1 example_world) /\
    _compute_accuracy [] 9 0.86 example_world = (Ok a2, advance 1 example_world) /\
    a1 <= a2.
Proof.
  destruct (proj1 _compute_accuracy_estimate [] 3%Z 0.86 example_world) as (a1 & H1 & _).
  destruct (proj1 _compute_accuracy_estimate [] 9%Z 0.86 example_world) as (a2 & H2 & _).
  exists a1, a2. split; [exact H1|]. split; [exact H2|].
  apply (proj2 (proj2 _compute_accuracy_estimate) [] 3%Z 9%Z 0.86 example_world
           a1 a2 (advance 1 example_world) (advance 1 example_world));
    [lra | lia | exact H1 | exact H2].
Defined.

(** ** A round: random draws, node accuracies, divergence *)

Lemma local_epochs_loop_cursor k node : forall w s w' s',
  local_epochs_loop k node w s = (Ok w', s') ->
  cursor (world s') = (cursor (world s) + k * length w)%nat /\
  ticks (world s') = ticks (world s).
Proof.
  induction k as [|k IH]; intros w s w' s' H; simpl in H.
  - apply ret_Ok in H as [-> ->]. split; [lia | reflexivity].
  - inv_bind H as w1 s1 H1.
    pose proof (local_epoch_Ok _ _ _ _ _ H1) as (_ & _ & Hlen).
    apply IH in H as [Hc Ht]. rewrite Hc, Ht, Hlen. clear Hc Ht IH.
    unfold local_epoch in H1.
    inv_bind H1 as e s2 He. apply self_Ok in He as [-> ->].
    inv_bind H1 as z s2 Hz. apply in_world_Ok in Hz as (w2 & Hz & ->).
    apply randn_Ok in Hz as [_ ->].
    inv_bind H1 as root s2 Hroot. apply lift_Ok in Hroot as [_ ->].
    destruct (Req_dec_T root 0); [discriminate H1|].
    inv_bind H1 as g s2 Hg. apply lift_Ok in Hg as [_ ->]. apply lift_Ok in H1 as [_ ->].
    simpl. split; [lia | reflexivity].
Qed.

Lemma _add_dp_noise_cursor w n s w' s' :
  _add_dp_noise w n s = (Ok w', s') ->
  cursor (world s') = (cursor (world s) + length w)%nat /\
  ticks (world s') = ticks (world s).
Proof.
  unfold _add_dp_noise. intros H.
  inv_bind H as u s1 Hu. apply in_world_Ok in Hu as (w1 & Hu & ->).
  unfold count_dp_noise_call, modify in Hu. inversion Hu; subst w1; clear Hu.
  inv_bind H as e s1 He. apply self_Ok in He as [-> ->].
  inv_bind H as sens s1 Hsens. apply lift_Ok in Hsens as [_ ->].
  inv_bind H as noise s1 Hnoise. apply in_world_Ok in Hnoise as (w1 & Hnoise & ->).
  apply random_normal_n_Ok in Hnoise as [_ ->].
  apply lift_Ok in H as [_ ->]. simpl. split; reflexivity.
Qed.

Lemma train_node_more r u node s u' s' :
  train_node r u node s = (Ok u', s') ->
  cursor (world s') = (cursor (world s) + draws_per_node (engine s))%nat /\
  ticks (world s') = ticks (world s) /\
  exists a, 0.5 <= a <= 0.99 /\ node_accs u' = <[node_id node := a]> (node_accs u).
Proof.
  unfold train_node. intros H.
  inv_bind H as e s1 He. apply self_Ok in He as [-> ->].
  inv_bind H as w1 s1 Hw1.
  pose proof (_simulate_local_training_Ok _ _ _ _ _ _ Hw1) as (He1 & _ & Hl1).
  apply local_epochs_loop_cursor in Hw1 as [Hc1 Ht1].
  inv_bind H as w2 s2 Hw2.
  assert (Hstep : cursor (world s2)
                  = (cursor (world s1)
                     + noise_calls (engine s) (length (global_weights (engine s))))%nat /\
                  ticks (world s2) = ticks (world s1)).
  { unfold noise_calls. destruct (dp_enabled (engine s)).
    - apply _add_dp_noise_cursor in Hw2 as [Hc2 Ht2]. rewrite Hc2, Ht2, Hl1. auto.
    - apply ret_Ok in Hw2 as [-> ->]. split; [lia | reflexivity]. }
  destruct Hstep as [Hc2 Ht2].
  inv_bind H as a s3 Ha. apply in_world_Ok in Ha as (wd3 & Ha & ->).
  destruct (_compute_accuracy_run w2 r 0.86 (world s2)) as (a' & Ha' & _).
  rewrite Ha' in Ha. inversion Ha; subst a' wd3; clear Ha.
  inv_bind H as z s4 Hz. apply in_world_Ok in Hz as (wd4 & Hz & ->).
  apply random_normal_Ok in Hz as ->.
  apply ret_Ok in H as [-> ->]. simpl.
  split; [|split; [congruence|]].
  - rewrite Hc2, Hc1. unfold draws_per_node. simpl Z.to_nat. lia.
  - eexists. split; [|reflexivity]. apply np_clip_bounds. lra.
Qed.

Lemma train_nodes_more r nodes : forall u s u' s',
  train_nodes r u nodes s = (Ok u', s') ->
  cursor (world s') = (cursor (world s) + length nodes * draws_per_node (engine s))%nat /\
  ticks (world s') = ticks (world s) /\
  (forall id, is_Some (node_accs u' !! id) <->
              is_Some (node_accs u !! id) \/ id ∈ map node_id nodes) /\
  ((forall id a, node_accs u !! id = Some a -> 0.5 <= a <= 0.99) ->
   forall id a, node_accs u' !! id = Some a -> 0.5 <= a <= 0.99).
Proof.
  induction nodes as [|node rest IH]; intros u s u' s' H; simpl in H.
  - apply ret_Ok in H as [-> ->]. split; [simpl; lia|]. split; [reflexivity|]. split.
    + intros id. split; [intros Hi; left; exact Hi|].
      intros [Hi | Hin]; [exact Hi | inversion Hin].
    + intros Hu. exact Hu.
  - inv_bind H as u1 s1 H1.
    pose proof (train_node_Ok _ _ _ _ _ _ H1) as (He1 & _).
    apply train_node_more in H1 as (Hc1 & Ht1 & a & Ha & Hacc1).
    apply IH in H as (Hc & Ht & Hdom & Hrange). rewrite He1 in Hc.
    split; [simpl; lia|]. split; [congruence|]. split.
    + intros id. rewrite Hdom, Hacc1. simpl.
      destruct (decide (id = node_id node)) as [->|Hne].
      * rewrite lookup_insert_eq. split; intros _; [right; left | left; eauto].
      * rewrite lookup_insert_ne by congruence. split.
        -- intros [Hi | Hin]; [left; exact Hi | right; right; exact Hin].
        -- intros [Hi | Hin]; [left; exact Hi |].
           apply elem_of_cons in Hin as [Heq | Hin]; [congruence | right; exact Hin].
    + intros Hu. apply Hrange. intros id b Hb. rewrite Hacc1 in Hb.
      destruct (decide (id = node_id node)) as [->|Hne].
      * rewrite lookup_insert_eq in Hb. inversion Hb; subst b. exact Ha.
      * rewrite lookup_insert_ne in Hb by congruence. exact (Hu id b Hb).
Qed.

Lemma sumR_nonneg (l : list R) : Forall (fun x => 0 <= x) l -> 0 <= sumR l.
Proof.
  intros H. unfold sumR.
  assert (Hgen : forall a, 0 <= a -> 0 <= foldl Rplus a l).
  { induction H as [|x l Hx _ IH]; intros a Ha; simpl; [exact Ha|]. apply IH. lra. }
  apply Hgen. lra.
Qed.

Lemma np_mean_nonneg (l : list R) (d : R) :
  np_mean l = Ok d -> Forall (fun x => 0 <= x) l -> 0 <= d.
Proof.
  destruct l as [|x l]; [discriminate|]. intros H Hall.
  assert (Hd : d = sumR (x :: l) / INR (length (x :: l)))
    by (unfold np_mean in H; congruence).
  rewrite Hd. apply Rmult_le_pos; [apply sumR_nonneg; exact Hall|].
  left. apply Rinv_0_lt_compat. apply lt_0_INR. simpl. lia.
Qed.

Lemma rmap_norms_nonneg g (ws : list tensor) (norms : list R) :
  rmap (fun w => rbind (tsub w g) (fun d => Ok (linalg_norm d))) ws = Ok norms ->
  Forall (fun x => 0 <= x) norms /\ length norms = length ws.
Proof.
  revert norms. induction ws as [|w ws IH]; intros norms H; simpl in H.
  - inversion H. split; [constructor | reflexivity].
  - inv_rbind H as x Hx. inv_rbind H as xs Hxs. inversion H; subst norms; clear H.
    inv_rbind Hx as d Hd. inversion Hx; subst x.
    destruct (IH _ Hxs) as [Hall Hlen].
    split; [constructor; [apply sqrt_pos | exact Hall] | simpl; lia].
Qed.

Lemma run_round_candidate_more r s c s' :
  run_round_candidate r s = (Ok c, s') ->
  cursor (world s')
  = (cursor (world s)
     + length (hospitals (engine s)) * draws_per_node (engine s) + 1)%nat /\
  ticks (world s') = ticks (world s) /\
  0 <= cand_divergence c /\
  length (cand_global c) = length (global_weights (engine s)) /\
  (forall id, is_Some (node_accs (cand_updates c) !! id)
              <-> id ∈ map node_id (hospitals (engine s))) /\
  (forall id a, node_accs (cand_updates c) !! id = Some a -> 0.5 <= a <= 0.99).
Proof.
  unfold run_round_candidate. intros H.
  inv_bind H as e s1 He. apply self_Ok in He as [-> ->].
  inv_bind H as u s1 Hu.
  pose proof (train_nodes_Ok _ _ _ _ _ _ Hu) as (He & _ & _ & ws & Hws & _ & Hshape).
  apply train_nodes_more in Hu as (Hc & Ht & Hdom & Hrange).
  simpl in Hws, Hdom, Hrange.
  inv_bind H as g s2 Hg. apply lift_Ok in Hg as [Hg ->].
  inv_bind H as norms s2 Hn. apply lift_Ok in Hn as [Hn ->].
  inv_bind H as d s2 Hd. apply lift_Ok in Hd as [Hd ->].
  assert (Hdiv : 0 <= d).
  { apply rmap_norms_nonneg in Hn as [Hall _]. exact (np_mean_nonneg _ _ Hd Hall). }
  inv_bind H as a s2 Ha. apply in_world_Ok in Ha as (wd & Ha & ->).
  destruct (_compute_accuracy_run g r 0.86 (world s1)) as (a' & Ha' & _).
  rewrite Ha' in Ha. inversion Ha; subst a' wd; clear Ha.
  apply ret_Ok in H as [-> ->]. simpl.
  split; [lia|]. split; [exact Ht|]. split; [exact Hdiv|split; [|split]].
  - destruct (proj1 fedavg_aggregate_shapes _ _ _ Hg) as (w0 & rest & Hw0 & Hlg).
    rewrite Hlg. rewrite Hws in Hw0. rewrite Hw0 in Hshape.
    apply Forall_cons in Hshape as [Hshape _]. exact Hshape.
  - intros id. rewrite Hdom. rewrite lookup_empty. split.
    + intros [[x Hx] | Hin]; [discriminate | exact Hin].
    + intros Hin. right. exact Hin.
  - apply Hrange. intros id b Hb. rewrite lookup_empty in Hb. discriminate.
Qed.

Lemma run_round_commit_more r c s res s' :
  run_round_commit r c s = (Ok res, s') ->
  cursor (world s') = cursor (world s) /\
  ticks (world s') = S (ticks (world s)) /\
  exists prev g a rb reg',
    get_best (registry (engine s)) = (Ok prev, registry (engine s)) /\
    rollback_check prev c = (g, a, rb) /\
    save_version r g a (clock (world s) (ticks (world s))) (registry (engine s))
    = (Ok tt, reg') /\
    registry (engine s') = reg' /\
    global_weights (engine s') = g /\
    global_accuracy res = a /\
    global_loss res = 1.0 - a /\
    weight_divergence res = cand_divergence c /\
    node_accuracies res = node_accs (cand_updates c).
Proof.
  unfold run_round_commit. intros H.
  inv_bind H as prev s1 Hprev. apply in_registry_Ok in Hprev as (reg1 & Hprev & ->).
  pose proof (get_best_Ok _ _ _ Hprev) as ->. rewrite set_registry_same in H.
  destruct (rollback_check prev c) as [[g a] rb] eqn:Hrb.
  inv_bind H as now s1 Hnow. apply in_world_Ok in Hnow as (wd1 & Hnow & ->).
  unfold time_time in Hnow. inversion Hnow; subst now wd1; clear Hnow.
  inv_bind H as u s1 Hsave. apply in_registry_Ok in Hsave as (reg' & Hsave & ->).
  simpl in Hsave. destruct u.
  inv_bind H as e s1 He. apply self_Ok in He as [-> ->]. simpl in H.
  inv_bind H as eps s1 Heps.
  assert (Hs1 : s1 = mkSys (set_registry reg' (engine s))
                       (mkWorld (normals (world s)) (uniforms (world s))
                          (integers (world s)) (cursor (world s)) (clock (world s))
                          (S (ticks (world s))) (dp_noise_calls (world s)))).
  { destruct (dp_enabled (engine s)).
    - apply lift_Ok in Heps as [_ ->]. reflexivity.
    - apply ret_Ok in Heps as [_ ->]. reflexivity. }
  subst s1. clear Heps.
  unfold bind, modify, ret in H. simpl in H. inversion H; subst; clear H. simpl.
  split; [reflexivity|]. split; [reflexivity|].
  exists prev, g, a, rb, reg'. repeat split; assumption.
Qed.

Lemma local_epochs_loop_clock k node : forall w s w' s',
  local_epochs_loop k node w s = (Ok w', s') -> clock (world s') = clock (world s).
Proof.
  induction k as [|k IH]; intros w s w' s' H; simpl in H.
  - apply ret_Ok in H as [-> ->]. reflexivity.
  - inv_bind H as w1 s1 H1. apply IH in H. rewrite H. clear H IH.
    unfold local_epoch in H1.
    inv_bind H1 as e s2 He. apply self_Ok in He as [-> ->].
    inv_bind H1 as z s2 Hz. apply in_world_Ok in Hz as (w2 & Hz & ->).
    apply randn_Ok in Hz as [_ ->].
    inv_bind H1 as root s2 Hroot. apply lift_Ok in Hroot as [_ ->].
    destruct (Req_dec_T root 0); [discriminate H1|].
    inv_bind H1 as g s2 Hg. apply lift_Ok in Hg as [_ ->]. apply lift_Ok in H1 as [_ ->].
    reflexivity.
Qed.

Lemma _add_dp_noise_clock w n s w' s' :
  _add_dp_noise w n s = (Ok w', s') -> clock (world s') = clock (world s).
Proof.
  unfold _add_dp_noise. intros H.
  inv_bind H as u s1 Hu. apply in_world_Ok in Hu as (w1 & Hu & ->).
  unfold count_dp_noise_call, modify in Hu. inversion Hu; subst w1; clear Hu.
  inv_bind H as e s1 He. apply self_Ok in He as [-> ->].
  inv_bind H as sens s1 Hsens. apply lift_Ok in Hsens as [_ ->].
  inv_bind H as noise s1 Hnoise. apply in_world_Ok in Hnoise as (w1 & Hnoise & ->).
  apply random_normal_n_Ok in Hnoise as [_ ->].
  apply lift_Ok in H as [_ ->]. reflexivity.
Qed.

Lemma train_node_clock r u node s u' s' :
  train_node r u node s = (Ok u', s') -> clock (world s') = clock (world s).
Proof.
  unfold train_node. intros H.
  inv_bind H as e s1 He. apply self_Ok in He as [-> ->].
  inv_bind H as w1 s1 Hw1. apply local_epochs_loop_clock in Hw1.
  inv_bind H as w2 s2 Hw2.
  assert (Hstep : clock (world s2) = clock (world s1)).
  { destruct (dp_enabled (engine s)).
    - apply _add_dp_noise_clock in Hw2. exact Hw2.
    - apply ret_Ok in Hw2 as [-> ->]. reflexivity. }
  inv_bind H as a s3 Ha. apply in_world_Ok in Ha as (wd3 & Ha & ->).
  destruct (_compute_accuracy_run w2 r 0.86 (world s2)) as (a' & Ha' & _).
  rewrite Ha' in Ha. inversion Ha; subst a' wd3; clear Ha.
  inv_bind H as z s4 Hz. apply in_world_Ok in Hz as (wd4 & Hz & ->).
  apply random_normal_Ok in Hz as ->.
  apply ret_Ok in H as [-> ->]. simpl. congruence.
Qed.

Lemma train_nodes_clock r nodes : forall u s u' s',
  train_nodes r u nodes s = (Ok u', s') -> clock (world s') = clock (world s).
Proof.
  induction nodes as [|node rest IH]; intros u s u' s' H; simpl in H.
  - apply ret_Ok in H as [-> ->]. reflexivity.
  - inv_bind H as u1 s1 H1. apply train_node_clock in H1. apply IH in H. congruence.
Qed.

Lemma run_round_candidate_clock r s c s' :
  run_round_candidate r s = (Ok c, s') -> clock (world s') = clock (world s).
Proof.
  unfold run_round_candidate. intros H.
  inv_bind H as e s1 He. apply self_Ok in He as [-> ->].
  inv_bind H as u s1 Hu. apply train_nodes_clock in Hu.
  inv_bind H as g s2 Hg. apply lift_Ok in Hg as [_ ->].
  inv_bind H as norms s2 Hn. apply lift_Ok in Hn as [_ ->].
  inv_bind H as d s2 Hd. apply lift_Ok in Hd as [_ ->].
  inv_bind H as a s2 Ha. apply in_world_Ok in Ha as (wd & Ha & ->).
  destruct (_compute_accuracy_run g r 0.86 (world s1)) as (a' & Ha' & _).
  rewrite Ha' in Ha. inversion Ha; subst a' wd; clear Ha.
  apply ret_Ok in H as [-> ->]. exact Hu.
Qed.

Lemma run_round_version r s res s' :
  run_round r s = (Ok res, s') ->
  versions (registry (engine s')) !! r
  = Some (mkModelVersion r (global_weights (engine s')) (global_accuracy res)
            (clock (world s) (ticks (world s)))) /\
  ticks (world s') = S (ticks (world s)) /\
  (forall k, k <> r ->
     versions (registry (engine s')) !! k = versions (registry (engine s)) !! k) /\
  global_loss res = 1.0 - global_accuracy res.
Proof.
  intros H. apply run_round_Ok in H as (c & s1 & Hc & Hcommit).
  pose proof (run_round_candidate_Ok _ _ _ _ Hc) as (He1 & _).
  pose proof (run_round_candidate_clock _ _ _ _ Hc) as Hclock.
  apply run_round_candidate_more in Hc as (_ & Ht1 & _).
  apply run_round_commit_more in Hcommit
    as (_ & Ht & prev & g & a & rb & reg' & _ & _ & Hsave & Hreg & Hg & Ha & Hloss & _).
  apply save_version_Ok in Hsave.
  rewrite Hreg, Hsave, Hg, Ha, Hloss, He1, Hclock, Ht, Ht1.
  split; [apply lookup_insert_eq|]. split; [reflexivity|]. split; [|reflexivity].
  intros k Hk. apply lookup_insert_ne. congruence.
Qed.

(** The version of a round: a round that returned has stored, under its
    round number, a version holding the global weights the engine goes on
    with, the accuracy the round records and the one clock reading the
    round takes; the versions under other ids are as before, and the loss
    of the round is one minus its accuracy. *)
Theorem run_round_saves_version r s res s' :
  run_round r s = (Ok res, s') ->
  versions (registry (engine s')) !! r
  = Some (mkModelVersion r (global_weights (engine s')) (global_accuracy res)
            (clock (world s) (ticks (world s)))) /\
  ticks (world s') = S (ticks (world s)) /\
  (forall k, k <> r ->
     versions (registry (engine s')) !! k = versions (registry (engine s)) !! k) /\
  global_loss res = 1.0 - global_accuracy res.
Proof. exact (run_round_version r s res s'). Qed.

Lemma run_round_saves_version_witness :
  exists res s',
    run_round 4 (mkSys (example_engine true example_registry) example_world)
    = (Ok res, s') /\
    versions (registry (engine s')) !! 1%Z = Some example_version.
Proof.
  destruct (run_round_total 4 (mkSys (example_engine true example_registry) example_world)
              (example_engine_ok true _ example_registry_ok)) as (res & s' & H & _).
  exists res, s'. split; [exact H|].
  destruct (run_round_saves_version _ _ _ _ H) as (_ & _ & Hother & _).
  rewrite Hother by lia. apply lookup_insert_eq.
Defined.

(** The random draws of a round: a round that returned has consumed, for
    each node, one normal draw for each global weight and each of the three
    local epochs, one for each weight again when differential privacy is
    enabled, and two for the accuracy of the node, and one more for the
    accuracy of the candidate; it has read the clock once. *)
Theorem run_round_draws r s res s' :
  run_round r s = (Ok res, s') ->
  cursor (world s')
  = (cursor (world s)
     + length (hospitals (engine s)) * draws_per_node (engine s) + 1)%nat /\
  ticks (world s') = S (ticks (world s)).
Proof.
  intros H. apply run_round_Ok in H as (c & s1 & Hc & Hcommit).
  apply run_round_candidate_more in Hc as (Hcur & Ht1 & _).
  apply run_round_commit_more in Hcommit as (Hcur' & Ht & _).
  split; congruence.
Qed.

Lemma run_round_draws_witness :
  exists res s',
    run_round 1 (mkSys (example_engine true ModelRegistry_init) example_world)
    = (Ok res, s') /\
    cursor (world s') = 259%nat.
Proof.
  destruct (run_round_total 1 (mkSys (example_engine true ModelRegistry_init) example_world)
              (example_engine_ok true _ registry_ok_init)) as (res & s' & H & _).
  exists res, s'. split; [exact H|].
  rewrite (proj1 (run_round_draws _ _ _ _ H)). reflexivity.
Defined.

(** The node accuracies of a round: the map a round records has a key for
    each node id of the engine and no other key, and every accuracy in it
    lies in [0.5, 0.99]. *)
Theorem run_round_node_accuracies r s res s' :
  run_round r s = (Ok res, s') ->
  (forall id, is_Some (node_accuracies res !! id)
              <-> id ∈ map node_id (hospitals (engine s))) /\
  (forall id a, node_accuracies res !! id = Some a -> 0.5 <= a <= 0.99).
Proof.
  intros H. apply run_round_Ok in H as (c & s1 & Hc & Hcommit).
  apply run_round_candidate_more in Hc as (_ & _ & _ & _ & Hdom & Hrange).
  apply run_round_commit_more in Hcommit
    as (_ & _ & prev & g & a & rb & reg' & _ & _ & _ & _ & _ & _ & _ & _ & Hacc).
  rewrite Hacc. split; [exact Hdom | exact Hrange].
Qed.

Lemma run_round_node_accuracies_witness :
  exists res s',
    run_round 1 (mkSys (example_engine true ModelRegistry_init) example_world)
    = (Ok res, s') /\
    is_Some (node_accuracies res !! "Hospital-A"%string).
Proof.
  destruct (run_round_total 1 (mkSys (example_engine true ModelRegistry_init) example_world)
              (example_engine_ok true _ registry_ok_init)) as (res & s' & H & _).
  exists res, s'. split; [exact H|].
  apply (proj1 (run_round_node_accuracies _ _ _ _ H)). simpl. left.
Defined.

(** ** Ranges and shapes along the rounds *)

Lemma get_best_Some reg best :
  get_best reg = (Ok (Some best), reg) ->
  versions reg !! best_version_id reg = Some best.
Proof.
  rewrite get_best_eq. destruct (best_version_id reg =? -1)%Z; [discriminate|].
  destruct (versions reg !! best_version_id reg); [|discriminate].
  intros H. inversion H. reflexivity.
Qed.

Lemma registry_sound_init d : registry_sound d ModelRegistry_init.
Proof.
  split; [exact registry_ok_init|]. intros k v Hk. simpl in Hk.
  rewrite lookup_empty in Hk. discriminate.
Qed.

Lemma run_round_sound r s res s' :
  registry_sound (length (global_weights (engine s))) (registry (engine s)) ->
  run_round r s = (Ok res, s') ->
  0.50 <= global_accuracy res <= 0.99 /\
  0.01 <= global_loss res <= 0.50 /\
  0 <= weight_divergence res /\
  length (global_weights (engine s')) = length (global_weights (engine s)) /\
  registry_sound (length (global_weights (engine s))) (registry (engine s')).
Proof.
  intros [Hok Hsound] H. apply run_round_Ok in H as (c & s1 & Hc & Hcommit).
  pose proof (run_round_candidate_Ok _ _ _ _ Hc) as (He1 & _ & _ & _ & _ & Hacc).
  apply run_round_candidate_more in Hc as (_ & _ & Hdiv & Hlen & _).
  apply run_round_commit_more in Hcommit
    as (_ & _ & prev & g & a & rb & reg' & Hprev & Hrb & Hsave & Hreg & Hg & Ha & Hloss
        & Hwd & _).
  rewrite He1 in *.
  assert (Hga : 0.50 <= a <= 0.99 /\ length g = length (global_weights (engine s))).
  { unfold rollback_check in Hrb. destruct prev as [best|].
    - apply get_best_Some in Hprev. destruct (Hsound _ _ Hprev) as [Hb1 Hb2].
      destruct (Rlt_dec (cand_acc c) (accuracy best - 0.05));
        injection Hrb as <- <- <-; auto.
    - injection Hrb as <- <- <-. auto. }
  destruct Hga as [Hrange Hshape].
  destruct (save_version_returns r g a (clock (world s1) (ticks (world s1))) _ Hok)
    as (reg2 & Hsave2 & Hok2 & Hv2).
  rewrite Hsave in Hsave2. inversion Hsave2; subst reg2; clear Hsave2.
  rewrite Ha, Hloss, Hwd, Hg, Hreg.
  split; [exact Hrange|]. split; [lra|]. split; [exact Hdiv|]. split; [exact Hshape|].
  split; [exact Hok2|]. intros k v Hk. rewrite Hv2 in Hk.
  destruct (decide (k = r)) as [->|Hne].
  - rewrite lookup_insert_eq in Hk. inversion Hk. simpl. auto.
  - rewrite lookup_insert_ne in Hk by congruence. exact (Hsound k v Hk).
Qed.

Lemma simulation_loop_sound d rounds : forall s u s',
  length (global_weights (engine s)) = d ->
  registry_sound d (registry (engine s)) ->
  simulation_loop rounds s = (Ok u, s') ->
  length (global_weights (engine s')) = d /\
  registry_sound d (registry (engine s')) /\
  exists rs,
    round_history (engine s') = round_history (engine s) ++ rs /\
    Forall (fun res => 0.50 <= global_accuracy res <= 0.99 /\
                       0.01 <= global_loss res <= 0.50 /\
                       0 <= weight_divergence res) rs.
Proof.
  induction rounds as [|r rest IH]; intros s u s' Hd Hsound H; simpl in H.
  - apply ret_Ok in H as [_ ->]. split; [exact Hd|]. split; [exact Hsound|].
    exists []. rewrite app_nil_r. split; [reflexivity | constructor].
  - inv_bind H as res s1 Hround.
    pose proof (run_round_record _ _ _ _ Hround) as (_ & Hh & _).
    rewrite <- Hd in Hsound.
    apply (run_round_sound _ _ _ _ Hsound) in Hround as (Ha & Hl & Hw & Hlen & Hsound1).
    rewrite Hd in Hlen, Hsound1.
    destruct (converged res && (15 <? r)%Z).
    + apply ret_Ok in H as [_ ->]. split; [exact Hlen|]. split; [exact Hsound1|].
      exists [res]. split; [exact Hh|]. constructor; [auto | constructor].
    + apply (IH _ _ _ Hlen Hsound1) in H as (Hlen' & Hsound' & rs & Hh' & Hall).
      split; [exact Hlen'|]. split; [exact Hsound'|].
      exists (res :: rs). split.
      * rewrite Hh', Hh, <- app_assoc. reflexivity.
      * constructor; [auto | exact Hall].
Qed.

Lemma run_simulation_sound n s h s' :
  registry_sound (length (global_weights (engine s))) (registry (engine s)) ->
  run_simulation n s = (Ok h, s') ->
  Forall (fun res => 0.50 <= global_accuracy res <= 0.99 /\
                     0.01 <= global_loss res <= 0.50 /\
                     0 <= weight_divergence res) h /\
  length (global_weights (engine s')) = length (global_weights (engine s)) /\
  registry_sound (length (global_weights (engine s))) (registry (engine s')).
Proof.
  intros Hsound H. unfold run_simulation in H.
  inv_bind H as u s1 Hreset. unfold modify in Hreset. inversion Hreset; subst u s1; clear Hreset.
  inv_bind H as u s2 Hloop.
  inv_bind H as e s3 He. apply self_Ok in He as [-> ->].
  apply ret_Ok in H as [-> ->].
  apply (simulation_loop_sound (length (global_weights (engine s)))) in Hloop
    as (Hlen & Hsound' & rs & Hh & Hall); [|reflexivity | exact Hsound].
  simpl in Hh. rewrite Hh. auto.
Qed.

(** Ranges along a simulation.  On an engine whose registry is consistent
    and holds only versions with an accuracy of [0.50, 0.99] and weights of
    the shape of the global weights (an empty registry is one), every
    round of the history of [run_simulation] has an accuracy of
    [0.50, 0.99], a loss of [0.01, 0.50] and a divergence that is not
    negative; the global weights keep their shape and the registry stays
    such a registry. *)
Theorem run_simulation_ranges n s h s' :
  registry_sound (length (global_weights (engine s))) (registry (engine s)) ->
  run_simulation n s = (Ok h, s') ->
  Forall (fun res => 0.50 <= global_accuracy res <= 0.99 /\
                     0.01 <= global_loss res <= 0.50 /\
                     0 <= weight_divergence res) h /\
  length (global_weights (engine s')) = length (global_weights (engine s)) /\
  registry_sound (length (global_weights (engine s))) (registry (engine s')).
Proof. exact (run_simulation_sound n s h s'). Qed.

Lemma run_simulation_ranges_witness :
  exists h s',
    run_simulation 20 (mkSys (example_engine true ModelRegistry_init) example_world)
    = (Ok h, s') /\
    Forall (fun res => 0.50 <= global_accuracy res <= 0.99 /\
                       0.01 <= global_loss res <= 0.50 /\
                       0 <= weight_divergence res) h.
Proof.
  destruct (run_simulation_total 20
              (mkSys (example_engine true ModelRegistry_init) example_world)
              (example_engine_ok true _ registry_ok_init)) as (h & s' & H & _).
  exists h, s'. split; [exact H|].
  apply (proj1 (run_simulation_ranges 20
                  (mkSys (example_engine true ModelRegistry_init) example_world) h s'
                  (registry_sound_init _) H)).
Defined.

(** ** The simulation: budgets *)

Lemma run_simulation_empty_budget n s :
  (n <= 0)%Z ->
  run_simulation n s = (Ok [], mkSys (set_round_history [] (engine s)) (world s)).
Proof.
  intros Hn. unfold run_simulation.
  erewrite bind_step by reflexivity.
  unfold range. replace (Z.to_nat (n + 1 - 1)) with 0%nat by lia. reflexivity.
Qed.

(** A budget of zero rounds or less runs no round: [run_simulation] returns
    the empty history, and nothing but the round history of the engine,
    which is emptied, has changed. *)
Theorem run_simulation_no_rounds n s :
  (n <= 0)%Z ->
  run_simulation n s = (Ok [], mkSys (set_round_history [] (engine s)) (world s)).
Proof. exact (run_simulation_empty_budget n s). Qed.

Lemma run_simulation_no_rounds_witness :
  run_simulation 0 (mkSys (example_engine true example_registry) example_world)
  = (Ok [], mkSys (set_round_history [] (example_engine true example_registry))
              example_world).
Proof. apply run_simulation_no_rounds. lia. Defined.

Lemma run_simulation_length n s h s' :
  run_simulation n s = (Ok h, s') ->
  ((n <= 16)%Z -> length h = Z.to_nat n) /\
  (Nat.min (Z.to_nat n) 16 <= length h)%nat.
Proof.
  intros H. apply run_simulation_Ok in H as (_ & Hnum & Hend & Hle & _).
  assert (Hcases : length h = Z.to_nat n \/ (16 <= length h)%nat).
  { destruct Hend as [Hlen | (res & Hlast & _ & Hlate)]; [left; exact Hlen|].
    right. rewrite last_lookup in Hlast.
    pose proof (Hnum _ _ Hlast) as Hr.
    destruct h as [|x h]; [discriminate Hlast|]. simpl in *. lia. }
  split.
  - intros Hn. destruct Hcases as [Hlen | Hlong]; [exact Hlen | lia].
  - destruct Hcases as [Hlen | Hlong]; lia.
Qed.

(** The early stop never shortens a simulation below sixteen rounds: the
    history of [run_simulation] has the whole budget of rounds when the
    budget is sixteen or less, and at least sixteen rounds otherwise. *)
Theorem run_simulation_at_least_sixteen n s h s' :
  run_simulation n s = (Ok h, s') ->
  ((n <= 16)%Z -> length h = Z.to_nat n) /\
  (Nat.min (Z.to_nat n) 16 <= length h)%nat.
Proof. exact (run_simulation_length n s h s'). Qed.

Lemma run_simulation_at_least_sixteen_witness :
  exists h s',
    run_simulation 12 (mkSys (example_engine true ModelRegistry_init) example_world)
    = (Ok h, s') /\
    length h = 12%nat.
Proof.
  destruct (run_simulation_total 12
              (mkSys (example_engine true ModelRegistry_init) example_world)
              (example_engine_ok true _ registry_ok_init)) as (h & s' & H & _).
  exists h, s'. split; [exact H|].
  apply (proj1 (run_simulation_at_least_sixteen _ _ _ _ H)). lia.
Defined.

(** ** The summary *)

Lemma run_round_registry r s res s' :
  run_round r s = (Ok res, s') ->
  exists g now,
    save_version r g (global_accuracy res) now (registry (engine s))
    = (Ok tt, registry (engine s')).
Proof.
  intros H. apply run_round_Ok in H as (c & s1 & Hc & Hcommit).
  apply run_round_candidate_Ok in Hc as (He1 & _).
  apply run_round_commit_more in Hcommit
    as (_ & _ & prev & g & a & rb & reg' & _ & _ & Hsave & Hreg & _ & Ha & _).
  rewrite He1 in Hsave. rewrite Hreg, Ha. eauto.
Qed.

Lemma first_simulation_loop rounds : forall s u s',
  NoDup rounds ->
  Forall (fun r => r <> (-1)%Z /\ versions (registry (engine s)) !! r = None) rounds ->
  best_is_max (registry (engine s)) ->
  simulation_loop rounds s = (Ok u, s') ->
  best_is_max (registry (engine s')) /\
  hospitals (engine s') = hospitals (engine s) /\
  (forall k, k ∉ rounds ->
     versions (registry (engine s')) !! k = versions (registry (engine s)) !! k) /\
  exists rs,
    round_history (engine s') = round_history (engine s) ++ rs /\
    Forall (fun res => exists v,
              versions (registry (engine s')) !! round_num res = Some v /\
              accuracy v = global_accuracy res) rs.
Proof.
  induction rounds as [|r rest IH]; intros s u s' Hnodup Hfresh Hmax H; simpl in H.
  - apply ret_Ok in H as [_ ->]. split; [exact Hmax|]. split; [reflexivity|].
    split; [reflexivity|]. exists []. rewrite app_nil_r. split; [reflexivity | constructor].
  - apply NoDup_cons in Hnodup as [Hnotin Hnodup].
    apply Forall_cons in Hfresh as [[Hr Hnone] Hfresh].
    inv_bind H as res s1 Hround.
    pose proof (run_round_record _ _ _ _ Hround) as (Hnum & Hh & Hhosp & _).
    apply run_round_registry in Hround as (g & now & Hsave).
    destruct (save_version_keeps_max r g (global_accuracy res) now _ Hmax Hr Hnone)
      as (reg1 & Hsave1 & Hmax1 & _ & Hv1).
    rewrite Hsave in Hsave1. inversion Hsave1 as [Hreg1]. rewrite <- Hreg1 in Hmax1, Hv1.
    clear Hsave1 Hreg1 reg1.
    assert (Hstored : versions (registry (engine s1)) !! r
                      = Some (mkModelVersion r g (global_accuracy res) now))
      by (rewrite Hv1; apply lookup_insert_eq).
    destruct (converged res && (15 <? r)%Z).
    + apply ret_Ok in H as [_ ->]. split; [exact Hmax1|]. split; [exact Hhosp|]. split.
      * intros k Hk. rewrite Hv1. apply lookup_insert_ne.
        intros ->. apply Hk. left.
      * exists [res]. split; [exact Hh|]. constructor; [|constructor].
        rewrite Hnum. eexists. split; [exact Hstored | reflexivity].
    + apply IH in H as (Hmax' & Hhosp' & Hother & rs & Hh' & Hall);
        [| exact Hnodup | | exact Hmax1].
      * split; [exact Hmax'|]. split; [congruence|]. split.
        -- intros k Hk. rewrite Hother.
           ++ rewrite Hv1. apply lookup_insert_ne. intros ->. apply Hk. left.
           ++ intros Hin. apply Hk. right. exact Hin.
        -- exists (res :: rs). split; [rewrite Hh', Hh, <- app_assoc; reflexivity|].
           constructor; [|exact Hall].
           rewrite Hnum, (Hother r Hnotin). eexists. split; [exact Hstored | reflexivity].
      * rewrite Forall_forall in Hfresh. apply Forall_forall. intros r' Hr'.
        destruct (Hfresh r' Hr') as [Hr1 Hr2]. split; [exact Hr1|].
        rewrite Hv1, lookup_insert_ne; [exact Hr2|]. intros ->. contradiction.
Qed.

Lemma NoDup_range a b : NoDup (range a b).
Proof.
  unfold range. apply NoDup_fmap_2; [|apply NoDup_seq].
  intros i j Hij. simpl in Hij. lia.
Qed.

Lemma elem_of_range a b x : x ∈ range a b -> (a <= x < b)%Z.
Proof.
  unfold range. intros H. apply list_elem_of_fmap in H as (i & -> & Hi).
  apply elem_of_seq in Hi. lia.
Qed.

Lemma first_simulation_summary n s h s' :
  (0 < n)%Z ->
  registry (engine s) = ModelRegistry_init ->
  run_simulation n s = (Ok h, s') ->
  exists d final,
    get_summary (engine s') = Returns (Some d) /\
    last h = Some final /\
    final_accuracy d = global_accuracy final /\
    summary_converged d = converged final /\
    final_divergence d = weight_divergence final /\
    final_epsilon d = privacy_epsilon final /\
    total_rounds d = Z.of_nat (length h) /\
    total_samples d = sumZ (map n_samples (hospitals (engine s))) /\
    Forall (fun res => global_accuracy res <= best_accuracy d) h.
Proof.
  intros Hn Hreg H.
  pose proof (run_simulation_length _ _ _ _ H) as [_ Hlong].
  pose proof (run_simulation_Ok _ _ _ _ H) as (Hh & _).
  unfold run_simulation in H.
  inv_bind H as u s1 Hreset. unfold modify in Hreset. inversion Hreset; subst u s1; clear Hreset.
  inv_bind H as u s2 Hloop.
  inv_bind H as e s3 He. apply self_Ok in He as [-> ->].
  apply ret_Ok in H as [-> ->]. clear Hh.
  apply first_simulation_loop in Hloop as (Hmax & Hhosp & _ & rs & Hrs & Hall).
  - simpl in Hrs, Hhosp. rewrite <- Hrs in Hall. clear Hrs rs.
    set (h := round_history (engine s2)) in *.
    destruct (last h) as [final|] eqn:Hlast.
    2:{ apply last_None in Hlast. rewrite Hlast in Hlong. cbn [length] in Hlong. lia. }
    assert (Hin : final ∈ h)
      by (apply list_elem_of_lookup; rewrite last_lookup in Hlast; eauto).
    rewrite Forall_forall in Hall. destruct (Hall final Hin) as (vf & Hvf & _).
    destruct Hmax as (Hok & Hempty & _ & Hmax).
    assert (Hb : best_version_id (registry (engine s2)) <> (-1)%Z).
    { intros Hm. rewrite (Hempty Hm), lookup_empty in Hvf. discriminate. }
    destruct Hok as [Hm | [best Hbest]]; [contradiction|].
    pose proof (get_best_lookup _ _ best eq_refl Hb Hbest) as Hget.
    unfold get_summary. fold h. rewrite Hlast, Hget. simpl fst.
    eexists. exists final. split; [reflexivity|]. simpl.
    repeat split; try reflexivity; [congruence|].
    apply Forall_forall. intros res Hres.
    destruct (Hall res Hres) as (v & Hv & Hacc). rewrite <- Hacc.
    exact (Hmax best Hbest _ v Hv).
  - apply NoDup_range.
  - apply Forall_forall. intros r Hr. apply elem_of_range in Hr. split; [lia|].
    simpl. rewrite Hreg. apply lookup_empty.
  - simpl. rewrite Hreg. exact best_is_max_init.
Qed.

(** The summary after the first simulation.  When [run_simulation] with a
    budget of at least one round returns on an engine whose registry is
    new, [get_summary] returns a dict: its final fields are those of the
    last round of the history, [total_rounds] is the length of the history,
    [total_samples] is the sum of the sample counts of the nodes, and
    [best_accuracy] is at least the accuracy of every round of the
    history. *)
Theorem get_summary_after_first_simulation n s h s' :
  (0 < n)%Z ->
  registry (engine s) = ModelRegistry_init ->
  run_simulation n s = (Ok h, s') ->
  exists d final,
    get_summary (engine s') = Returns (Some d) /\
    last h = Some final /\
    final_accuracy d = global_accuracy final /\
    summary_converged d = converged final /\
    final_divergence d = weight_divergence final /\
    final_epsilon d = privacy_epsilon final /\
    total_rounds d = Z.of_nat (length h) /\
    total_samples d = sumZ (map n_samples (hospitals (engine s))) /\
    Forall (fun res => global_accuracy res <= best_accuracy d) h.
Proof. exact (first_simulation_summary n s h s'). Qed.

Lemma get_summary_after_first_simulation_witness :
  exists h s' d,
    run_simulation 5 (mkSys (example_engine true ModelRegistry_init) example_world)
    = (Ok h, s') /\
    get_summary (engine s') = Returns (Some d) /\
    total_rounds d = Z.of_nat (length h).
Proof.
  destruct (run_simulation_total 5
              (mkSys (example_engine true ModelRegistry_init) example_world)
              (example_engine_ok true _ registry_ok_init)) as (h & s' & H & _).
  destruct (get_summary_after_first_simulation 5
              (mkSys (example_engine true ModelRegistry_init) example_world) h s'
              ltac:(lia) eq_refl H)
    as (d & final & Hd & _ & _ & _ & _ & _ & Ht & _).
  exists h, s', d. auto.
Defined.

(** [get_summary] answers the empty dict on an empty history.  A round
    numbered -1 on a new registry is stored under the sentinel id, so the
    registry reports no best version although the history has a round:
    [get_summary] then reads [accuracy] of the last round and raises
    [AttributeError]. *)
Theorem get_summary_without_best_version :
  (forall e, round_history e = [] -> get_summary e = Returns None) /\
  (forall s res s',
     registry (engine s) = ModelRegistry_init ->
     run_round (-1) s = (Ok res, s') ->
     get_summary (engine s') = Fails AttributeError).
Proof.
  split.
  - intros e He. unfold get_summary. rewrite He. reflexivity.
  - intros s res s' Hreg H.
    pose proof (run_round_record _ _ _ _ H) as (_ & Hh & _).
    apply run_round_registry in H as (g & now & Hsave). rewrite Hreg in Hsave.
    destruct (save_version_total (-1) g (global_accuracy res) now _ None
                registry_ok_init get_best_init) as (reg' & Hsave' & _ & _ & Hb).
    rewrite Hsave in Hsave'. inversion Hsave' as [Hreg']. rewrite <- Hreg' in Hb.
    unfold get_summary. rewrite Hh, last_snoc, get_best_eq, Hb. reflexivity.
Qed.

Lemma get_summary_without_best_version_witness :
  exists res s',
    run_round (-1) (mkSys (example_engine true ModelRegistry_init) example_world)
    = (Ok res, s') /\
    get_summary (engine s') = Fails AttributeError.
Proof.
  destruct (run_round_total (-1)
              (mkSys (example_engine true ModelRegistry_init) example_world)
              (example_engine_ok true _ registry_ok_init)) as (res & s' & H & _).
  exists res, s'. split; [exact H|].
  exact (proj2 get_summary_without_best_version
           (mkSys (example_engine true ModelRegistry_init) example_world) res s' eq_refl H).
Defined.

(** ** The endpoint *)

Lemma simulation_loop_induction (I : Sys -> Prop) (P : FLRound -> Prop) rounds :
  (forall r s res s', I s -> run_round r s = (Ok res, s') -> I s' /\ P res) ->
  forall s u s',
    I s -> simulation_loop rounds s = (Ok u, s') ->
    I s' /\ exists rs, round_history (engine s') = round_history (engine s) ++ rs /\
                       Forall P rs.
Proof.
  intros Hstep. induction rounds as [|r rest IH]; intros s u s' HI H; simpl in H.
  - apply ret_Ok in H as [_ ->]. split; [exact HI|]. exists []. rewrite app_nil_r.
    split; [reflexivity | constructor].
  - inv_bind H as res s1 Hround.
    pose proof (run_round_record _ _ _ _ Hround) as (_ & Hh & _).
    destruct (Hstep _ _ _ _ HI Hround) as [HI1 HP].
    destruct (converged res && (15 <? r)%Z).
    + apply ret_Ok in H as [_ ->]. split; [exact HI1|]. exists [res].
      split; [exact Hh | constructor; [exact HP | constructor]].
    + apply (IH _ _ _ HI1) in H as (HI' & rs & Hh' & Hall). split; [exact HI'|].
      exists (res :: rs). split; [rewrite Hh', Hh, <- app_assoc; reflexivity|].
      constructor; assumption.
Qed.

Lemma run_simulation_epsilon n s h s' :
  dp_enabled (engine s) = true ->
  run_simulation n s = (Ok h, s') ->
  hospitals (engine s') = hospitals (engine s) /\
  Forall (fun res =>
            _compute_epsilon (dp_sigma (engine s)) 0 1e-5 = Ok (privacy_epsilon res) /\
            global_loss res = 1.0 - global_accuracy res) h.
Proof.
  intros Hdp H. unfold run_simulation in H.
  inv_bind H as u s1 Hreset. unfold modify in Hreset. inversion Hreset; subst u s1; clear Hreset.
  inv_bind H as u s2 Hloop.
  inv_bind H as e s3 He. apply self_Ok in He as [-> ->].
  apply ret_Ok in H as [-> ->].
  apply (simulation_loop_induction
           (fun x => hospitals (engine x) = hospitals (engine s) /\
                     dp_enabled (engine x) = true /\
                     dp_sigma (engine x) = dp_sigma (engine s))
           (fun res =>
              _compute_epsilon (dp_sigma (engine s)) 0 1e-5 = Ok (privacy_epsilon res) /\
              global_loss res = 1.0 - global_accuracy res)) in Hloop
    as ((Hhosp & _) & rs & Hrs & Hall).
  - simpl in Hrs. rewrite Hrs. split; [exact Hhosp | exact Hall].
  - intros r x res x' (Hh & Hd & Hsig) Hround.
    pose proof (run_round_record _ _ _ _ Hround) as (_ & _ & Hh' & Hd' & Hsig' & Hloss & _).
    apply run_round_epsilon in Hround as (Hon & _).
    split; [repeat split; congruence|].
    split; [rewrite <- Hsig; apply Hon; exact Hd | exact Hloss].
  - simpl. auto.
Qed.

(** The endpoint /simulation/fl answers for every number of rounds: it
    never raises its [HTTPException].  The body reports success and five
    nodes with sample counts in [150, 800); its history has at most
    [rounds] entries, numbered from 1, each with an accuracy of
    [0.50, 0.99] and a loss of one minus the accuracy.  The final epsilon
    is 0.0 when [rounds] is zero or less (no round is run), and
    sqrt(2 ln(1.25/1e-5))/0.15 otherwise. *)
Theorem get_fl_status_answers rounds w :
  exists body w',
    get_fl_status rounds w = (Body body, w') /\
    success body = true /\
    length (nodes body) = 5%nat /\
    Forall (fun n => (150 <= snd n < 800)%Z) (nodes body) /\
    (length (history body) <= Z.to_nat rounds)%nat /\
    (forall i r a l, history body !! i = Some (r, a, l) ->
       r = (1 + Z.of_nat i)%Z /\ 0.50 <= a <= 0.99 /\ l = 1.0 - a) /\
    ((rounds <= 0)%Z ->
       history body = [] /\ metrics_final_epsilon body = fin 0.0) /\
    ((0 < rounds)%Z ->
       metrics_final_epsilon body = fin (sqrt (2 * ln (1.25 / 1e-5)) / 0.15)).
Proof.
  destruct (FedAvgEngine_init_total 5 true 0.15 0.01 8 w)
    as (e & w1 & Hinit & _ & Hdp & Hsigma & _ & _ & Hlen & Hbuilt & _ & _ & Hreg);
    [lia | lia |].
  assert (Hok : engine_ok e).
  { repeat split.
    - destruct (hospitals e); [discriminate Hlen | discriminate].
    - eapply Forall_impl; [exact Hbuilt|]. intros n [Hn _]. unfold count_ok. lia.
    - intros _. rewrite Hsigma. lra.
    - rewrite Hreg. exact registry_ok_init. }
  destruct (run_simulation_total rounds (mkSys e w1) Hok) as (h & s2 & Hsim & _).
  pose proof (run_simulation_Ok _ _ _ _ Hsim) as (_ & Hnum & _ & Hle & _).
  pose proof (run_simulation_epsilon rounds (mkSys e w1) h s2 Hdp Hsim) as (Hhosp & Heps).
  assert (Hranges : Forall (fun res => 0.50 <= global_accuracy res <= 0.99 /\
                                       0.01 <= global_loss res <= 0.50 /\
                                       0 <= weight_divergence res) h).
  { apply (proj1 (run_simulation_sound rounds (mkSys e w1) h s2
                    ltac:(simpl; rewrite Hreg; apply registry_sound_init) Hsim)). }
  simpl in Hhosp.
  assert (Hsummary : exists summary,
            get_summary (engine s2) = Returns summary /\
            ((rounds <= 0)%Z -> h = [] /\ summary = None) /\
            ((0 < rounds)%Z ->
             exists d, summary = Some d /\
                       final_epsilon d = fin (sqrt (2 * ln (1.25 / 1e-5)) / 0.15))).
  { destruct (Z_le_gt_dec rounds 0) as [Hle0 | Hgt0].
    - rewrite run_simulation_empty_budget in Hsim by exact Hle0.
      inversion Hsim; subst h s2. exists None. split; [reflexivity|].
      split; [auto | intros; lia].
    - destruct (first_simulation_summary rounds (mkSys e w1) h s2
                  ltac:(lia) Hreg Hsim)
        as (d & final & Hd & Hlast & _ & _ & _ & Hfe & _).
      exists (Some d). split; [exact Hd|]. split; [intros; lia|]. intros _.
      exists d. split; [reflexivity|]. rewrite Hfe.
      assert (Hin : final ∈ h)
        by (apply list_elem_of_lookup; rewrite last_lookup in Hlast; eauto).
      rewrite Forall_forall in Heps. destruct (Heps final Hin) as [He _].
      simpl in He. rewrite Hsigma, _compute_epsilon_default in He.
      destruct (Req_dec_T 0.15 0); [exfalso; lra|]. inversion He. reflexivity. }
  destruct Hsummary as (summary & Hget & Hnone & Hsome).
  eexists. eexists. split.
  { unfold get_fl_status. rewrite Hinit, Hsim, Hget. reflexivity. }
  simpl. split; [reflexivity|]. split; [rewrite length_map, Hhosp; exact Hlen|].
  split; [|split; [rewrite length_map; exact Hle|split; [|split]]].
  - rewrite Hhosp. apply Forall_map. eapply Forall_impl; [exact Hbuilt|].
    intros n [Hn _]. exact Hn.
  - intros i r a l Hi. rewrite list_lookup_fmap in Hi.
    destruct (h !! i) as [res|] eqn:Hres; [|discriminate Hi].
    simpl in Hi. inversion Hi; subst r a l.
    assert (Hin : res ∈ h) by (apply list_elem_of_lookup; eauto).
    rewrite Forall_forall in Hranges, Heps.
    destruct (Hranges res Hin) as (Ha & _). destruct (Heps res Hin) as [_ Hl].
    split; [exact (Hnum _ _ Hres) | split; [exact Ha | exact Hl]].
  - intros Hle0. destruct (Hnone Hle0) as [-> ->]. split; reflexivity.
  - intros Hgt0. destruct (Hsome Hgt0) as (d & -> & Hd). exact Hd.
Qed.

Lemma get_fl_status_answers_witness :
  exists body w',
    get_fl_status 3 example_world = (Body body, w') /\
    metrics_final_epsilon body = fin (sqrt (2 * ln (1.25 / 1e-5)) / 0.15).
Proof.
  destruct (get_fl_status_answers 3 example_world)
    as (body & w' & H & _ & _ & _ & _ & _ & _ & Heps).
  exists body, w'. split; [exact H|]. apply Heps. lia.
Defined.

Lemma get_latest_greatest_id_witness :
  get_latest example_registry = (Ok (Some example_version), example_registry).
Proof.
  destruct (get_latest_greatest_id example_registry)
    as [[Hempty _] | (k & v & Hl & Hk & _)].
  - exfalso. apply (f_equal (fun m => m !! 1%Z)) in Hempty.
    unfold example_registry in Hempty. simpl in Hempty.
    rewrite lookup_insert_eq, lookup_empty in Hempty. discriminate.
  - rewrite Hl. do 3 f_equal. unfold example_registry in Hk. simpl in Hk.
    destruct (decide (k = 1%Z)) as [->|Hne].
    + rewrite lookup_insert_eq in Hk. inversion Hk. reflexivity.
    + rewrite lookup_insert_ne, lookup_empty in Hk by congruence. discriminate.
Defined.

(** ** What a simulation leaves alone *)

Lemma simulation_loop_versions rounds : forall s u s',
  NoDup rounds ->
  simulation_loop rounds s = (Ok u, s') ->
  (forall k, k ∉ rounds ->
     versions (registry (engine s')) !! k = versions (registry (engine s)) !! k) /\
  exists rs,
    round_history (engine s') = round_history (engine s) ++ rs /\
    Forall (fun res => exists v,
              versions (registry (engine s')) !! round_num res = Some v /\
              version_id v = round_num res /\
              accuracy v = global_accuracy res) rs.
Proof.
  induction rounds as [|r rest IH]; intros s u s' Hnodup H; simpl in H.
  - apply ret_Ok in H as [_ ->]. split; [reflexivity|].
    exists []. rewrite app_nil_r. split; [reflexivity | constructor].
  - apply NoDup_cons in Hnodup as [Hnotin Hnodup].
    inv_bind H as res s1 Hround.
    pose proof (run_round_record _ _ _ _ Hround) as (Hnum & Hh & _).
    apply run_round_version in Hround as (Hstored & _ & Hrest & _).
    destruct (converged res && (15 <? r)%Z).
    + apply ret_Ok in H as [_ ->]. split.
      * intros k Hk. apply Hrest. intros ->. apply Hk. left.
      * exists [res]. split; [exact Hh|]. constructor; [|constructor].
        rewrite Hnum. eexists. split; [exact Hstored|]. split; reflexivity.
    + apply (IH _ _ _ Hnodup) in H as (Hother & rs & Hh' & Hall). split.
      * intros k Hk. rewrite Hother.
        -- apply Hrest. intros ->. apply Hk. left.
        -- intros Hin. apply Hk. right. exact Hin.
      * exists (res :: rs). split; [rewrite Hh', Hh, <- app_assoc; reflexivity|].
        constructor; [|exact Hall].
        rewrite Hnum, (Hother r Hnotin). eexists. split; [exact Hstored|].
        split; reflexivity.
Qed.

(** The registry outlives the history: [run_simulation] does not empty it.
    The versions stored under ids outside 1, ..., [n_rounds] are as
    before the call, and every round of the returned history is stored
    under its round number, with its accuracy. *)
Theorem run_simulation_keeps_registry n s h s' :
  run_simulation n s = (Ok h, s') ->
  (forall k, (k < 1 \/ n < k)%Z ->
     versions (registry (engine s')) !! k = versions (registry (engine s)) !! k) /\
  Forall (fun res => exists v,
            versions (registry (engine s')) !! round_num res = Some v /\
            version_id v = round_num res /\
            accuracy v = global_accuracy res) h.
Proof.
  intros H. unfold run_simulation in H.
  inv_bind H as u s1 Hreset. unfold modify in Hreset. inversion Hreset; subst u s1; clear Hreset.
  inv_bind H as u s2 Hloop.
  inv_bind H as e s3 He. apply self_Ok in He as [-> ->].
  apply ret_Ok in H as [-> ->].
  apply simulation_loop_versions in Hloop as (Hother & rs & Hrs & Hall);
    [|apply NoDup_range].
  simpl in Hrs, Hother. rewrite Hrs. split; [|exact Hall].
  intros k Hk. apply Hother. intros Hin. apply elem_of_range in Hin. lia.
Qed.

Lemma run_simulation_keeps_registry_witness :
  exists h s',
    run_simulation 0 (mkSys (example_engine true example_registry) example_world)
    = (Ok h, s') /\
    versions (registry (engine s')) !! 1%Z = Some example_version.
Proof.
  destruct (run_simulation_total 0
              (mkSys (example_engine true example_registry) example_world)
              (example_engine_ok true _ example_registry_ok)) as (h & s' & H & _).
  exists h, s'. split; [exact H|].
  rewrite (proj1 (run_simulation_keeps_registry _ _ _ _ H)) by lia.
  apply lookup_insert_eq.
Defined.

(** The nodes and the configuration are never updated: after
    [run_simulation] the nodes of the engine (their weights, losses and
    participation counters included) and its parameters are what they
    were before. *)
Theorem run_simulation_never_updates_nodes n s h s' :
  run_simulation n s = (Ok h, s') ->
  hospitals (engine s') = hospitals (engine s) /\
  n_hospitals (engine s') = n_hospitals (engine s) /\
  dp_enabled (engine s') = dp_enabled (engine s) /\
  dp_sigma (engine s') = dp_sigma (engine s) /\
  lr (engine s') = lr (engine s) /\
  n_layers (engine s') = n_layers (engine s).
Proof.
  intros H. unfold run_simulation in H.
  inv_bind H as u s1 Hreset. unfold modify in Hreset. inversion Hreset; subst u s1; clear Hreset.
  inv_bind H as u s2 Hloop.
  inv_bind H as e s3 He. apply self_Ok in He as [-> ->].
  apply ret_Ok in H as [-> ->].
  apply (simulation_loop_induction
           (fun x => hospitals (engine x) = hospitals (engine s) /\
                     n_hospitals (engine x) = n_hospitals (engine s) /\
                     dp_enabled (engine x) = dp_enabled (engine s) /\
                     dp_sigma (engine x) = dp_sigma (engine s) /\
                     lr (engine x) = lr (engine s) /\
                     n_layers (engine x) = n_layers (engine s))
           (fun _ => True)) in Hloop as (HI & _).
  - exact HI.
  - intros r x res x' HI Hround. split; [|exact I].
    apply run_round_Ok in Hround as (c & x1 & Hc & Hcommit).
    apply run_round_candidate_Ok in Hc as (He1 & _).
    apply run_round_commit_Ok in Hcommit
      as (prev & g & a & rb & now & reg' & eps & _ & _ & _ & _ & _ & He' & _).
    rewrite He', He1. simpl. exact HI.
  - simpl. repeat split.
Qed.

Lemma run_simulation_never_updates_nodes_witness :
  exists h s',
    run_simulation 5 (mkSys (example_engine true ModelRegistry_init) example_world)
    = (Ok h, s') /\
    hospitals (engine s') = [example_node].
Proof.
  destruct (run_simulation_total 5
              (mkSys (example_engine true ModelRegistry_init) example_world)
              (example_engine_ok true _ registry_ok_init)) as (h & s' & H & _).
  exists h, s'. split; [exact H|].
  exact (proj1 (run_simulation_never_updates_nodes _ _ _ _ H)).
Defined.

(** ** Construction: the nodes *)

Lemma mapM_total2 {S A B : Type} (f : A -> M S B) (P : A -> B -> Prop) (l : list A) :
  Forall (fun x => forall s, exists y s', f x s = (Ok y, s') /\ P x y) l ->
  forall s, exists ys s', mapM f l s = (Ok ys, s') /\ Forall2 P l ys.
Proof.
  induction 1 as [|x l Hx _ IH]; intros s; simpl.
  - exists [], s. split; [reflexivity | constructor].
  - destruct (Hx s) as (y & s1 & Hy & HP). rewrite (bind_step _ _ _ _ _ Hy).
    destruct (IH s1) as (ys & s2 & Hys & Hall). rewrite (bind_step _ _ _ _ _ Hys).
    exists (y :: ys), s2. split; [reflexivity | constructor; assumption].
Qed.

Lemma init_hospital_labelled L (ss : list Z) (ba : list R) (i : nat) :
  (0 <= L)%Z -> (Z.of_nat i <= 1114046)%Z ->
  (exists n, index ss i = Ok n) ->
  (exists a, index ba i = Ok a) ->
  forall w, exists node w',
    init_hospital L ss ba i w = (Ok node, w') /\ node_labelled i node.
Proof.
  intros HL Hi (n & Hn) (a & Ha) w. unfold init_hospital.
  destruct (clouds_regions i) as (cloud & rs & Hcloud & Hrs & Hregion).
  erewrite bind_step by (unfold lift; rewrite Hcloud; reflexivity).
  erewrite bind_step by (unfold lift; rewrite Hrs; reflexivity).
  assert (Hk : exists k, randint 0 3 w = (Ok k, advance 1 w) /\ (0 <= k < 3)%Z).
  { unfold randint. simpl. eexists. split; [reflexivity|].
    pose proof (Z.mod_pos_bound (integers w (cursor w)) (3 - 0)). lia. }
  destruct Hk as (k & Hk & Hkr). rewrite (bind_step _ _ _ _ _ Hk).
  destruct (Hregion k Hkr) as (reg & Hreg).
  erewrite bind_step by (unfold lift; rewrite Hreg; reflexivity).
  destruct (chr_total (65 + Z.of_nat i)) as (letter & Hletter); [lia|].
  erewrite bind_step by (unfold lift; rewrite Hletter; reflexivity).
  erewrite bind_step by (unfold lift; rewrite Hn; reflexivity).
  erewrite bind_step by (unfold lift; rewrite Ha; reflexivity).
  destruct (randn_layers_total L (advance 1 w) HL) as (t & Ht & Hlen).
  rewrite (bind_step _ _ _ _ _ Ht).
  eexists. eexists. split; [reflexivity|]. unfold node_labelled. simpl.
  split; [exact Hcloud|]. split.
  - exists rs. unfold subscript in Hrs. destruct (regions !! cloud) as [rs'|]; [|discriminate].
    inversion Hrs; subst rs'. split; [reflexivity|].
    unfold index in Hreg. destruct (rs !! Z.to_nat k) eqn:E; [|discriminate].
    inversion Hreg; subst. apply list_elem_of_lookup. eauto.
  - split; [eauto|]. repeat split.
Qed.

Lemma _init_hospitals_labelled n L w :
  (0 <= n <= 1114047)%Z -> (0 <= L)%Z ->
  exists nodes w',
    _init_hospitals n L w = (Ok nodes, w') /\
    Forall2 node_labelled (seq 0 (Z.to_nat n)) nodes.
Proof.
  intros Hn HL. unfold _init_hospitals.
  assert (E : (n <? 0)%Z = false) by (apply Z.ltb_ge; lia).
  erewrite bind_step by (unfold randint_n; rewrite E; reflexivity).
  erewrite bind_step by (unfold random_uniform_n; rewrite E; reflexivity).
  apply mapM_total2. apply Forall_forall. intros i Hi. apply elem_of_seq in Hi.
  apply init_hospital_labelled; [exact HL | lia | |].
  - rewrite index_map_seq by lia. eauto.
  - rewrite index_map_seq by lia. eauto.
Qed.

Lemma chr_ascii n :
  (0 <= n < 128)%Z -> chr n = Ok (String (ascii_of_N (Z.to_N n)) EmptyString).
Proof.
  intros Hn. unfold chr.
  destruct (n <? 0)%Z eqn:E1; [apply Z.ltb_lt in E1; lia|].
  destruct (1114111 <? n)%Z eqn:E2; [apply Z.ltb_lt in E2; lia|]. simpl.
  destruct (n <? 128)%Z eqn:E3; [reflexivity | apply Z.ltb_ge in E3; lia].
Qed.

Lemma node_labelled_id_inj i j x y :
  (i <= 62)%nat -> (j <= 62)%nat ->
  node_labelled i x -> node_labelled j y -> node_id x = node_id y -> i = j.
Proof.
  intros Hi Hj (_ & _ & (lx & Hlx & Hx) & _) (_ & _ & (ly & Hly & Hy) & _) Heq.
  rewrite chr_ascii in Hlx by lia. rewrite chr_ascii in Hly by lia.
  inversion Hlx; subst lx. inversion Hly; subst ly.
  rewrite Hx, Hy in Heq. simpl in Heq. inversion Heq as [Ha].
  apply (f_equal N_of_ascii) in Ha.
  rewrite !N_ascii_embedding in Ha by lia. lia.
Qed.

(** The nodes construction builds: the node of index i has the cloud
    [clouds[i % 3]], a region of that cloud, the id [Hospital-] followed
    by the letter of code 65 + i, encryption on, a loss of 1 and a
    participation counter of 0; up to 63 nodes, whose letters are ASCII
    characters, the ids are pairwise distinct. *)
Theorem FedAvgEngine_init_nodes n dp sigma rate L w :
  (0 <= n <= 1114047)%Z -> (0 <= L)%Z ->
  exists e w',
    FedAvgEngine_init n dp sigma rate L w = (Ok e, w') /\
    length (hospitals e) = Z.to_nat n /\
    (forall i node, hospitals e !! i = Some node -> node_labelled i node) /\
    ((n <= 63)%Z -> NoDup (map node_id (hospitals e))).
Proof.
  intros Hn HL. unfold FedAvgEngine_init.
  destruct (_init_hospitals_labelled n L w Hn HL) as (nodes0 & w1 & Hnodes & Hall).
  rewrite (bind_step _ _ _ _ _ Hnodes).
  destruct (randn_layers_total L w1 HL) as (g & Hg & _).
  rewrite (bind_step _ _ _ _ _ Hg).
  eexists. eexists. split; [reflexivity|]. simpl.
  assert (Hlen : length nodes0 = Z.to_nat n)
    by (apply Forall2_length in Hall; rewrite length_seq in Hall; lia).
  assert (Hat : forall i node, nodes0 !! i = Some node -> node_labelled i node).
  { intros i node Hi.
    destruct (Forall2_lookup_r _ _ _ _ _ Hall Hi) as (j & Hj & HP).
    apply lookup_seq in Hj as [-> _]. exact HP. }
  split; [exact Hlen|]. split; [exact Hat|].
  intros Hsmall. apply NoDup_alt. intros i j id Hi Hj.
  rewrite list_lookup_fmap in Hi, Hj.
  destruct (nodes0 !! i) as [x|] eqn:Hx; [|discriminate Hi].
  destruct (nodes0 !! j) as [y|] eqn:Hy; [|discriminate Hj].
  simpl in Hi, Hj. inversion Hi. inversion Hj.
  pose proof (lookup_lt_Some _ _ _ Hx). pose proof (lookup_lt_Some _ _ _ Hy).
  apply (node_labelled_id_inj i j x y); [lia | lia | apply Hat; exact Hx
                                        | apply Hat; exact Hy | congruence].
Qed.

Lemma FedAvgEngine_init_nodes_witness :
  exists e w',
    FedAvgEngine_init 5 true 0.15 0.01 8 example_world = (Ok e, w') /\
    NoDup (map node_id (hospitals e)).
Proof.
  destruct (FedAvgEngine_init_nodes 5 true 0.15 0.01 8 example_world)
    as (e & w' & H & _ & _ & Hids); [lia | lia |].
  exists e, w'. split; [exact H|]. apply Hids. lia.
Defined.

Lemma init_hospital_negative_layers L (ss : list Z) (ba : list R) (i : nat) :
  (L < 0)%Z -> (Z.of_nat i <= 1114046)%Z ->
  (exists n, index ss i = Ok n) ->
  (exists a, index ba i = Ok a) ->
  forall w, exists w', init_hospital L ss ba i w = (Raise ValueError, w').
Proof.
  intros HL Hi (n & Hn) (a & Ha) w. unfold init_hospital.
  destruct (clouds_regions i) as (cloud & rs & Hcloud & Hrs & Hregion).
  erewrite bind_step by (unfold lift; rewrite Hcloud; reflexivity).
  erewrite bind_step by (unfold lift; rewrite Hrs; reflexivity).
  assert (Hk : exists k, randint 0 3 w = (Ok k, advance 1 w) /\ (0 <= k < 3)%Z).
  { unfold randint. simpl. eexists. split; [reflexivity|].
    pose proof (Z.mod_pos_bound (integers w (cursor w)) (3 - 0)). lia. }
  destruct Hk as (k & Hk & Hkr). rewrite (bind_step _ _ _ _ _ Hk).
  destruct (Hregion k Hkr) as (reg & Hreg).
  erewrite bind_step by (unfold lift; rewrite Hreg; reflexivity).
  destruct (chr_total (65 + Z.of_nat i)) as (letter & Hletter); [lia|].
  erewrite bind_step by (unfold lift; rewrite Hletter; reflexivity).
  erewrite bind_step by (unfold lift; rewrite Hn; reflexivity).
  erewrite bind_step by (unfold lift; rewrite Ha; reflexivity).
  eexists. apply bind_raise. unfold randn_layers.
  apply Z.ltb_lt in HL. rewrite HL. reflexivity.
Qed.

Lemma _init_hospitals_run n L w :
  (0 <= n)%Z ->
  _init_hospitals n L w =
  mapM (init_hospital L
          (map (fun i => (150 + integers w i mod (800 - 150))%Z)
               (seq (cursor w) (Z.to_nat n)))
          (map (fun i => 0.60 + (0.75 - 0.60) * uniforms w i)
               (seq (cursor w + Z.to_nat n) (Z.to_nat n))))
       (seq 0 (Z.to_nat n))
       (advance (Z.to_nat n) (advance (Z.to_nat n) w)).
Proof.
  intros Hn. unfold _init_hospitals.
  assert (E : (n <? 0)%Z = false) by (apply Z.ltb_ge; lia).
  erewrite bind_step by (unfold randint_n; rewrite E; reflexivity).
  erewrite bind_step by (unfold random_uniform_n; rewrite E; reflexivity).
  reflexivity.
Qed.

(** Construction fails with [ValueError] on a negative number of nodes,
    before anything is drawn, and on a negative number of layers. *)
Theorem FedAvgEngine_init_failures dp sigma rate w :
  (forall n L, (n < 0)%Z ->
     FedAvgEngine_init n dp sigma rate L w = (Raise ValueError, w)) /\
  (forall n L, (0 <= n <= 1114047)%Z -> (L < 0)%Z ->
     exists w', FedAvgEngine_init n dp sigma rate L w = (Raise ValueError, w')).
Proof.
  split.
  - intros n L Hn. unfold FedAvgEngine_init, _init_hospitals.
    apply bind_raise. apply bind_raise. unfold randint_n.
    apply Z.ltb_lt in Hn. rewrite Hn. reflexivity.
  - intros n L Hn HL. unfold FedAvgEngine_init.
    destruct (Z.to_nat n) as [|k] eqn:Ek.
    + erewrite bind_step by (rewrite _init_hospitals_run by lia; rewrite Ek; reflexivity).
      eexists. apply bind_raise. unfold randn_layers.
      apply Z.ltb_lt in HL. rewrite HL. reflexivity.
    + assert (Hseq : seq 0 (Z.to_nat n) = 0%nat :: seq 1 k) by (rewrite Ek; reflexivity).
      destruct (init_hospital_negative_layers L
                  (map (fun i => (150 + integers w i mod (800 - 150))%Z)
                       (seq (cursor w) (Z.to_nat n)))
                  (map (fun i => 0.60 + (0.75 - 0.60) * uniforms w i)
                       (seq (cursor w + Z.to_nat n) (Z.to_nat n)))
                  0 HL ltac:(lia)) with (w := advance (Z.to_nat n) (advance (Z.to_nat n) w))
        as (w' & Hraise).
      * rewrite index_map_seq by lia. eauto.
      * rewrite index_map_seq by lia. eauto.
      * exists w'. apply bind_raise. rewrite _init_hospitals_run by lia.
        rewrite Hseq. simpl mapM. apply bind_raise. exact Hraise.
Qed.

Lemma FedAvgEngine_init_failures_witness :
  FedAvgEngine_init (-1) true 0.15 0.01 8 example_world = (Raise ValueError, example_world).
Proof. apply (proj1 (FedAvgEngine_init_failures true 0.15 0.01 example_world)). lia. Defined.
